(** * Market microstructure simulator: order book and matching engine

    Shallow embedding of [types.hpp], [order_book.hpp], [order_book.cpp],
    [matching_engine.hpp] and [matching_engine.cpp].

    Conventions of the embedding.
    - [Price], [Qty] and [Timestamp] are [int64_t]; they are embedded as [Z].
      The running sums the code keeps ([total_quantity_], [total_volume_]) and
      the sum in [get_mid_price] are formed in 64 bits with no range check;
      signed overflow is undefined behaviour in C++, and the embedding takes
      the two's-complement result the build targets produce, written out
      with [int64_wrap].  The differences [front_order.quantity - quantity]
      and [remaining_qty - maker_order.quantity] are taken between values
      [0 < x <= y] of the type and cannot leave its range, and neither can
      [best_ask - best_bid] of two positive prices or a sum with [0]: they
      are written without wrap-around.
    - [size_t] counters ([order_count_], [trade_count_]) are unsigned and wrap
      modulo 2^64; the wrap-around is written out with [size_t_wrap].
    - [OrderId] is [uint64_t]; ids are only compared, never computed with, and
      are embedded as [N].
    - [std::map<Price, OrderBookPriceLevel, Cmp>] is a list of (key, level)
      pairs kept in iteration order; [begin()] is the head of the list.
    - [std::unordered_map<OrderId, pair<Price, Side>>] is a [gmap].
    - [std::deque<Order>] is a list, front first.
    - The observer callbacks of the engine take their argument by const
      reference and return nothing; they are left out. *)

From Stdlib Require Import ZArith List Lia Bool.
From stdpp Require Import base gmap list sorting.

Local Open Scope Z_scope.

(** ** types.hpp *)

Inductive Side := BUY | SELL.

#[global] Instance Side_eq_dec : EqDecision Side.
Proof. solve_decision. Defined.

(** [EventType] is an [enum class] over [uint8_t]; [UNKNOWN] stands for any
    value outside the three enumerators (the [default] branch of the
    dispatcher). *)
Inductive EventType := LIMIT | MARKET | CANCEL | UNKNOWN.

Module Order.
Record t := mk {
  id : N;
  side : Side;
  price : Z;
  quantity : Z;
  timestamp : Z
}.
End Order.

Module Trade.
Record t := mk {
  maker_id : N;
  taker_id : N;
  price : Z;
  quantity : Z;
  timestamp : Z
}.
End Trade.

Definition is_valid_price (price : Z) : bool := 0 <? price.

Definition is_valid_quantity (quantity : Z) : bool := 0 <? quantity.

(** [size_t] arithmetic. *)
Definition size_t_wrap (z : Z) : Z := z mod 2 ^ 64.

(** [int64_t] arithmetic: the two's-complement value of a 64-bit result. *)
Definition INT64_MAX : Z := 2 ^ 63 - 1.

Definition INT64_MIN : Z := - 2 ^ 63.

Definition int64_wrap (z : Z) : Z := (z + 2 ^ 63) mod 2 ^ 64 - 2 ^ 63.

#[global] Arguments int64_wrap : simpl never.

(** The value a container's [size()] returns. *)
Definition size_t_of_nat (n : nat) : Z := size_t_wrap (Z.of_nat n).

(** ** order_book.hpp: OrderBookPriceLevel *)

Record OrderBookPriceLevel := {
  orders_ : list Order.t;
  total_quantity_ : Z
}.

(** [OrderBookPriceLevel() = default]. *)
Definition new_level : OrderBookPriceLevel :=
  {| orders_ := []; total_quantity_ := 0 |}.

(** Assignment to the [quantity] member of an order. *)
Definition set_quantity (o : Order.t) (q : Z) : Order.t :=
  Order.mk (Order.id o) (Order.side o) (Order.price o) q (Order.timestamp o).

Definition add_order (order : Order.t) (lv : OrderBookPriceLevel)
  : OrderBookPriceLevel :=
  {| orders_ := orders_ lv ++ [order];
     total_quantity_ := int64_wrap (total_quantity_ lv + Order.quantity order) |}.

(** The scan of [remove_order]: the first order whose id matches is taken out
    of the deque. *)
Fixpoint erase_first (order_id : N) (os : list Order.t)
  : option (Order.t * list Order.t) :=
  match os with
  | [] => None
  | o :: rest =>
      if N.eqb (Order.id o) order_id then Some (o, rest)
      else match erase_first order_id rest with
           | Some (removed, rest') => Some (removed, o :: rest')
           | None => None
           end
  end.

(** [remove_order]: [Some (removed_order, level')] when the C++ returns
    [true], [None] when it returns [false] (nothing is written then). *)
Definition remove_order (order_id : N) (lv : OrderBookPriceLevel)
  : option (Order.t * OrderBookPriceLevel) :=
  match erase_first order_id (orders_ lv) with
  | Some (removed, os') =>
      Some (removed,
            {| orders_ := os';
               total_quantity_ :=
                 int64_wrap (total_quantity_ lv - Order.quantity removed) |})
  | None => None
  end.

Definition level_empty (lv : OrderBookPriceLevel) : bool :=
  match orders_ lv with [] => true | _ => false end.

Definition level_order_count (lv : OrderBookPriceLevel) : Z :=
  size_t_of_nat (length (orders_ lv)).

(** [consume_order]: [None] on an empty deque (the C++ returns [false] and
    leaves [consumed_order] untouched); otherwise the returned flag, the value
    written to [consumed_order] and the level afterwards. *)
Definition consume_order (quantity : Z) (lv : OrderBookPriceLevel)
  : option (bool * Order.t * OrderBookPriceLevel) :=
  match orders_ lv with
  | [] => None
  | front_order :: rest =>
      if Order.quantity front_order <=? quantity then
        Some (true, front_order,
              {| orders_ := rest;
                 total_quantity_ :=
                   int64_wrap (total_quantity_ lv - Order.quantity front_order) |})
      else
        Some (false, set_quantity front_order quantity,
              {| orders_ :=
                   set_quantity front_order (Order.quantity front_order - quantity)
                   :: rest;
                 total_quantity_ := int64_wrap (total_quantity_ lv - quantity) |})
  end.

(** ** Price-keyed ordered maps *)

Abbreviation LevelMap := (list (Z * OrderBookPriceLevel)).

(** [m[price]] followed by a member call [f] on the level: the entry is
    default-constructed at its place in the order [before] (the map's
    comparator) when the key is absent. *)
Fixpoint map_update (before : Z -> Z -> bool) (price : Z)
    (f : OrderBookPriceLevel -> OrderBookPriceLevel) (m : LevelMap) : LevelMap :=
  match m with
  | [] => [(price, f new_level)]
  | (k, lv) :: rest =>
      if price =? k then (k, f lv) :: rest
      else if before price k then (price, f new_level) :: m
      else (k, lv) :: map_update before price f rest
  end.

(** [m.find(price)]. *)
Fixpoint map_find (price : Z) (m : LevelMap) : option OrderBookPriceLevel :=
  match m with
  | [] => None
  | (k, lv) :: rest => if price =? k then Some lv else map_find price rest
  end.

(** Writing through the iterator returned by [find]. *)
Fixpoint map_store (price : Z) (lv' : OrderBookPriceLevel) (m : LevelMap)
  : LevelMap :=
  match m with
  | [] => []
  | (k, lv) :: rest =>
      if price =? k then (k, lv') :: rest else (k, lv) :: map_store price lv' rest
  end.

(** [m.erase(it)] for the iterator returned by [find]. *)
Fixpoint map_erase (price : Z) (m : LevelMap) : LevelMap :=
  match m with
  | [] => []
  | (k, lv) :: rest =>
      if price =? k then rest else (k, lv) :: map_erase price rest
  end.

(** ** order_book.hpp / order_book.cpp: OrderBook *)

Record OrderBook := {
  buy_levels_ : LevelMap;            (* std::greater<Price>: descending *)
  sell_levels_ : LevelMap;           (* std::less<Price>: ascending *)
  order_lookup_ : gmap N (Z * Side);
  order_count_ : Z;
  last_trade_price_ : Z;
  total_volume_ : Z;
  trade_count_ : Z
}.

(** [OrderBook() = default]. *)
Definition empty_book : OrderBook :=
  {| buy_levels_ := []; sell_levels_ := []; order_lookup_ := ∅;
     order_count_ := 0; last_trade_price_ := 0; total_volume_ := 0;
     trade_count_ := 0 |}.

Definition add_limit_order_to_side (order : Order.t) (b : OrderBook)
  : bool * OrderBook :=
  let buys :=
    match Order.side order with
    | BUY => map_update Z.gtb (Order.price order) (add_order order) (buy_levels_ b)
    | SELL => buy_levels_ b
    end in
  let sells :=
    match Order.side order with
    | BUY => sell_levels_ b
    | SELL => map_update Z.ltb (Order.price order) (add_order order) (sell_levels_ b)
    end in
  (true,
   {| buy_levels_ := buys;
      sell_levels_ := sells;
      order_lookup_ :=
        <[Order.id order := (Order.price order, Order.side order)]> (order_lookup_ b);
      order_count_ := size_t_wrap (order_count_ b + 1);
      last_trade_price_ := last_trade_price_ b;
      total_volume_ := total_volume_ b;
      trade_count_ := trade_count_ b |}).

Definition add_limit_order (order : Order.t) (b : OrderBook) : bool * OrderBook :=
  if negb (is_valid_price (Order.price order))
     || negb (is_valid_quantity (Order.quantity order))
  then (false, b)
  else add_limit_order_to_side order b.

(** The locals and members the matching loops read and write, apart from the
    level map being walked. *)
Record MatchState := {
  remaining_qty : Z;
  trades : list Trade.t;
  ms_order_lookup : gmap N (Z * Side);
  ms_order_count : Z;
  ms_last_trade_price : Z;
  ms_total_volume : Z;
  ms_trade_count : Z
}.

(** The branch [if (fully_consumed)] of the loop body. *)
Definition on_fully_consumed (price : Z) (taker_id : N) (timestamp : Z)
    (maker_order : Order.t) (st : MatchState) : MatchState :=
  {| remaining_qty := remaining_qty st - Order.quantity maker_order;
     trades := trades st ++
       [Trade.mk (Order.id maker_order) taker_id price
                 (Order.quantity maker_order) timestamp];
     ms_order_lookup := delete (Order.id maker_order) (ms_order_lookup st);
     ms_order_count := size_t_wrap (ms_order_count st - 1);
     ms_last_trade_price := price;
     ms_total_volume := int64_wrap (ms_total_volume st + Order.quantity maker_order);
     ms_trade_count := size_t_wrap (ms_trade_count st + 1) |}.

(** The [else] branch: the trade is emitted with the value [remaining_qty]
    has on entry, then [remaining_qty = 0], and only then
    [total_volume_ += remaining_qty]. *)
Definition on_partial_fill (price : Z) (taker_id : N) (timestamp : Z)
    (maker_order : Order.t) (st : MatchState) : MatchState :=
  let trades' := trades st ++
       [Trade.mk (Order.id maker_order) taker_id price (remaining_qty st) timestamp] in
  let remaining_qty' := 0 in
  {| remaining_qty := remaining_qty';
     trades := trades';
     ms_order_lookup := ms_order_lookup st;
     ms_order_count := ms_order_count st;
     ms_last_trade_price := price;
     ms_total_volume := ms_total_volume st + remaining_qty';
     ms_trade_count := size_t_wrap (ms_trade_count st + 1) |}.

(** [while (!level.empty() && remaining_qty > 0) { ... }].  Each iteration
    that does not end the loop pops one order, so [length (orders_ lv)]
    iterations are enough (lemma [match_level_fuel]); [fuel] bounds the
    iterations. *)
Fixpoint match_level (fuel : nat) (price : Z) (taker_id : N) (timestamp : Z)
    (lv : OrderBookPriceLevel) (st : MatchState)
  : OrderBookPriceLevel * MatchState :=
  match fuel with
  | O => (lv, st)
  | S fuel' =>
      if negb (level_empty lv) && (0 <? remaining_qty st) then
        match consume_order (remaining_qty st) lv with
        | Some (true, maker_order, lv') =>
            match_level fuel' price taker_id timestamp lv'
              (on_fully_consumed price taker_id timestamp maker_order st)
        | Some (false, maker_order, lv') =>
            match_level fuel' price taker_id timestamp lv'
              (on_partial_fill price taker_id timestamp maker_order st)
        | None => (lv, st)   (* excluded by the loop guard *)
        end
      else (lv, st)
  end.

(** [for (it = m.begin(); it != m.end() && remaining_qty > 0; ) { ... }]:
    the level under the iterator is matched, then erased when empty. *)
Fixpoint match_levels (taker_id : N) (timestamp : Z) (m : LevelMap)
    (st : MatchState) : LevelMap * MatchState :=
  match m with
  | [] => ([], st)
  | (price, lv) :: rest =>
      if 0 <? remaining_qty st then
        let '(lv', st') :=
          match_level (length (orders_ lv)) price taker_id timestamp lv st in
        let '(rest', st'') := match_levels taker_id timestamp rest st' in
        if level_empty lv' then (rest', st'')
        else ((price, lv') :: rest', st'')
      else (m, st)
  end.

Definition enter_match (quantity : Z) (b : OrderBook) : MatchState :=
  {| remaining_qty := quantity;
     trades := [];
     ms_order_lookup := order_lookup_ b;
     ms_order_count := order_count_ b;
     ms_last_trade_price := last_trade_price_ b;
     ms_total_volume := total_volume_ b;
     ms_trade_count := trade_count_ b |}.

Definition match_market_order_buy (quantity : Z) (taker_id : N) (timestamp : Z)
    (b : OrderBook) : list Trade.t * OrderBook :=
  let '(sells, st) :=
    match_levels taker_id timestamp (sell_levels_ b) (enter_match quantity b) in
  (trades st,
   {| buy_levels_ := buy_levels_ b;
      sell_levels_ := sells;
      order_lookup_ := ms_order_lookup st;
      order_count_ := ms_order_count st;
      last_trade_price_ := ms_last_trade_price st;
      total_volume_ := ms_total_volume st;
      trade_count_ := ms_trade_count st |}).

Definition match_market_order_sell (quantity : Z) (taker_id : N) (timestamp : Z)
    (b : OrderBook) : list Trade.t * OrderBook :=
  let '(buys, st) :=
    match_levels taker_id timestamp (buy_levels_ b) (enter_match quantity b) in
  (trades st,
   {| buy_levels_ := buys;
      sell_levels_ := sell_levels_ b;
      order_lookup_ := ms_order_lookup st;
      order_count_ := ms_order_count st;
      last_trade_price_ := ms_last_trade_price st;
      total_volume_ := ms_total_volume st;
      trade_count_ := ms_trade_count st |}).

Definition add_market_order (side : Side) (quantity : Z) (taker_id : N)
    (timestamp : Z) (b : OrderBook) : list Trade.t * OrderBook :=
  match side with
  | BUY => match_market_order_buy quantity taker_id timestamp b
  | SELL => match_market_order_sell quantity taker_id timestamp b
  end.

(** [remove_order_from_side] on one of the two maps: the new map and whether
    the order was found and removed. *)
Definition remove_from_levels (order_id : N) (price : Z) (m : LevelMap)
  : option LevelMap :=
  match map_find price m with
  | Some lv =>
      match remove_order order_id lv with
      | Some (_, lv') =>
          Some (if level_empty lv' then map_erase price m
                else map_store price lv' m)
      | None => None
      end
  | None => None
  end.

Definition remove_order_from_side (order_id : N) (price : Z) (side : Side)
    (b : OrderBook) : OrderBook :=
  match side with
  | BUY =>
      match remove_from_levels order_id price (buy_levels_ b) with
      | Some buys =>
          {| buy_levels_ := buys;
             sell_levels_ := sell_levels_ b;
             order_lookup_ := delete order_id (order_lookup_ b);
             order_count_ := size_t_wrap (order_count_ b - 1);
             last_trade_price_ := last_trade_price_ b;
             total_volume_ := total_volume_ b;
             trade_count_ := trade_count_ b |}
      | None => b
      end
  | SELL =>
      match remove_from_levels order_id price (sell_levels_ b) with
      | Some sells =>
          {| buy_levels_ := buy_levels_ b;
             sell_levels_ := sells;
             order_lookup_ := delete order_id (order_lookup_ b);
             order_count_ := size_t_wrap (order_count_ b - 1);
             last_trade_price_ := last_trade_price_ b;
             total_volume_ := total_volume_ b;
             trade_count_ := trade_count_ b |}
      | None => b
      end
  end.

Definition cancel_order (order_id : N) (b : OrderBook) : bool * OrderBook :=
  match order_lookup_ b !! order_id with
  | None => (false, b)
  | Some (price, side) => (true, remove_order_from_side order_id price side b)
  end.

Definition best_bid_price (b : OrderBook) : option Z :=
  match buy_levels_ b with [] => None | (p, _) :: _ => Some p end.

Definition best_bid_quantity (b : OrderBook) : option Z :=
  match buy_levels_ b with [] => None | (_, lv) :: _ => Some (total_quantity_ lv) end.

Definition best_ask_price (b : OrderBook) : option Z :=
  match sell_levels_ b with [] => None | (p, _) :: _ => Some p end.

Definition best_ask_quantity (b : OrderBook) : option Z :=
  match sell_levels_ b with [] => None | (_, lv) :: _ => Some (total_quantity_ lv) end.

Definition size (b : OrderBook) : Z := order_count_ b.

Definition last_trade_price (b : OrderBook) : Z := last_trade_price_ b.

Definition total_volume (b : OrderBook) : Z := total_volume_ b.

Definition trade_count (b : OrderBook) : Z := trade_count_ b.

Definition clear (b : OrderBook) : OrderBook :=
  {| buy_levels_ := []; sell_levels_ := []; order_lookup_ := ∅;
     order_count_ := 0; last_trade_price_ := 0; total_volume_ := 0;
     trade_count_ := 0 |}.

(** ** matching_engine.hpp / matching_engine.cpp *)

Module Event.
Record t := mk {
  type : EventType;
  order_id : N;
  side : Side;
  price : Z;
  quantity : Z;
  timestamp : Z;
  agent_id : N
}.
End Event.

Record MatchingEngine := {
  order_book_ : OrderBook;
  trades_ : list Trade.t
}.

Definition new_engine : MatchingEngine :=
  {| order_book_ := empty_book; trades_ := [] |}.

Definition with_book (e : MatchingEngine) (b : OrderBook) : MatchingEngine :=
  {| order_book_ := b; trades_ := trades_ e |}.

Definition process_limit_order (event : Event.t) (e : MatchingEngine)
  : list Trade.t * MatchingEngine :=
  let order := Order.mk (Event.order_id event) (Event.side event)
                 (Event.price event) (Event.quantity event) (Event.timestamp event) in
  match add_limit_order order (order_book_ e) with
  | (true, b1) =>
      match Event.side event with
      | BUY =>
          match best_ask_price b1 with
          | Some best_ask =>
              if Event.price event >=? best_ask then
                let '(cross_trades, b2) :=
                  add_market_order SELL (Event.quantity event)
                    (Event.order_id event) (Event.timestamp event) b1 in
                (cross_trades, with_book e b2)
              else ([], with_book e b1)
          | None => ([], with_book e b1)
          end
      | SELL =>
          match best_bid_price b1 with
          | Some best_bid =>
              if Event.price event <=? best_bid then
                let '(cross_trades, b2) :=
                  add_market_order BUY (Event.quantity event)
                    (Event.order_id event) (Event.timestamp event) b1 in
                (cross_trades, with_book e b2)
              else ([], with_book e b1)
          | None => ([], with_book e b1)
          end
      end
  | (false, b1) => ([], with_book e b1)
  end.

Definition process_market_order (event : Event.t) (e : MatchingEngine)
  : list Trade.t * MatchingEngine :=
  let '(ts, b) :=
    add_market_order (Event.side event) (Event.quantity event)
      (Event.order_id event) (Event.timestamp event) (order_book_ e) in
  (ts, with_book e b).

Definition process_cancel_order (event : Event.t) (e : MatchingEngine)
  : list Trade.t * MatchingEngine :=
  ([], with_book e (snd (cancel_order (Event.order_id event) (order_book_ e)))).

Definition process_event (event : Event.t) (e : MatchingEngine)
  : list Trade.t * MatchingEngine :=
  match Event.type event with
  | LIMIT => process_limit_order event e
  | MARKET => process_market_order event e
  | CANCEL => process_cancel_order event e
  | UNKNOWN => ([], e)
  end.

Fixpoint process_events (events : list Event.t) (e : MatchingEngine)
  : list Trade.t * MatchingEngine :=
  match events with
  | [] => ([], e)
  | event :: rest =>
      let '(ts, e1) := process_event event e in
      let '(all_trades, e2) := process_events rest e1 in
      (ts ++ all_trades, e2)
  end.

(** ** Sequences of OrderBook operations *)

Inductive Op :=
| OpAddLimit (order : Order.t)
| OpAddMarket (side : Side) (quantity : Z) (taker_id : N) (timestamp : Z)
| OpCancel (order_id : N)
| OpClear.

(** The book after one public call. *)
Definition apply_op (b : OrderBook) (op : Op) : OrderBook :=
  match op with
  | OpAddLimit order => snd (add_limit_order order b)
  | OpAddMarket side quantity taker_id timestamp =>
      snd (add_market_order side quantity taker_id timestamp b)
  | OpCancel order_id => snd (cancel_order order_id b)
  | OpClear => clear b
  end.

(** The order the call admits: [add_limit_order] returned [true]. *)
Definition op_admits (b : OrderBook) (op : Op) : list Order.t :=
  match op with
  | OpAddLimit order => if fst (add_limit_order order b) then [order] else []
  | _ => []
  end.

(** The trades the call returns. *)
Definition op_trades (b : OrderBook) (op : Op) : list Trade.t :=
  match op with
  | OpAddMarket side quantity taker_id timestamp =>
      fst (add_market_order side quantity taker_id timestamp b)
  | _ => []
  end.

Fixpoint run_from (b : OrderBook) (ops : list Op) : OrderBook :=
  match ops with
  | [] => b
  | op :: rest => run_from (apply_op b op) rest
  end.

Fixpoint admitted_from (b : OrderBook) (ops : list Op) : list Order.t :=
  match ops with
  | [] => []
  | op :: rest => op_admits b op ++ admitted_from (apply_op b op) rest
  end.

Fixpoint emitted_from (b : OrderBook) (ops : list Op) : list Trade.t :=
  match ops with
  | [] => []
  | op :: rest => op_trades b op ++ emitted_from (apply_op b op) rest
  end.

(** The book reached from the empty book by the calls [ops]. *)
Definition run (ops : list Op) : OrderBook := run_from empty_book ops.

(** The orders admitted along [ops], in admission order. *)
Definition admitted (ops : list Op) : list Order.t := admitted_from empty_book ops.

(** The trades returned along [ops], in emission order. *)
Definition emitted (ops : list Op) : list Trade.t := emitted_from empty_book ops.

Definition sum_quantity (ts : list Trade.t) : Z :=
  fold_right (fun t acc => Trade.quantity t + acc) 0 ts.

(** No order is admitted under an id that is a key of [order_lookup_] at the
    moment of the call. *)
Definition fresh_id (b : OrderBook) (op : Op) : bool :=
  match op with
  | OpAddLimit order =>
      negb (fst (add_limit_order order b))
      || bool_decide (order_lookup_ b !! Order.id order = None)
  | _ => true
  end.

Fixpoint ids_fresh_from (b : OrderBook) (ops : list Op) : bool :=
  match ops with
  | [] => true
  | op :: rest => fresh_id b op && ids_fresh_from (apply_op b op) rest
  end.

Definition ids_fresh (ops : list Op) : bool := ids_fresh_from empty_book ops.

(** ** Predicates used by the invariants *)

(** What identifies a resting order apart from its residual quantity. *)
Definition tag (o : Order.t) : N * Side * Z * Z :=
  (Order.id o, Order.side o, Order.price o, Order.timestamp o).

Definition tag_id (t : N * Side * Z * Z) : N := t.1.1.1.

Definition tag_price (t : N * Side * Z * Z) : Z := t.1.2.

Definition tag_side (t : N * Side * Z * Z) : Side := t.1.1.2.

Definition keys (m : LevelMap) : list Z := fst <$> m.

(** All orders of one side, level by level in iteration order, each level
    front first. *)
Fixpoint side_orders (m : LevelMap) : list Order.t :=
  match m with
  | [] => []
  | (_, lv) :: rest => orders_ lv ++ side_orders rest
  end.

Definition resting_orders (b : OrderBook) : list Order.t :=
  side_orders (buy_levels_ b) ++ side_orders (sell_levels_ b).

Definition levels_of (s : Side) (b : OrderBook) : LevelMap :=
  match s with BUY => buy_levels_ b | SELL => sell_levels_ b end.

(** The side a market order of side [s] is matched against. *)
Definition opposite (s : Side) : Side :=
  match s with BUY => SELL | SELL => BUY end.

Definition queue_sum (os : list Order.t) : Z :=
  fold_right (fun o acc => Order.quantity o + acc) 0 os.

(** A level of side [s] stored under key [kl.1]: its orders carry that price
    and side, and the maintained sum is the 64-bit value of the sum of the
    residuals. *)
Definition level_ok (s : Side) (kl : Z * OrderBookPriceLevel) : Prop :=
  Forall (fun o => Order.price o = kl.1 /\ Order.side o = s) (orders_ kl.2)
  /\ total_quantity_ kl.2 = int64_wrap (queue_sum (orders_ kl.2)).

(** The trades of one walk over [m]: level after level, inside a level the
    makers are the orders at the front of the queue, front first. *)
Inductive trades_follow : LevelMap -> list Trade.t -> Prop :=
| follow_done m : trades_follow m []
| follow_level k lv rest T1 T2 :
    Forall (fun t => Trade.price t = k) T1 ->
    Trade.maker_id <$> T1 `prefix_of` Order.id <$> orders_ lv ->
    trades_follow rest T2 ->
    trades_follow ((k, lv) :: rest) (T1 ++ T2).

(** Every level of [m'] is a level of [m] under the same key from which
    orders were taken out; residual quantities may have changed. *)
Definition shrinks (m m' : LevelMap) : Prop :=
  forall k lv', (k, lv') ∈ m' ->
    exists lv, (k, lv) ∈ m /\ tag <$> orders_ lv' `sublist_of` tag <$> orders_ lv.

(** Invariant of the book under the public operations. *)
Record book_inv (b : OrderBook) : Prop := {
  inv_buys_sorted : StronglySorted Z.gt (keys (buy_levels_ b));
  inv_sells_sorted : StronglySorted Z.lt (keys (sell_levels_ b));
  inv_buys_ok : Forall (level_ok BUY) (buy_levels_ b);
  inv_sells_ok : Forall (level_ok SELL) (sell_levels_ b);
  inv_lookup : forall i p s,
    order_lookup_ b !! i = Some (p, s) ->
    exists o, o ∈ side_orders (levels_of s b) /\ Order.id o = i /\ Order.price o = p;
  inv_count : order_count_ b = size_t_of_nat (length (resting_orders b))
}.

(** Additional invariant when ids are never reused while resting. *)
Record unique_inv (b : OrderBook) : Prop := {
  uniq_ids : NoDup (Order.id <$> resting_orders b);
  uniq_lookup : forall o,
    o ∈ resting_orders b ->
    order_lookup_ b !! Order.id o = Some (Order.price o, Order.side o)
}.

(** Every queue is, up to residual quantities, a subsequence of the
    admitted orders [adm]. *)
Definition history_inv (adm : list Order.t) (b : OrderBook) : Prop :=
  forall s k lv, (k, lv) ∈ levels_of s b ->
    tag <$> orders_ lv `sublist_of` tag <$> adm.

(** Top of book not crossed, as the engine's clients see it. *)
Definition not_crossed (b : OrderBook) : Prop :=
  buy_levels_ b = [] \/ sell_levels_ b = [] \/
  exists bid ask,
    best_bid_price b = Some bid /\ best_ask_price b = Some ask /\ bid < ask.

(** Every bid key is below every ask key. *)
Definition uncrossed (b : OrderBook) : Prop :=
  forall bid ask, bid ∈ keys (buy_levels_ b) -> ask ∈ keys (sell_levels_ b) -> bid < ask.

(** ** Scenarios *)

(** Scenario S1 of the specification, as engine events. *)
Definition S1_events : list Event.t :=
  [Event.mk LIMIT 1 SELL 10002 50 1000 1; Event.mk MARKET 2 BUY 0 30 1001 2].

Definition S1_engine : MatchingEngine := snd (process_events S1_events new_engine).

(** The marketable limit of scenario S4. *)
Definition S4_event : Event.t := Event.mk LIMIT 10 BUY 10005 15 1100 2.

(** The calls of the test [TradeStatistics]. *)
Definition statistics_ops : list Op :=
  [OpAddLimit (Order.mk 1 SELL 10002 100 1000); OpAddMarket BUY 50 2 1001].

(** Two bids at one price (scenario S3 before the market order). *)
Definition two_bids_ops : list Op :=
  [OpAddLimit (Order.mk 1 BUY 10000 50 1); OpAddLimit (Order.mk 2 BUY 10000 60 2)].

(** Two asks at two prices (scenario S2 before the market order). *)
Definition two_asks_ops : list Op :=
  [OpAddLimit (Order.mk 1 SELL 10002 40 1); OpAddLimit (Order.mk 2 SELL 10003 50 2)].

(** One resting bid with id 1. *)
Definition single_bid_ops : list Op := [OpAddLimit (Order.mk 1 BUY 100 10 1)].

(** A second, well-formed order under the id of the resting bid. *)
Definition duplicate_order : Order.t := Order.mk 1 BUY 100 5 2.



(** ** types.hpp, continued: snapshots and price helpers *)

Module PriceLevel.
Record t := mk {
  price : Z;
  bid_quantity : Z;
  ask_quantity : Z
}.
End PriceLevel.

Module MarketSnapshot.
Record t := mk {
  best_bid : Z;
  best_ask : Z;
  best_bid_qty : Z;
  best_ask_qty : Z;
  last_trade_price : Z;
  timestamp : Z
}.
End MarketSnapshot.

(** [(best_bid + best_ask) / 2]: the sum is formed in 64 bits, and C++
    integer division truncates towards zero: [Z.quot]. *)
Definition get_mid_price (best_bid best_ask : Z) : Z :=
  if (0 <? best_bid) && (0 <? best_ask)
  then Z.quot (int64_wrap (best_bid + best_ask)) 2
  else 0.

(** The difference of two positive prices stays in range. *)
Definition get_spread (best_bid best_ask : Z) : Z :=
  if (0 <? best_bid) && (0 <? best_ask) then best_ask - best_bid else 0.

(** ** order_book.hpp / order_book.cpp, continued: queries *)

(** [get_next_order]: [None] when the C++ returns [false]. *)
Definition get_next_order (lv : OrderBookPriceLevel) : option Order.t :=
  match orders_ lv with
  | [] => None
  | o :: _ => Some o
  end.

(** The scan [for (const auto& order : ...get_orders()) if (order.id == order_id)
    return order;] of [get_order]. *)
Fixpoint find_order (order_id : N) (os : list Order.t) : option Order.t :=
  match os with
  | [] => None
  | o :: rest =>
      if N.eqb (Order.id o) order_id then Some o else find_order order_id rest
  end.

Definition get_order (order_id : N) (b : OrderBook) : option Order.t :=
  match order_lookup_ b !! order_id with
  | None => None
  | Some (price, side) =>
      match side with
      | BUY =>
          match map_find price (buy_levels_ b) with
          | Some lv => find_order order_id (orders_ lv)
          | None => None
          end
      | SELL =>
          match map_find price (sell_levels_ b) with
          | Some lv => find_order order_id (orders_ lv)
          | None => None
          end
      end
  end.

(** [OrderBook::empty()]. *)
Definition empty (b : OrderBook) : bool :=
  match buy_levels_ b, sell_levels_ b with
  | [], [] => true
  | _, _ => false
  end.

(** [optional::value_or(0)] is stdpp's [default 0]. *)
Definition top_of_book (timestamp : Z) (b : OrderBook) : MarketSnapshot.t :=
  MarketSnapshot.mk
    (default 0 (best_bid_price b))
    (default 0 (best_ask_price b))
    (default 0 (best_bid_quantity b))
    (default 0 (best_ask_quantity b))
    (last_trade_price_ b)
    timestamp.

(** [for (int i = 0; i < levels && it != m.end(); ++i, ++it)
    depth.emplace_back(...)]: [n] counts the iterations left. *)
Fixpoint depth_walk (entry : Z -> Z -> PriceLevel.t) (n : nat) (m : LevelMap)
  : list PriceLevel.t :=
  match n, m with
  | S n', (price, lv) :: rest =>
      entry price (total_quantity_ lv) :: depth_walk entry n' rest
  | _, _ => []
  end.

(** [int] arithmetic: the two's-complement value of a 32-bit result. *)
Definition int_wrap (z : Z) : Z := (z + 2 ^ 31) mod 2 ^ 32 - 2 ^ 31.

(** [get_depth]: [levels] is an [int] and [levels * 2] is formed in 32 bits.
    [depth.reserve] converts a negative product to a [size_t] above
    [max_size()] and throws [std::length_error]: [None].  Otherwise the
    bid levels come first, then the ask levels, each loop running while
    [i < levels].  The allocation in [reserve] is taken to succeed. *)
Definition get_depth (levels : Z) (b : OrderBook) : option (list PriceLevel.t) :=
  if int_wrap (levels * 2) <? 0 then None
  else
    Some (depth_walk (fun price qty => PriceLevel.mk price qty 0)
            (Z.to_nat levels) (buy_levels_ b)
          ++ depth_walk (fun price qty => PriceLevel.mk price 0 qty)
               (Z.to_nat levels) (sell_levels_ b)).

(** ** matching_engine.hpp, continued *)

Definition get_market_snapshot (timestamp : Z) (e : MatchingEngine)
  : MarketSnapshot.t :=
  top_of_book timestamp (order_book_ e).

(** ** Further predicates *)

(** A level as the operations leave it: positive key, a non-empty queue,
    positive residual quantities. *)
Definition level_live (kl : Z * OrderBookPriceLevel) : Prop :=
  0 < kl.1 /\ orders_ kl.2 <> []
  /\ Forall (fun o => 0 < Order.quantity o) (orders_ kl.2).

Definition book_live (b : OrderBook) : Prop :=
  Forall level_live (buy_levels_ b) /\ Forall level_live (sell_levels_ b).

(** The quantity resting on side [s]. *)
Definition resting_quantity (s : Side) (b : OrderBook) : Z :=
  queue_sum (side_orders (levels_of s b)).

(** A value of the type [int64_t]. *)
Definition in_int64 (z : Z) : Prop := INT64_MIN <= z <= INT64_MAX.

(** Two valid bids of [INT64_MAX] at one price: their sum is not a value of
    [Qty]. *)
Definition overflow_ops : list Op :=
  [OpAddLimit (Order.mk 1 BUY 100 INT64_MAX 1);
   OpAddLimit (Order.mk 2 BUY 100 INT64_MAX 2)].

(** The price of the last trade of [T], or [d] when there is none. *)
Definition last_price (d : Z) (T : list Trade.t) : Z :=
  default d (Trade.price <$> last T).

(** * Proofs *)

(** ** The matching loops *)

Lemma size_t_wrap_succ n : size_t_wrap (size_t_wrap n + 1) = size_t_wrap (n + 1).
Proof. unfold size_t_wrap. apply Zplus_mod_idemp_l. Qed.

Lemma size_t_wrap_pred n : size_t_wrap (size_t_wrap n - 1) = size_t_wrap (n - 1).
Proof. unfold size_t_wrap. apply Zminus_mod_idemp_l. Qed.

(** 64-bit sums: wrapping commutes with further additions and subtractions,
    and leaves the values of the type as they are. *)
Lemma int64_wrap_add_l a b : int64_wrap (int64_wrap a + b) = int64_wrap (a + b).
Proof.
  unfold int64_wrap. f_equal.
  replace ((a + 2 ^ 63) mod 2 ^ 64 - 2 ^ 63 + b + 2 ^ 63)
    with ((a + 2 ^ 63) mod 2 ^ 64 + b) by ring.
  rewrite Zplus_mod_idemp_l. f_equal. ring.
Qed.

Lemma int64_wrap_sub_l a b : int64_wrap (int64_wrap a - b) = int64_wrap (a - b).
Proof. rewrite <- !Z.add_opp_r. apply int64_wrap_add_l. Qed.

Lemma int64_wrap_small z : INT64_MIN <= z <= INT64_MAX -> int64_wrap z = z.
Proof.
  unfold int64_wrap, INT64_MIN, INT64_MAX. intros H.
  rewrite Z.mod_small; lia.
Qed.

Lemma int64_wrap_range z : INT64_MIN <= int64_wrap z <= INT64_MAX.
Proof.
  unfold int64_wrap, INT64_MIN, INT64_MAX.
  pose proof (Z.mod_pos_bound (z + 2 ^ 63) (2 ^ 64) ltac:(lia)). lia.
Qed.

Lemma int64_wrap_idem z : int64_wrap (int64_wrap z) = int64_wrap z.
Proof. apply int64_wrap_small, int64_wrap_range. Qed.

Lemma tag_set_quantity o q : tag (set_quantity o q) = tag o.
Proof. reflexivity. Qed.

Lemma tag_id_tag o : tag_id (tag o) = Order.id o.
Proof. reflexivity. Qed.

Lemma ids_of_tags (l : list Order.t) : tag_id <$> (tag <$> l) = Order.id <$> l.
Proof. rewrite <- list_fmap_compose. reflexivity. Qed.

Lemma level_empty_true lv : level_empty lv = true <-> orders_ lv = [].
Proof. unfold level_empty. destruct (orders_ lv); split; congruence. Qed.

Ltac loop_idle :=
  exists [], []; simpl; rewrite ?app_nil_r;
  split_and!; auto using Forall_nil, prefix_nil;
  try (intros ? ->; f_equal; lia); try (right; lia).

Lemma match_level_spec fuel p taker ts : forall lv st lv' st',
  (length (orders_ lv) <= fuel)%nat ->
  match_level fuel p taker ts lv st = (lv', st') ->
  exists (C : list Order.t) (T : list Trade.t),
    tag <$> orders_ lv = (tag <$> C) ++ (tag <$> orders_ lv')
    /\ trades st' = trades st ++ T
    /\ Forall (fun t => Trade.price t = p) T
    /\ Trade.maker_id <$> T `prefix_of` Order.id <$> orders_ lv
    /\ (forall i, ms_order_lookup st' !! i =
                  if decide (i ∈ Order.id <$> C) then None
                  else ms_order_lookup st !! i)
    /\ (forall n, ms_order_count st = size_t_wrap n ->
                  ms_order_count st' = size_t_wrap (n - Z.of_nat (length C)))
    /\ (total_quantity_ lv = int64_wrap (queue_sum (orders_ lv)) ->
        total_quantity_ lv' = int64_wrap (queue_sum (orders_ lv')))
    /\ (level_empty lv' = true \/ remaining_qty st' <= 0).
Proof.
  induction fuel as [|fuel IH]; intros [os tq] st lv' st' Hlen Hrun; simpl in *.
  - destruct os; [|simpl in Hlen; lia]. inversion Hrun; subst; clear Hrun.
    loop_idle.
  - unfold level_empty, consume_order in Hrun; simpl in Hrun.
    destruct os as [|o os].
    { inversion Hrun; subst; clear Hrun. loop_idle. }
    simpl in Hrun, Hlen.
    destruct (Z.ltb_spec 0 (remaining_qty st)) as [Hpos|Hnpos].
    2:{ inversion Hrun; subst; clear Hrun. loop_idle. }
    destruct (Z.leb_spec (Order.quantity o) (remaining_qty st)) as [Hle|Hgt].
    + apply IH in Hrun; [|simpl; lia].
      destruct Hrun as (C & T & Htag & Htr & Hpr & Hpre & Hlk & Hcnt & Hsum & Hexit).
      simpl in *.
      exists (o :: C), (Trade.mk (Order.id o) taker p (Order.quantity o) ts :: T).
      split_and!.
      * rewrite fmap_cons. simpl. f_equal. exact Htag.
      * rewrite Htr, <- app_assoc. reflexivity.
      * constructor; auto.
      * rewrite !fmap_cons. simpl. apply prefix_cons. exact Hpre.
      * intros i. rewrite Hlk, fmap_cons.
        destruct (decide (i ∈ Order.id <$> C)) as [Hin|Hnin].
        -- rewrite decide_True; [done|]. apply elem_of_cons; auto.
        -- destruct (decide (i = Order.id o)) as [->|Hne].
           ++ rewrite decide_True; [|apply elem_of_cons; auto].
              apply lookup_delete_eq.
           ++ rewrite decide_False.
              ** apply lookup_delete_ne. congruence.
              ** rewrite elem_of_cons. tauto.
      * intros n Hn. rewrite (Hcnt (n - 1)).
        -- f_equal. simpl length. lia.
        -- rewrite Hn. apply size_t_wrap_pred.
      * intros Hs. apply Hsum. rewrite Hs, int64_wrap_sub_l. f_equal. lia.
      * exact Hexit.
    + assert (Hpart : (lv', st') =
        ({| orders_ := set_quantity o (Order.quantity o - remaining_qty st) :: os;
            total_quantity_ := int64_wrap (tq - remaining_qty st) |},
         on_partial_fill p taker ts (set_quantity o (remaining_qty st)) st)).
      { destruct fuel; simpl in Hrun; congruence. }
      inversion Hpart; subst; clear Hpart Hrun. simpl.
      exists [], [Trade.mk (Order.id o) taker p (remaining_qty st) ts].
      split_and!; simpl; auto.
      * apply prefix_cons, prefix_nil.
      * intros n ->. f_equal. lia.
      * intros Hs. rewrite Hs, int64_wrap_sub_l. f_equal. lia.
      * right. lia.
Qed.

Lemma match_level_fuel fuel p taker ts : forall lv st,
  (length (orders_ lv) <= fuel)%nat ->
  match_level fuel p taker ts lv st
  = match_level (length (orders_ lv)) p taker ts lv st.
Proof.
  induction fuel as [|fuel IH]; intros [os tq] st Hlen; simpl in *.
  - destruct os; [reflexivity | simpl in Hlen; lia].
  - destruct os as [|o os]; [reflexivity|].
    simpl in *. unfold level_empty, consume_order. simpl.
    destruct (0 <? remaining_qty st); simpl; [|reflexivity].
    destruct (Order.quantity o <=? remaining_qty st).
    + rewrite IH by (simpl; lia). reflexivity.
    + destruct fuel, os; simpl; reflexivity.
Qed.

Lemma match_levels_done taker ts m st :
  remaining_qty st <= 0 -> match_levels taker ts m st = (m, st).
Proof.
  intros Hr. destruct m as [|[k lv] rest]; simpl; [reflexivity|].
  destruct (Z.ltb_spec 0 (remaining_qty st)); [lia | reflexivity].
Qed.

Lemma match_levels_nil taker ts st : match_levels taker ts [] st = ([], st).
Proof. reflexivity. Qed.

Lemma Forall_tags (Q : N * Side * Z * Z -> Prop) (l l' C : list Order.t) :
  tag <$> l = (tag <$> C) ++ (tag <$> l') ->
  Forall (fun o => Q (tag o)) l -> Forall (fun o => Q (tag o)) l'.
Proof.
  intros Heq Hl. apply Forall_fmap in Hl. rewrite Heq in Hl.
  apply Forall_app in Hl as [_ Hl]. apply Forall_fmap. exact Hl.
Qed.

Lemma level_ok_suffix s k lv lv' (C : list Order.t) :
  tag <$> orders_ lv = (tag <$> C) ++ (tag <$> orders_ lv') ->
  (total_quantity_ lv = int64_wrap (queue_sum (orders_ lv)) ->
   total_quantity_ lv' = int64_wrap (queue_sum (orders_ lv'))) ->
  level_ok s (k, lv) -> level_ok s (k, lv').
Proof.
  intros Htag Hsum [Hk Hq]. split; simpl in *; [|auto].
  apply (Forall_tags (fun t => tag_price t = k /\ tag_side t = s) _ _ _ Htag Hk).
Qed.

Lemma shrinks_refl m : shrinks m m.
Proof. intros k lv Hin. exists lv. split; [exact Hin | reflexivity]. Qed.

Lemma shrinks_skip x m m' : shrinks m m' -> shrinks (x :: m) m'.
Proof.
  intros H k lv' Hin. destruct (H k lv' Hin) as (lv & Hlv & Hsub).
  exists lv. split; [apply elem_of_cons; auto | exact Hsub].
Qed.

Lemma shrinks_cons k lv lv' m m' :
  tag <$> orders_ lv' `sublist_of` tag <$> orders_ lv ->
  shrinks m m' -> shrinks ((k, lv) :: m) ((k, lv') :: m').
Proof.
  intros Hsub H k0 lv0 Hin. apply elem_of_cons in Hin as [Heq|Hin].
  - inversion Heq; subst. exists lv. split; [apply elem_of_cons; auto | exact Hsub].
  - destruct (H k0 lv0 Hin) as (lv1 & Hlv & Hs).
    exists lv1. split; [apply elem_of_cons; auto | exact Hs].
Qed.

Lemma shrinks_trans m1 m2 m3 : shrinks m1 m2 -> shrinks m2 m3 -> shrinks m1 m3.
Proof.
  intros H12 H23 k lv3 Hin. destruct (H23 k lv3 Hin) as (lv2 & Hin2 & Hs2).
  destruct (H12 k lv2 Hin2) as (lv1 & Hin1 & Hs1).
  exists lv1. split; [exact Hin1 | etrans; eauto].
Qed.

Lemma match_levels_spec taker ts : forall m st m' st',
  match_levels taker ts m st = (m', st') ->
  exists (C : list Order.t) (T : list Trade.t),
    tag <$> side_orders m = (tag <$> C) ++ (tag <$> side_orders m')
    /\ trades st' = trades st ++ T
    /\ trades_follow m T
    /\ (forall i, ms_order_lookup st' !! i =
                  if decide (i ∈ Order.id <$> C) then None
                  else ms_order_lookup st !! i)
    /\ (forall n, ms_order_count st = size_t_wrap n ->
                  ms_order_count st' = size_t_wrap (n - Z.of_nat (length C)))
    /\ keys m' `sublist_of` keys m
    /\ (forall s, Forall (level_ok s) m -> Forall (level_ok s) m')
    /\ shrinks m m'.
Proof.
  induction m as [|[k lv] rest IH]; intros st m' st' Hrun; simpl in Hrun.
  - inversion Hrun; subst; clear Hrun. exists [], []. simpl.
    split_and!; auto using app_nil_r, follow_done, shrinks_refl.
    intros n ->. f_equal. lia.
  - destruct (Z.ltb_spec 0 (remaining_qty st)) as [Hpos|Hnpos].
    2:{ inversion Hrun; subst; clear Hrun. exists [], []. simpl.
        split_and!; auto using app_nil_r, follow_done, shrinks_refl.
        intros n ->. f_equal. lia. }
    destruct (match_level _ k taker ts lv st) as [lv1 st1] eqn:Hin.
    apply match_level_spec in Hin; [|lia].
    destruct Hin as (C1 & T1 & Htag1 & Htr1 & Hpr1 & Hpre1 & Hlk1 & Hcnt1 & Hsum1 & Hexit1).
    destruct (match_levels taker ts rest st1) as [rest' st2] eqn:Hout.
    destruct (level_empty lv1) eqn:Hemp.
    + inversion Hrun; subst; clear Hrun.
      apply IH in Hout.
      destruct Hout as (C2 & T2 & Htag2 & Htr2 & Hfol2 & Hlk2 & Hcnt2 & Hkeys2 & Hok2 & Hshr2).
      apply level_empty_true in Hemp. rewrite Hemp in Htag1. simpl in Htag1.
      rewrite app_nil_r in Htag1.
      exists (C1 ++ C2), (T1 ++ T2). split_and!.
      * simpl. rewrite !fmap_app, Htag1, Htag2, <- app_assoc. reflexivity.
      * rewrite Htr2, Htr1, <- app_assoc. reflexivity.
      * constructor; auto.
      * intros i. rewrite Hlk2, Hlk1, fmap_app.
        destruct (decide (i ∈ Order.id <$> C2)), (decide (i ∈ Order.id <$> C1));
          [rewrite decide_True by (apply elem_of_app; auto); reflexivity ..
          |rewrite decide_False by (rewrite elem_of_app; tauto); reflexivity].
      * intros n Hn. rewrite (Hcnt2 (n - Z.of_nat (length C1))); auto.
        f_equal. rewrite length_app. lia.
      * simpl. apply sublist_cons. exact Hkeys2.
      * intros s Hall. inversion Hall; subst. auto.
      * apply shrinks_skip. exact Hshr2.
    + assert (Hr : remaining_qty st1 <= 0) by (destruct Hexit1; congruence).
      rewrite match_levels_done in Hout by exact Hr.
      inversion Hout; subst; clear Hout. inversion Hrun; subst; clear Hrun.
      exists C1, T1. split_and!.
      * simpl. rewrite !fmap_app, Htag1, <- app_assoc. reflexivity.
      * exact Htr1.
      * rewrite <- (app_nil_r T1). constructor; auto using follow_done.
      * exact Hlk1.
      * exact Hcnt1.
      * reflexivity.
      * intros s Hall. inversion Hall; subst.
        constructor; [|assumption].
        eapply level_ok_suffix; eauto.
      * apply shrinks_cons; [|apply shrinks_refl].
        rewrite Htag1. apply sublist_inserts_l. reflexivity.
Qed.

(** *** Ordered maps *)

Lemma StronglySorted_sublist (R : relation Z) (l l' : list Z) :
  l' `sublist_of` l -> StronglySorted R l -> StronglySorted R l'.
Proof.
  induction 1 as [|x l1 l2 Hsub IH|x l1 l2 Hsub IH]; intros Hs.
  - constructor.
  - apply StronglySorted_inv in Hs as [Hs Hall]. constructor; [auto|].
    apply Forall_forall. intros y Hy. rewrite Forall_forall in Hall.
    apply Hall. eapply elem_of_sublist; eauto.
  - apply StronglySorted_inv in Hs as [Hs _]. auto.
Qed.

Lemma map_find_elem p m lv : map_find p m = Some lv -> (p, lv) ∈ m.
Proof.
  induction m as [|[k l] rest IH]; simpl; [discriminate|].
  destruct (Z.eqb_spec p k) as [->|Hne].
  - intros [= ->]. apply elem_of_cons; auto.
  - intros H. apply elem_of_cons; auto.
Qed.

Lemma elem_keys p lv (m : LevelMap) : (p, lv) ∈ m -> p ∈ keys m.
Proof. intros H. unfold keys. apply list_elem_of_fmap. exists (p, lv). auto. Qed.

Lemma elem_map_find p m lv :
  NoDup (keys m) -> (p, lv) ∈ m -> map_find p m = Some lv.
Proof.
  induction m as [|[k l] rest IH]; simpl; intros Hnd Hin.
  - inversion Hin.
  - apply NoDup_cons in Hnd as [Hk Hnd].
    apply elem_of_cons in Hin as [Heq|Hin].
    + inversion Heq; subst. rewrite Z.eqb_refl. reflexivity.
    + destruct (Z.eqb_spec p k) as [->|Hne]; [|auto].
      exfalso. apply Hk. eapply elem_keys; eauto.
Qed.

Lemma side_orders_elem o m :
  o ∈ side_orders m <-> exists k lv, (k, lv) ∈ m /\ o ∈ orders_ lv.
Proof.
  induction m as [|[k l] rest IH]; simpl.
  - split; [intros H; inversion H | intros (? & ? & H & _); inversion H].
  - rewrite elem_of_app, IH. split.
    + intros [H|(k' & lv' & Hin & Ho)].
      * exists k, l. split; [apply elem_of_cons; auto | exact H].
      * exists k', lv'. split; [apply elem_of_cons; auto | exact Ho].
    + intros (k' & lv' & Hin & Ho). apply elem_of_cons in Hin as [Heq|Hin].
      * inversion Heq; subst. auto.
      * right. eauto.
Qed.

Section OrderedMap.
Variable before : Z -> Z -> bool.
Variable R : relation Z.
Hypothesis before_R : forall a b, before a b = true <-> R a b.
Hypothesis R_trans : Transitive R.
Hypothesis R_total : forall a b, a <> b -> ~ R a b -> R b a.
Hypothesis R_irrefl : forall a, ~ R a a.

Lemma sorted_NoDup (l : list Z) : StronglySorted R l -> NoDup l.
Proof.
  induction 1 as [|x l Hs IH Hall]; constructor; [|exact IH].
  intros Hin. rewrite Forall_forall in Hall. exact (R_irrefl x (Hall x Hin)).
Qed.

Lemma map_update_keys p f m k :
  k ∈ keys (map_update before p f m) <-> k = p \/ k ∈ keys m.
Proof.
  induction m as [|[k0 l] rest IH]; simpl.
  - unfold keys. simpl. rewrite list_elem_of_singleton, elem_of_nil. tauto.
  - destruct (Z.eqb_spec p k0) as [->|Hne].
    + unfold keys. simpl. rewrite !elem_of_cons. tauto.
    + destruct (before p k0).
      * unfold keys. simpl. rewrite !elem_of_cons. tauto.
      * unfold keys in *. simpl. rewrite !elem_of_cons, IH. tauto.
Qed.

Lemma map_update_sorted p f m :
  StronglySorted R (keys m) -> StronglySorted R (keys (map_update before p f m)).
Proof.
  induction m as [|[k0 l] rest IH]; simpl; intros Hs.
  - repeat constructor.
  - destruct (Z.eqb_spec p k0) as [->|Hne]; [exact Hs|].
    destruct (before p k0) eqn:Hb.
    + apply before_R in Hb. unfold keys in *. simpl in *.
      apply StronglySorted_inv in Hs as [Hs' Hall].
      constructor; [constructor; auto|].
      constructor; [exact Hb|].
      eapply Forall_impl; [exact Hall|]. intros y Hy. etrans; eauto.
    + unfold keys in *. simpl in *.
      apply StronglySorted_inv in Hs as [Hs' Hall].
      constructor; [auto|].
      apply Forall_forall. intros y Hy.
      apply (map_update_keys p f rest y) in Hy as [->|Hy].
      * apply R_total; [congruence|]. intros HR. apply before_R in HR. congruence.
      * rewrite Forall_forall in Hall. auto.
Qed.

Lemma map_update_front p f m :
  Forall (R p) (keys m) -> map_update before p f m = (p, f new_level) :: m.
Proof.
  destruct m as [|[k0 l] rest]; simpl; [reflexivity|].
  intros Hall. apply Forall_cons in Hall as [Hp _].
  destruct (Z.eqb_spec p k0) as [->|Hne]; [exfalso; eapply R_irrefl; eauto|].
  apply before_R in Hp. rewrite Hp. reflexivity.
Qed.

Lemma map_update_orders p o m :
  side_orders (map_update before p (add_order o) m) ≡ₚ o :: side_orders m.
Proof.
  induction m as [|[k0 l] rest IH]; simpl; [reflexivity|].
  destruct (Z.eqb_spec p k0) as [->|Hne]; simpl.
  - rewrite <- app_assoc. simpl. rewrite <- Permutation_middle. reflexivity.
  - destruct (before p k0); simpl; [reflexivity|].
    rewrite IH. rewrite <- Permutation_middle. reflexivity.
Qed.

Lemma map_update_elem p f m k lv' :
  (k, lv') ∈ map_update before p f m ->
  (k, lv') ∈ m \/
  (k = p /\ exists lv, lv' = f lv /\ ((p, lv) ∈ m \/ lv = new_level)).
Proof.
  induction m as [|[k0 l] rest IH]; simpl; intros Hin.
  - apply list_elem_of_singleton in Hin. inversion Hin; subst. right. eauto.
  - destruct (Z.eqb_spec p k0) as [->|Hne].
    + apply elem_of_cons in Hin as [Heq|Hin].
      * inversion Heq; subst. right. split; [reflexivity|].
        exists l. split; [reflexivity|]. left. apply elem_of_cons; auto.
      * left. apply elem_of_cons; auto.
    + destruct (before p k0).
      * apply elem_of_cons in Hin as [Heq|Hin]; [|auto].
        inversion Heq; subst. right. eauto.
      * apply elem_of_cons in Hin as [Heq|Hin].
        -- left. rewrite Heq. apply elem_of_cons; auto.
        -- destruct (IH Hin) as [H|(-> & lv & -> & [H| ->])].
           ++ left. apply elem_of_cons; auto.
           ++ right. split; [reflexivity|]. exists lv. split; [reflexivity|].
              left. apply elem_of_cons; auto.
           ++ right. eauto.
Qed.

Lemma map_update_level_ok s o m :
  Forall (level_ok s) m -> Order.side o = s ->
  Forall (level_ok s) (map_update before (Order.price o) (add_order o) m).
Proof.
  intros Hall Hs. apply Forall_forall. intros [k lv'] Hin.
  rewrite Forall_forall in Hall.
  apply map_update_elem in Hin as [Hin|(-> & lv & -> & Hlv)]; [auto|].
  assert (Hok : level_ok s (Order.price o, lv)).
  { destruct Hlv as [Hlv| ->]; [auto|]. split; simpl; [constructor | reflexivity]. }
  destruct Hok as [Hk Hq]. simpl in *. split; simpl.
  - apply Forall_app. split; [exact Hk|]. repeat constructor. exact Hs.
  - rewrite Hq, int64_wrap_add_l. f_equal.
    clear. induction (orders_ lv) as [|x xs IH]; simpl; lia.
Qed.
End OrderedMap.

Lemma gtb_gt a b : (a >? b) = true <-> a > b.
Proof. rewrite Z.gtb_ltb, Z.ltb_lt. lia. Qed.

Lemma gt_trans : Transitive Z.gt.
Proof. intros a b c. lia. Qed.

Lemma gt_total a b : a <> b -> ~ a > b -> b > a.
Proof. lia. Qed.

Lemma gt_irrefl a : ~ a > a.
Proof. lia. Qed.

Lemma lt_trans : Transitive Z.lt.
Proof. intros a b c. lia. Qed.

Lemma lt_total a b : a <> b -> ~ a < b -> b < a.
Proof. lia. Qed.

Lemma lt_irrefl a : ~ a < a.
Proof. lia. Qed.

(** *** Removal of one order *)

Lemma queue_sum_app l1 l2 : queue_sum (l1 ++ l2) = queue_sum l1 + queue_sum l2.
Proof. induction l1 as [|x xs IH]; simpl; lia. Qed.

Lemma side_orders_app m1 m2 :
  side_orders (m1 ++ m2) = side_orders m1 ++ side_orders m2.
Proof.
  induction m1 as [|[k lv] rest IH]; simpl; [reflexivity|].
  rewrite IH, app_assoc. reflexivity.
Qed.

Lemma erase_first_spec i : forall os r os',
  erase_first i os = Some (r, os') ->
  exists l1 l2, os = l1 ++ r :: l2 /\ os' = l1 ++ l2 /\ Order.id r = i.
Proof.
  induction os as [|o os IH]; simpl; intros r os' H; [discriminate|].
  destruct (N.eqb_spec (Order.id o) i) as [Heq|Hne].
  - inversion H; subst. exists [], os'. auto.
  - destruct (erase_first i os) as [[r0 rest']|] eqn:He; [|discriminate].
    inversion H; subst. destruct (IH _ _ eq_refl) as (l1 & l2 & -> & -> & Hid).
    exists (o :: l1), l2. auto.
Qed.

Lemma erase_first_found i o : forall os,
  o ∈ os -> Order.id o = i -> is_Some (erase_first i os).
Proof.
  induction os as [|x os IH]; simpl; intros Hin Hid; [inversion Hin|].
  destruct (N.eqb_spec (Order.id x) i) as [Heq|Hne]; [eauto|].
  apply elem_of_cons in Hin as [->|Hin]; [congruence|].
  destruct (IH Hin Hid) as [[r rest'] ->]. eauto.
Qed.

Lemma map_find_split p lv : forall m,
  map_find p m = Some lv ->
  exists m1 m2, m = m1 ++ (p, lv) :: m2
    /\ (forall lv', map_store p lv' m = m1 ++ (p, lv') :: m2)
    /\ map_erase p m = m1 ++ m2.
Proof.
  induction m as [|[k l] rest IH]; simpl; intros H; [discriminate|].
  destruct (Z.eqb_spec p k) as [->|Hne].
  - inversion H; subst. exists [], rest. auto.
  - destruct (IH H) as (m1 & m2 & -> & Hst & Her).
    exists ((k, l) :: m1), m2. simpl. split_and!; [reflexivity| |congruence].
    intros lv'. rewrite Hst. reflexivity.
Qed.

Lemma remove_from_levels_spec i p m m' :
  remove_from_levels i p m = Some m' ->
  exists r l1 l2,
    Order.id r = i
    /\ side_orders m = l1 ++ r :: l2
    /\ side_orders m' = l1 ++ l2
    /\ keys m' `sublist_of` keys m
    /\ shrinks m m'
    /\ (forall s, Forall (level_ok s) m -> Forall (level_ok s) m').
Proof.
  unfold remove_from_levels, remove_order.
  destruct (map_find p m) as [lv|] eqn:Hfind; [|discriminate].
  destruct (erase_first i (orders_ lv)) as [[r os']|] eqn:Her; [|discriminate].
  intros [= <-].
  apply erase_first_spec in Her as (l1 & l2 & Hos & -> & Hid).
  apply map_find_split in Hfind as (m1 & m2 & -> & Hst & Hers).
  set (lv' := {| orders_ := l1 ++ l2;
                 total_quantity_ :=
                   int64_wrap (total_quantity_ lv - Order.quantity r) |}).
  assert (Hsub : tag <$> (l1 ++ l2) `sublist_of` tag <$> orders_ lv).
  { rewrite Hos, !fmap_app, fmap_cons. apply sublist_app; [reflexivity|].
    apply sublist_cons. reflexivity. }
  assert (Hshr : shrinks (m1 ++ (p, lv) :: m2) (m1 ++ (p, lv') :: m2)).
  { intros k l0 Hin. apply elem_of_app in Hin as [Hin|Hin].
    - exists l0. split; [apply elem_of_app; auto | reflexivity].
    - apply elem_of_cons in Hin as [Heq|Hin].
      + inversion Heq; subst. exists lv.
        split; [apply elem_of_app; right; apply elem_of_cons; auto | exact Hsub].
      + exists l0. split; [|reflexivity].
        apply elem_of_app; right; apply elem_of_cons; auto. }
  assert (Hok : forall s, Forall (level_ok s) (m1 ++ (p, lv) :: m2) ->
                          Forall (level_ok s) (m1 ++ (p, lv') :: m2)).
  { intros s Hall. apply Forall_app in Hall as [H1 H2].
    apply Forall_cons in H2 as [[Hk Hq] H2]. simpl in *.
    apply Forall_app. split; [exact H1|]. constructor; [|exact H2].
    split; simpl.
    - rewrite Hos in Hk. apply Forall_app in Hk as [Hk1 Hk2].
      apply Forall_cons in Hk2 as [_ Hk2]. apply Forall_app. auto.
    - rewrite Hq, int64_wrap_sub_l, Hos, !queue_sum_app. simpl. f_equal. lia. }
  exists r, (side_orders m1 ++ l1), (l2 ++ side_orders m2).
  destruct (level_empty lv') eqn:Hemp.
  - apply level_empty_true in Hemp. simpl in Hemp.
    apply app_eq_nil in Hemp as [-> ->]. rewrite Hers.
    split_and!.
    + exact Hid.
    + rewrite side_orders_app. simpl. rewrite Hos, <- !app_assoc. reflexivity.
    + rewrite side_orders_app, app_nil_r. reflexivity.
    + unfold keys. rewrite !fmap_app, fmap_cons.
      apply sublist_app; [reflexivity|]. apply sublist_cons. reflexivity.
    + intros k l0 Hin. exists l0. split; [|reflexivity].
      apply elem_of_app in Hin as [Hin|Hin]; apply elem_of_app; auto.
      right. apply elem_of_cons; auto.
    + intros s Hall. apply Hok in Hall. apply Forall_app in Hall as [H1 H2].
      apply Forall_cons in H2 as [_ H2]. apply Forall_app. auto.
  - rewrite Hst. split_and!.
    + exact Hid.
    + rewrite side_orders_app. simpl. rewrite Hos, <- !app_assoc. reflexivity.
    + rewrite side_orders_app. simpl. rewrite <- !app_assoc. reflexivity.
    + unfold keys. rewrite !fmap_app, !fmap_cons. reflexivity.
    + exact Hshr.
    + exact Hok.
Qed.

Lemma remove_from_levels_found i p m lv o :
  map_find p m = Some lv -> o ∈ orders_ lv -> Order.id o = i ->
  is_Some (remove_from_levels i p m).
Proof.
  intros Hfind Hin Hid. unfold remove_from_levels, remove_order. rewrite Hfind.
  destruct (erase_first_found i o _ Hin Hid) as [[r os'] ->]. eauto.
Qed.

(** *** The invariant of the book *)

Lemma size_t_of_nat_S n : size_t_wrap (size_t_of_nat n + 1) = size_t_of_nat (S n).
Proof.
  unfold size_t_of_nat. rewrite size_t_wrap_succ. f_equal. lia.
Qed.

Lemma size_t_of_nat_pred n :
  size_t_wrap (size_t_of_nat (S n) - 1) = size_t_of_nat n.
Proof.
  unfold size_t_of_nat. rewrite size_t_wrap_pred. f_equal. lia.
Qed.

Lemma size_t_of_nat_dec (n m : nat) :
  n = S m -> size_t_wrap (size_t_of_nat n - 1) = size_t_of_nat m.
Proof. intros ->. apply size_t_of_nat_pred. Qed.

Lemma survivors (L L' C : list Order.t) o :
  tag <$> L = (tag <$> C) ++ (tag <$> L') ->
  o ∈ L -> Order.id o ∉ Order.id <$> C ->
  exists o', o' ∈ L' /\ tag o' = tag o.
Proof.
  intros Heq Hin Hnot.
  assert (Ht : tag o ∈ tag <$> L) by (apply list_elem_of_fmap_2; exact Hin).
  rewrite Heq in Ht. apply elem_of_app in Ht as [Ht|Ht].
  - exfalso. apply Hnot. apply list_elem_of_fmap in Ht as (c & Hc & Hin').
    apply list_elem_of_fmap. exists c. split; [|exact Hin'].
    change (tag_id (tag o) = tag_id (tag c)). congruence.
  - apply list_elem_of_fmap in Ht as (o' & Ho' & Hin'). eauto.
Qed.

Lemma tags_length (L L' C : list Order.t) :
  tag <$> L = (tag <$> C) ++ (tag <$> L') ->
  length L = (length C + length L')%nat.
Proof.
  intros Heq. apply (f_equal length) in Heq.
  rewrite length_app, !length_fmap in Heq. exact Heq.
Qed.

Lemma book_inv_empty : book_inv empty_book.
Proof.
  constructor; simpl; try constructor.
  intros i p s H. rewrite lookup_empty in H. discriminate.
Qed.

Lemma book_inv_clear b : book_inv (clear b).
Proof. exact book_inv_empty. Qed.

Lemma book_inv_add o b : book_inv b -> book_inv (snd (add_limit_order o b)).
Proof.
  intros [Hbs Hss Hbok Hsok Hlk Hcnt]. unfold add_limit_order.
  destruct (negb _ || negb _); [constructor; assumption|].
  unfold add_limit_order_to_side, resting_orders in *.
  destruct (Order.side o) eqn:Hside; constructor; simpl; auto.
  - apply (map_update_sorted Z.gtb Z.gt gtb_gt gt_trans gt_total). exact Hbs.
  - apply map_update_level_ok; [exact Hbok | exact Hside].
  - intros i p s Hi. destruct (decide (i = Order.id o)) as [->|Hne].
    + rewrite lookup_insert_eq in Hi. inversion Hi; subst. exists o. simpl.
      split; [|auto]. rewrite (map_update_orders Z.gtb). apply elem_of_cons; auto.
    + rewrite lookup_insert_ne in Hi by congruence.
      destruct (Hlk i p s Hi) as (o' & Hin & Hid & Hp). exists o'.
      split; [|auto]. destruct s; simpl in *; [|exact Hin].
      rewrite (map_update_orders Z.gtb). apply elem_of_cons; auto.
  - rewrite Hcnt, size_t_of_nat_S. unfold resting_orders. simpl. f_equal.
    rewrite !length_app, (Permutation_length (map_update_orders Z.gtb _ _ _)).
    reflexivity.
  - apply (map_update_sorted Z.ltb Z.lt Z.ltb_lt lt_trans lt_total). exact Hss.
  - apply map_update_level_ok; [exact Hsok | exact Hside].
  - intros i p s Hi. destruct (decide (i = Order.id o)) as [->|Hne].
    + rewrite lookup_insert_eq in Hi. inversion Hi; subst. exists o. simpl.
      split; [|auto]. rewrite (map_update_orders Z.ltb). apply elem_of_cons; auto.
    + rewrite lookup_insert_ne in Hi by congruence.
      destruct (Hlk i p s Hi) as (o' & Hin & Hid & Hp). exists o'.
      split; [|auto]. destruct s; simpl in *; [exact Hin|].
      rewrite (map_update_orders Z.ltb). apply elem_of_cons; auto.
  - rewrite Hcnt, size_t_of_nat_S. unfold resting_orders. simpl. f_equal.
    rewrite !length_app, (Permutation_length (map_update_orders Z.ltb _ _ _)).
    simpl. lia.
Qed.

Lemma book_inv_market side q taker ts b :
  book_inv b -> book_inv (snd (add_market_order side q taker ts b)).
Proof.
  intros [Hbs Hss Hbok Hsok Hlk Hcnt].
  unfold add_market_order, match_market_order_buy, match_market_order_sell.
  destruct side.
  - destruct (match_levels taker ts (sell_levels_ b) (enter_match q b))
      as [sells st] eqn:Hrun.
    apply match_levels_spec in Hrun
      as (C & T & Htag & _ & _ & Hlk' & Hcnt' & Hkeys & Hok & _).
    simpl in *. constructor; simpl; auto.
    + eapply StronglySorted_sublist; eauto.
    + intros i p s Hi. rewrite Hlk' in Hi.
      destruct (decide (i ∈ Order.id <$> C)) as [|Hnot]; [discriminate|].
      destruct (Hlk i p s Hi) as (o & Hin & Hid & Hp).
      destruct s; simpl in *; [eauto|].
      subst i. destruct (survivors _ _ _ _ Htag Hin Hnot) as (o' & Hin' & Ht).
      exists o'. split; [exact Hin'|].
      change (tag_id (tag o') = tag_id (tag o) /\ tag_price (tag o') = p).
      rewrite Ht. auto.
    + unfold resting_orders in *. simpl.
      rewrite (Hcnt' _ Hcnt). unfold size_t_of_nat. f_equal.
      rewrite !length_app, (tags_length _ _ _ Htag). lia.
  - destruct (match_levels taker ts (buy_levels_ b) (enter_match q b))
      as [buys st] eqn:Hrun.
    apply match_levels_spec in Hrun
      as (C & T & Htag & _ & _ & Hlk' & Hcnt' & Hkeys & Hok & _).
    simpl in *. constructor; simpl; auto.
    + eapply StronglySorted_sublist; eauto.
    + intros i p s Hi. rewrite Hlk' in Hi.
      destruct (decide (i ∈ Order.id <$> C)) as [|Hnot]; [discriminate|].
      destruct (Hlk i p s Hi) as (o & Hin & Hid & Hp).
      destruct s; simpl in *; [|eauto].
      subst i. destruct (survivors _ _ _ _ Htag Hin Hnot) as (o' & Hin' & Ht).
      exists o'. split; [exact Hin'|].
      change (tag_id (tag o') = tag_id (tag o) /\ tag_price (tag o') = p).
      rewrite Ht. auto.
    + unfold resting_orders in *. simpl.
      rewrite (Hcnt' _ Hcnt). unfold size_t_of_nat. f_equal.
      rewrite !length_app, (tags_length _ _ _ Htag). lia.
Qed.

Lemma book_inv_cancel i b : book_inv b -> book_inv (snd (cancel_order i b)).
Proof.
  intros Hinv. unfold cancel_order.
  destruct (order_lookup_ b !! i) as [[p s]|] eqn:Hi; [|exact Hinv].
  simpl. unfold remove_order_from_side.
  destruct Hinv as [Hbs Hss Hbok Hsok Hlk Hcnt].
  destruct s.
  - destruct (remove_from_levels i p (buy_levels_ b)) as [buys|] eqn:Hrm;
      [|constructor; assumption].
    apply remove_from_levels_spec in Hrm
      as (r & l1 & l2 & Hid & Hold & Hnew & Hkeys & _ & Hok).
    unfold resting_orders in *. constructor; simpl; auto.
    + eapply StronglySorted_sublist; eauto.
    + intros j p' s' Hj. destruct (decide (j = i)) as [->|Hne].
      { rewrite lookup_delete_eq in Hj. discriminate. }
      rewrite lookup_delete_ne in Hj by congruence.
      destruct (Hlk j p' s' Hj) as (o & Hin & Hoid & Hp).
      exists o. split; [|auto]. destruct s'; simpl in *; [|exact Hin].
      rewrite Hold in Hin. rewrite Hnew.
      rewrite elem_of_app, elem_of_cons in Hin. rewrite elem_of_app.
      destruct Hin as [?|[->|?]]; auto. congruence.
    + unfold resting_orders. simpl. rewrite Hcnt, Hold, Hnew, !length_app. simpl.
      apply size_t_of_nat_dec. lia.
  - destruct (remove_from_levels i p (sell_levels_ b)) as [sells|] eqn:Hrm;
      [|constructor; assumption].
    apply remove_from_levels_spec in Hrm
      as (r & l1 & l2 & Hid & Hold & Hnew & Hkeys & _ & Hok).
    unfold resting_orders in *. constructor; simpl; auto.
    + eapply StronglySorted_sublist; eauto.
    + intros j p' s' Hj. destruct (decide (j = i)) as [->|Hne].
      { rewrite lookup_delete_eq in Hj. discriminate. }
      rewrite lookup_delete_ne in Hj by congruence.
      destruct (Hlk j p' s' Hj) as (o & Hin & Hoid & Hp).
      exists o. split; [|auto]. destruct s'; simpl in *; [exact Hin|].
      rewrite Hold in Hin. rewrite Hnew.
      rewrite elem_of_app, elem_of_cons in Hin. rewrite elem_of_app.
      destruct Hin as [?|[->|?]]; auto. congruence.
    + unfold resting_orders. simpl. rewrite Hcnt, Hold, Hnew, !length_app. simpl.
      apply size_t_of_nat_dec. lia.
Qed.

Lemma book_inv_apply_op b op : book_inv b -> book_inv (apply_op b op).
Proof.
  destruct op; simpl;
    auto using book_inv_add, book_inv_market, book_inv_cancel, book_inv_clear.
Qed.

Lemma book_inv_run_from ops : forall b, book_inv b -> book_inv (run_from b ops).
Proof.
  induction ops as [|op ops IH]; simpl; auto using book_inv_apply_op.
Qed.

Lemma book_inv_run ops : book_inv (run ops).
Proof. apply book_inv_run_from, book_inv_empty. Qed.

(** *** Cancellation *)

Lemma lookup_finds_level b i p s :
  book_inv b -> order_lookup_ b !! i = Some (p, s) ->
  exists lv o, map_find p (levels_of s b) = Some lv /\ o ∈ orders_ lv /\ Order.id o = i.
Proof.
  intros Hinv Hi. destruct (inv_lookup b Hinv i p s Hi) as (o & Hin & Hid & Hp).
  apply side_orders_elem in Hin as (k & lv & Hlv & Ho).
  assert (Hk : k = p).
  { assert (Hok : level_ok s (k, lv)).
    { destruct s; simpl in Hlv;
        [pose proof (inv_buys_ok b Hinv) as Hall
        |pose proof (inv_sells_ok b Hinv) as Hall];
        rewrite Forall_forall in Hall; auto. }
    destruct Hok as [Hf _]. rewrite Forall_forall in Hf.
    destruct (Hf o Ho) as [Hpo _]. simpl in Hpo. congruence. }
  subst k. exists lv, o. split; [|auto].
  apply elem_map_find; [|exact Hlv].
  destruct s; simpl.
  - eapply (sorted_NoDup Z.gt gt_irrefl), inv_buys_sorted; eauto.
  - eapply (sorted_NoDup Z.lt lt_irrefl), inv_sells_sorted; eauto.
Qed.

Lemma cancel_order_erases i b :
  book_inv b -> fst (cancel_order i b) = true ->
  order_lookup_ (snd (cancel_order i b)) !! i = None.
Proof.
  intros Hinv Hret. unfold cancel_order in *.
  destruct (order_lookup_ b !! i) as [[p s]|] eqn:Hi; [|discriminate].
  simpl. destruct (lookup_finds_level b i p s Hinv Hi) as (lv & o & Hfind & Ho & Hid).
  destruct (remove_from_levels_found i p _ lv o Hfind Ho Hid) as [m' Hm'].
  unfold remove_order_from_side. destruct s; simpl in Hm'; rewrite Hm'; simpl;
    apply lookup_delete_eq.
Qed.

(** *** Unique ids *)

Lemma ids_split (L L' C : list Order.t) :
  tag <$> L = (tag <$> C) ++ (tag <$> L') ->
  Order.id <$> L = (Order.id <$> C) ++ (Order.id <$> L').
Proof.
  intros Heq. apply (f_equal (fmap tag_id)) in Heq.
  rewrite fmap_app, !ids_of_tags in Heq. exact Heq.
Qed.

Lemma tags_back (L L' C : list Order.t) o' :
  tag <$> L = (tag <$> C) ++ (tag <$> L') ->
  o' ∈ L' -> exists o, o ∈ L /\ tag o = tag o'.
Proof.
  intros Heq Hin.
  assert (Ht : tag o' ∈ tag <$> L).
  { rewrite Heq. apply elem_of_app. right. apply list_elem_of_fmap_2. exact Hin. }
  apply list_elem_of_fmap in Ht as (o & Ho & Hin'). eauto.
Qed.

Lemma unique_inv_empty : unique_inv empty_book.
Proof.
  constructor; simpl; [constructor|]. intros o H. inversion H.
Qed.

Lemma unique_inv_add o b :
  unique_inv b ->
  (fst (add_limit_order o b) = true -> order_lookup_ b !! Order.id o = None) ->
  unique_inv (snd (add_limit_order o b)).
Proof.
  intros [Hnd Hlk]. unfold add_limit_order.
  destruct (negb _ || negb _); [intros _; constructor; assumption|].
  simpl. intros Hfresh. specialize (Hfresh eq_refl).
  assert (Hnew : Order.id o ∉ Order.id <$> resting_orders b).
  { intros Hin. apply list_elem_of_fmap in Hin as (o' & Hid & Hin).
    rewrite Hid, (Hlk o' Hin) in Hfresh. discriminate. }
  assert (Hperm : resting_orders (snd (add_limit_order_to_side o b))
                  ≡ₚ o :: resting_orders b).
  { unfold add_limit_order_to_side, resting_orders. simpl.
    destruct (Order.side o).
    - rewrite (map_update_orders Z.gtb). reflexivity.
    - rewrite (map_update_orders Z.ltb). rewrite <- Permutation_middle. reflexivity. }
  constructor.
  - rewrite Hperm, fmap_cons. apply NoDup_cons. auto.
  - intros o' Hin. rewrite Hperm in Hin. simpl.
    apply elem_of_cons in Hin as [->|Hin].
    + destruct (Order.side o); apply lookup_insert_eq.
    + rewrite lookup_insert_ne; [auto|].
      intros Heq. apply Hnew. rewrite Heq. apply list_elem_of_fmap_2. exact Hin.
Qed.

Lemma unique_inv_shrink (b b' : OrderBook) (C : list Order.t) :
  unique_inv b ->
  Order.id <$> resting_orders b ≡ₚ (Order.id <$> C) ++ (Order.id <$> resting_orders b') ->
  (forall o', o' ∈ resting_orders b' ->
     exists o, o ∈ resting_orders b /\ tag o = tag o') ->
  (forall i, order_lookup_ b' !! i =
             if decide (i ∈ Order.id <$> C) then None else order_lookup_ b !! i) ->
  unique_inv b'.
Proof.
  intros [Hnd Hlk] Hperm Hback Hlk'.
  rewrite Hperm in Hnd. apply NoDup_app in Hnd as (_ & Hdisj & Hnd').
  constructor; [exact Hnd'|].
  intros o' Hin. rewrite Hlk'. rewrite decide_False.
  - destruct (Hback o' Hin) as (o & Ho & Ht).
    change (order_lookup_ b !! tag_id (tag o')
            = Some (tag_price (tag o'), tag_side (tag o'))).
    rewrite <- Ht. apply Hlk. exact Ho.
  - intros HC. apply (Hdisj _ HC). apply list_elem_of_fmap_2. exact Hin.
Qed.

Lemma unique_inv_market side q taker ts b :
  unique_inv b -> unique_inv (snd (add_market_order side q taker ts b)).
Proof.
  intros Hu.
  unfold add_market_order, match_market_order_buy, match_market_order_sell.
  destruct side.
  - destruct (match_levels taker ts (sell_levels_ b) (enter_match q b))
      as [sells st] eqn:Hrun.
    apply match_levels_spec in Hrun as (C & T & Htag & _ & _ & Hlk' & _).
    apply (unique_inv_shrink b _ C Hu); unfold resting_orders; simpl.
    + rewrite !fmap_app, (ids_split _ _ _ Htag).
      apply Permutation_app_swap_app.
    + intros o' Hin. apply elem_of_app in Hin as [Hin|Hin].
      * exists o'. split; [apply elem_of_app; auto | reflexivity].
      * destruct (tags_back _ _ _ _ Htag Hin) as (o & Ho & Ht).
        exists o. split; [apply elem_of_app; auto | exact Ht].
    + exact Hlk'.
  - destruct (match_levels taker ts (buy_levels_ b) (enter_match q b))
      as [buys st] eqn:Hrun.
    apply match_levels_spec in Hrun as (C & T & Htag & _ & _ & Hlk' & _).
    apply (unique_inv_shrink b _ C Hu); unfold resting_orders; simpl.
    + rewrite !fmap_app, (ids_split _ _ _ Htag), <- app_assoc. reflexivity.
    + intros o' Hin. apply elem_of_app in Hin as [Hin|Hin].
      * destruct (tags_back _ _ _ _ Htag Hin) as (o & Ho & Ht).
        exists o. split; [apply elem_of_app; auto | exact Ht].
      * exists o'. split; [apply elem_of_app; auto | reflexivity].
    + exact Hlk'.
Qed.

Lemma unique_inv_cancel i b :
  unique_inv b -> unique_inv (snd (cancel_order i b)).
Proof.
  intros Hu. unfold cancel_order.
  destruct (order_lookup_ b !! i) as [[p s]|] eqn:Hi; [|exact Hu].
  simpl. unfold remove_order_from_side. destruct s.
  - destruct (remove_from_levels i p (buy_levels_ b)) as [buys|] eqn:Hrm;
      [|exact Hu].
    apply remove_from_levels_spec in Hrm as (r & l1 & l2 & Hid & Hold & Hnew & _).
    apply (unique_inv_shrink b _ [r] Hu); unfold resting_orders; simpl.
    + rewrite Hold, Hnew, <- app_assoc. simpl.
      rewrite <- Permutation_middle, fmap_cons, <- app_assoc. reflexivity.
    + intros o' Hin. exists o'. split; [|reflexivity].
      rewrite Hold. rewrite Hnew in Hin.
      rewrite !elem_of_app, elem_of_cons. rewrite !elem_of_app in Hin. tauto.
    + intros j. rewrite Hid. destruct (decide (j = i)) as [->|Hne].
      * rewrite decide_True by (apply list_elem_of_singleton; reflexivity).
        apply lookup_delete_eq.
      * rewrite decide_False by (rewrite list_elem_of_singleton; congruence).
        apply lookup_delete_ne. congruence.
  - destruct (remove_from_levels i p (sell_levels_ b)) as [sells|] eqn:Hrm;
      [|exact Hu].
    apply remove_from_levels_spec in Hrm as (r & l1 & l2 & Hid & Hold & Hnew & _).
    apply (unique_inv_shrink b _ [r] Hu); unfold resting_orders; simpl.
    + rewrite Hold, Hnew, (app_assoc _ l1), <- Permutation_middle.
      rewrite fmap_cons, <- app_assoc. reflexivity.
    + intros o' Hin. exists o'. split; [|reflexivity].
      rewrite Hold. rewrite Hnew in Hin.
      rewrite !elem_of_app, elem_of_cons. rewrite !elem_of_app in Hin. tauto.
    + intros j. rewrite Hid. destruct (decide (j = i)) as [->|Hne].
      * rewrite decide_True by (apply list_elem_of_singleton; reflexivity).
        apply lookup_delete_eq.
      * rewrite decide_False by (rewrite list_elem_of_singleton; congruence).
        apply lookup_delete_ne. congruence.
Qed.

Lemma unique_inv_run_from ops : forall b,
  unique_inv b -> ids_fresh_from b ops = true -> unique_inv (run_from b ops).
Proof.
  induction ops as [|op ops IH]; simpl; intros b Hu Hfresh; [exact Hu|].
  apply andb_true_iff in Hfresh as [Hop Hrest].
  apply IH; [|exact Hrest].
  destruct op; simpl in *.
  - apply unique_inv_add; [exact Hu|]. intros Hadm. rewrite Hadm in Hop.
    simpl in Hop. apply bool_decide_eq_true in Hop. exact Hop.
  - apply unique_inv_market. exact Hu.
  - apply unique_inv_cancel. exact Hu.
  - exact unique_inv_empty.
Qed.

(** *** Queues follow the admission order *)

Lemma history_inv_shrinks adm b b' :
  history_inv adm b ->
  shrinks (buy_levels_ b) (buy_levels_ b') ->
  shrinks (sell_levels_ b) (sell_levels_ b') ->
  history_inv adm b'.
Proof.
  intros Hh Hb Hs s k lv' Hin.
  destruct s; simpl in Hin;
    [destruct (Hb k lv' Hin) as (lv & Hlv & Hsub)
    |destruct (Hs k lv' Hin) as (lv & Hlv & Hsub)];
    (etrans; [exact Hsub|]).
  - apply (Hh BUY k lv). exact Hlv.
  - apply (Hh SELL k lv). exact Hlv.
Qed.

Lemma history_inv_more adm o b : history_inv adm b -> history_inv (adm ++ [o]) b.
Proof.
  intros Hh s k lv Hin. rewrite fmap_app. apply sublist_inserts_r. eauto.
Qed.

Lemma history_inv_add_level before adm o m s b k lv' :
  history_inv adm b -> m = levels_of s b ->
  (k, lv') ∈ map_update before (Order.price o) (add_order o) m ->
  tag <$> orders_ lv' `sublist_of` tag <$> (adm ++ [o]).
Proof.
  intros Hh -> Hin. rewrite fmap_app.
  apply map_update_elem in Hin as [Hin|(-> & lv & -> & Hlv)].
  - apply sublist_inserts_r. eauto.
  - simpl. rewrite fmap_app. apply sublist_app; [|reflexivity].
    destruct Hlv as [Hlv| ->]; [eauto | apply sublist_nil_l].
Qed.

Lemma history_inv_add adm o b :
  history_inv adm b ->
  history_inv (adm ++ op_admits b (OpAddLimit o)) (snd (add_limit_order o b)).
Proof.
  intros Hh. unfold op_admits, add_limit_order.
  destruct (negb _ || negb _); simpl; [rewrite app_nil_r; exact Hh|].
  intros s k lv' Hin.
  destruct (Order.side o) eqn:Hside, s; simpl in Hin; rewrite ?Hside in Hin.
  - eapply (history_inv_add_level Z.gtb adm o _ BUY); eauto.
  - apply (history_inv_more adm o b Hh SELL k lv'). exact Hin.
  - apply (history_inv_more adm o b Hh BUY k lv'). exact Hin.
  - eapply (history_inv_add_level Z.ltb adm o _ SELL); eauto.
Qed.

Lemma history_inv_market side q taker ts adm b :
  history_inv adm b ->
  history_inv adm (snd (add_market_order side q taker ts b)).
Proof.
  intros Hh.
  unfold add_market_order, match_market_order_buy, match_market_order_sell.
  destruct side.
  - destruct (match_levels taker ts (sell_levels_ b) (enter_match q b))
      as [sells st] eqn:Hrun.
    apply match_levels_spec in Hrun as (C & T & _ & _ & _ & _ & _ & _ & _ & Hshr).
    eapply history_inv_shrinks; eauto using shrinks_refl.
  - destruct (match_levels taker ts (buy_levels_ b) (enter_match q b))
      as [buys st] eqn:Hrun.
    apply match_levels_spec in Hrun as (C & T & _ & _ & _ & _ & _ & _ & _ & Hshr).
    eapply history_inv_shrinks; eauto using shrinks_refl.
Qed.

Lemma history_inv_cancel i adm b :
  history_inv adm b -> history_inv adm (snd (cancel_order i b)).
Proof.
  intros Hh. unfold cancel_order.
  destruct (order_lookup_ b !! i) as [[p s]|]; [|exact Hh].
  simpl. unfold remove_order_from_side. destruct s.
  - destruct (remove_from_levels i p (buy_levels_ b)) as [buys|] eqn:Hrm;
      [|exact Hh].
    apply remove_from_levels_spec in Hrm as (r & l1 & l2 & _ & _ & _ & _ & Hshr & _).
    eapply history_inv_shrinks; eauto using shrinks_refl.
  - destruct (remove_from_levels i p (sell_levels_ b)) as [sells|] eqn:Hrm;
      [|exact Hh].
    apply remove_from_levels_spec in Hrm as (r & l1 & l2 & _ & _ & _ & _ & Hshr & _).
    eapply history_inv_shrinks; eauto using shrinks_refl.
Qed.

Lemma history_inv_run_from ops : forall b adm,
  history_inv adm b ->
  history_inv (adm ++ admitted_from b ops) (run_from b ops).
Proof.
  induction ops as [|op ops IH]; simpl; intros b adm Hh.
  - rewrite app_nil_r. exact Hh.
  - rewrite app_assoc. apply IH. destruct op; simpl.
    + apply history_inv_add. exact Hh.
    + rewrite app_nil_r. apply history_inv_market. exact Hh.
    + rewrite app_nil_r. apply history_inv_cancel. exact Hh.
    + rewrite app_nil_r. intros s k lv Hin. destruct s; inversion Hin.
Qed.

Lemma history_inv_run ops : history_inv (admitted ops) (run ops).
Proof.
  apply (history_inv_run_from ops empty_book []).
  intros s k lv Hin. destruct s; inversion Hin.
Qed.

Lemma sublist_lookup_pair {A} (l1 l2 : list A) :
  l1 `sublist_of` l2 ->
  forall i j x y, (i < j)%nat -> l1 !! i = Some x -> l1 !! j = Some y ->
  exists i' j', (i' < j')%nat /\ l2 !! i' = Some x /\ l2 !! j' = Some y.
Proof.
  induction 1 as [|a l1 l2 Hsub IH|a l1 l2 Hsub IH]; intros i j x y Hij Hi Hj.
  - inversion Hi.
  - destruct j as [|j]; [lia|]. simpl in Hj. destruct i as [|i]; simpl in Hi.
    + inversion Hi; subst.
      assert (Hy : y ∈ l2).
      { eapply elem_of_sublist; [|exact Hsub]. eapply list_elem_of_lookup_2; eauto. }
      apply list_elem_of_lookup_1 in Hy as [j' Hj'].
      exists O, (S j'). split_and!; [lia | reflexivity | exact Hj'].
    + destruct (IH i j x y) as (i' & j' & Hlt & Hi' & Hj'); [lia|auto|auto|].
      exists (S i'), (S j'). split_and!; [lia|auto|auto].
  - destruct (IH i j x y Hij Hi Hj) as (i' & j' & Hlt & Hi' & Hj').
    exists (S i'), (S j'). split_and!; [lia|auto|auto].
Qed.

(** *** What one walk returns *)

Lemma trades_follow_maker m T :
  trades_follow m T ->
  forall t, t ∈ T ->
  exists lv o, (Trade.price t, lv) ∈ m /\ o ∈ orders_ lv
               /\ Order.id o = Trade.maker_id t.
Proof.
  induction 1 as [m|k lv rest T1 T2 Hprice Hpre Hrest IH]; intros t Hin.
  - inversion Hin.
  - apply elem_of_app in Hin as [Hin|Hin].
    + rewrite Forall_forall in Hprice. rewrite (Hprice t Hin).
      assert (Hid : Trade.maker_id t ∈ Order.id <$> orders_ lv).
      { destruct Hpre as [K ->]. apply elem_of_app. left.
        apply list_elem_of_fmap_2. exact Hin. }
      apply list_elem_of_fmap in Hid as (o & Ho & Hoin).
      exists lv, o. split_and!; [apply elem_of_cons; auto | exact Hoin | auto].
    + destruct (IH t Hin) as (lv' & o & Hlv & Ho & Hid).
      exists lv', o. split_and!; [apply elem_of_cons; auto | exact Ho | exact Hid].
Qed.

Lemma trades_follow_pair (R : relation Z) m T :
  (forall a, ~ R a a) ->
  StronglySorted R (keys m) ->
  trades_follow m T ->
  forall i j ti tj, (i < j)%nat -> T !! i = Some ti -> T !! j = Some tj ->
  R (Trade.price ti) (Trade.price tj)
  \/ (Trade.price ti = Trade.price tj
      /\ exists lv mi mj oi oj,
           (Trade.price ti, lv) ∈ m
           /\ orders_ lv !! mi = Some oi /\ orders_ lv !! mj = Some oj
           /\ (mi < mj)%nat
           /\ Order.id oi = Trade.maker_id ti
           /\ Order.id oj = Trade.maker_id tj).
Proof.
  intros Hirr Hsorted Hfol. revert Hsorted.
  induction Hfol as [m|k lv rest T1 T2 Hprice Hpre Hrest IH];
    intros Hsorted i j ti tj Hij Hi Hj; [inversion Hi|].
  unfold keys in Hsorted. simpl in Hsorted.
  apply StronglySorted_inv in Hsorted as [Hsrest Hall].
  rewrite Forall_forall in Hprice. rewrite Forall_forall in Hall.
  destruct (decide (j < length T1)%nat) as [Hj1|Hj2].
  - rewrite lookup_app_l in Hi by lia. rewrite lookup_app_l in Hj by lia.
    right.
    rewrite (Hprice ti) by (eapply list_elem_of_lookup_2; eauto).
    rewrite (Hprice tj) by (eapply list_elem_of_lookup_2; eauto).
    split; [reflexivity|].
    destruct Hpre as [K HK].
    assert (Hqi : (Order.id <$> orders_ lv) !! i = Some (Trade.maker_id ti)).
    { rewrite HK, lookup_app_l by (rewrite length_fmap; lia).
      rewrite list_lookup_fmap, Hi. reflexivity. }
    assert (Hqj : (Order.id <$> orders_ lv) !! j = Some (Trade.maker_id tj)).
    { rewrite HK, lookup_app_l by (rewrite length_fmap; lia).
      rewrite list_lookup_fmap, Hj. reflexivity. }
    apply list_lookup_fmap_Some in Hqi as (oi & Hoi & Hidi).
    apply list_lookup_fmap_Some in Hqj as (oj & Hoj & Hidj).
    exists lv, i, j, oi, oj.
    split_and!; auto. apply elem_of_cons; auto.
  - rewrite lookup_app_r in Hj by lia.
    assert (Hkj : R k (Trade.price tj)).
    { apply Hall.
      destruct (trades_follow_maker _ _ Hrest tj) as (lv' & _ & Hlv' & _).
      - eapply list_elem_of_lookup_2; eauto.
      - eapply elem_keys; eauto. }
    destruct (decide (i < length T1)%nat) as [Hi1|Hi2].
    + rewrite lookup_app_l in Hi by lia. left.
      rewrite (Hprice ti) by (eapply list_elem_of_lookup_2; eauto). exact Hkj.
    + rewrite lookup_app_r in Hi by lia.
      destruct (IH Hsrest (i - length T1)%nat (j - length T1)%nat ti tj)
        as [HR|(Heq & lv' & mi & mj & oi & oj & Hlv' & Hrest')]; auto; [lia|].
      right. split; [exact Heq|]. exists lv', mi, mj, oi, oj.
      split; [apply elem_of_cons; auto | exact Hrest'].
Qed.

(** *** The engine never leaves the book crossed *)

Lemma market_keys side q taker ts b :
  keys (buy_levels_ (snd (add_market_order side q taker ts b)))
    `sublist_of` keys (buy_levels_ b)
  /\ keys (sell_levels_ (snd (add_market_order side q taker ts b)))
    `sublist_of` keys (sell_levels_ b).
Proof.
  unfold add_market_order, match_market_order_buy, match_market_order_sell.
  destruct side.
  - destruct (match_levels taker ts (sell_levels_ b) (enter_match q b))
      as [sells st] eqn:Hrun.
    apply match_levels_spec in Hrun as (C & T & _ & _ & _ & _ & _ & Hkeys & _).
    simpl. split; [reflexivity | exact Hkeys].
  - destruct (match_levels taker ts (buy_levels_ b) (enter_match q b))
      as [buys st] eqn:Hrun.
    apply match_levels_spec in Hrun as (C & T & _ & _ & _ & _ & _ & Hkeys & _).
    simpl. split; [exact Hkeys | reflexivity].
Qed.

Lemma cancel_keys i b :
  keys (buy_levels_ (snd (cancel_order i b))) `sublist_of` keys (buy_levels_ b)
  /\ keys (sell_levels_ (snd (cancel_order i b))) `sublist_of` keys (sell_levels_ b).
Proof.
  unfold cancel_order.
  destruct (order_lookup_ b !! i) as [[p s]|]; [|split; reflexivity].
  simpl. unfold remove_order_from_side. destruct s.
  - destruct (remove_from_levels i p (buy_levels_ b)) as [buys|] eqn:Hrm;
      [|split; reflexivity].
    apply remove_from_levels_spec in Hrm as (r & l1 & l2 & _ & _ & _ & Hkeys & _).
    simpl. split; [exact Hkeys | reflexivity].
  - destruct (remove_from_levels i p (sell_levels_ b)) as [sells|] eqn:Hrm;
      [|split; reflexivity].
    apply remove_from_levels_spec in Hrm as (r & l1 & l2 & _ & _ & _ & Hkeys & _).
    simpl. split; [reflexivity | exact Hkeys].
Qed.

Lemma uncrossed_sublist b b' :
  keys (buy_levels_ b') `sublist_of` keys (buy_levels_ b) ->
  keys (sell_levels_ b') `sublist_of` keys (sell_levels_ b) ->
  uncrossed b -> uncrossed b'.
Proof.
  intros Hb Hs Hu bid ask Hbid Hask.
  apply Hu; eapply elem_of_sublist; eauto.
Qed.

Lemma uncrossed_not_crossed b : uncrossed b -> not_crossed b.
Proof.
  intros Hu. unfold not_crossed, best_bid_price, best_ask_price.
  destruct (buy_levels_ b) as [|[bid lb] buys] eqn:Hb; [auto|].
  destruct (sell_levels_ b) as [|[ask ls] sells] eqn:Hs; [auto|].
  right. right. exists bid, ask. split_and!; [reflexivity | reflexivity |].
  apply Hu; rewrite ?Hb, ?Hs; unfold keys; simpl; apply elem_of_cons; auto.
Qed.

(** A walk over a map whose first level holds the single order [o], for
    exactly the quantity of [o]: the order is consumed whole and the level
    erased. *)
Lemma match_levels_single taker ts o m st :
  0 < Order.quantity o ->
  remaining_qty st = Order.quantity o ->
  match_levels taker ts ((Order.price o, add_order o new_level) :: m) st
  = (m, on_fully_consumed (Order.price o) taker ts o st).
Proof.
  intros Hpos Hrem. simpl. unfold level_empty, consume_order. simpl.
  rewrite Hrem.
  destruct (Z.ltb_spec 0 (Order.quantity o)) as [_|]; [|lia].
  destruct (Z.leb_spec (Order.quantity o) (Order.quantity o)) as [_|]; [|lia].
  simpl. rewrite match_levels_done by (simpl; lia). reflexivity.
Qed.

Lemma sorted_head_le (R : relation Z) (k : Z) (lv : OrderBookPriceLevel) m a :
  StronglySorted R (keys ((k, lv) :: m)) -> a ∈ keys ((k, lv) :: m) ->
  a = k \/ R k a.
Proof.
  unfold keys. simpl. intros Hs Ha.
  apply StronglySorted_inv in Hs as [_ Hall]. rewrite Forall_forall in Hall.
  apply elem_of_cons in Ha as [->|Ha]; auto.
Qed.

(** The crossing step of [process_limit_order] for a Buy that was just
    admitted above every bid: the walk goes over the bid map, consumes the
    new order itself and restores both maps. *)
Lemma cross_buy_trades b o taker ts :
  Order.side o = BUY -> 0 < Order.quantity o ->
  Forall (Z.gt (Order.price o)) (keys (buy_levels_ b)) ->
  fst (add_market_order SELL (Order.quantity o) taker ts
         (snd (add_limit_order_to_side o b)))
  = [Trade.mk (Order.id o) taker (Order.price o) (Order.quantity o) ts].
Proof.
  intros Hside Hpos Hall.
  unfold add_limit_order_to_side, add_market_order, match_market_order_sell.
  rewrite Hside. cbn [snd buy_levels_ sell_levels_].
  rewrite (map_update_front Z.gtb Z.gt gtb_gt gt_irrefl) by exact Hall.
  rewrite match_levels_single by auto. reflexivity.
Qed.

Lemma cross_buy_restores b o taker ts :
  Order.side o = BUY -> 0 < Order.quantity o ->
  Forall (Z.gt (Order.price o)) (keys (buy_levels_ b)) ->
  let b2 := snd (add_market_order SELL (Order.quantity o) taker ts
                   (snd (add_limit_order_to_side o b))) in
  buy_levels_ b2 = buy_levels_ b /\ sell_levels_ b2 = sell_levels_ b.
Proof.
  intros Hside Hpos Hall.
  unfold add_limit_order_to_side, add_market_order, match_market_order_sell.
  rewrite Hside. cbn [snd buy_levels_ sell_levels_].
  rewrite (map_update_front Z.gtb Z.gt gtb_gt gt_irrefl) by exact Hall.
  rewrite match_levels_single by auto. split; reflexivity.
Qed.

Lemma cross_sell_trades b o taker ts :
  Order.side o = SELL -> 0 < Order.quantity o ->
  Forall (Z.lt (Order.price o)) (keys (sell_levels_ b)) ->
  fst (add_market_order BUY (Order.quantity o) taker ts
         (snd (add_limit_order_to_side o b)))
  = [Trade.mk (Order.id o) taker (Order.price o) (Order.quantity o) ts].
Proof.
  intros Hside Hpos Hall.
  unfold add_limit_order_to_side, add_market_order, match_market_order_buy.
  rewrite Hside. cbn [snd buy_levels_ sell_levels_].
  rewrite (map_update_front Z.ltb Z.lt Z.ltb_lt lt_irrefl) by exact Hall.
  rewrite match_levels_single by auto. reflexivity.
Qed.

Lemma cross_sell_restores b o taker ts :
  Order.side o = SELL -> 0 < Order.quantity o ->
  Forall (Z.lt (Order.price o)) (keys (sell_levels_ b)) ->
  let b2 := snd (add_market_order BUY (Order.quantity o) taker ts
                   (snd (add_limit_order_to_side o b))) in
  buy_levels_ b2 = buy_levels_ b /\ sell_levels_ b2 = sell_levels_ b.
Proof.
  intros Hside Hpos Hall.
  unfold add_limit_order_to_side, add_market_order, match_market_order_buy.
  rewrite Hside. cbn [snd buy_levels_ sell_levels_].
  rewrite (map_update_front Z.ltb Z.lt Z.ltb_lt lt_irrefl) by exact Hall.
  rewrite match_levels_single by auto. split; reflexivity.
Qed.

Lemma uncrossed_same b b' :
  buy_levels_ b' = buy_levels_ b -> sell_levels_ b' = sell_levels_ b ->
  uncrossed b -> uncrossed b'.
Proof. unfold uncrossed. intros -> ->. auto. Qed.

Lemma rest_add_buy b o :
  book_inv b -> uncrossed b -> Order.side o = BUY ->
  (forall ask, best_ask_price b = Some ask -> Order.price o < ask) ->
  uncrossed (snd (add_limit_order_to_side o b)).
Proof.
  intros Hinv Hu Hside Hno bid ask. unfold add_limit_order_to_side.
  rewrite Hside. cbn [snd buy_levels_ sell_levels_]. intros Hbid Hask.
  apply (map_update_keys Z.gtb) in Hbid as [->|Hbid]; [|auto].
  unfold best_ask_price in Hno.
  pose proof (inv_sells_sorted b Hinv) as Hsorted.
  destruct (sell_levels_ b) as [|[a ls] sells]; [inversion Hask|].
  specialize (Hno a eq_refl).
  destruct (sorted_head_le Z.lt a ls sells ask Hsorted Hask); lia.
Qed.

Lemma rest_add_sell b o :
  book_inv b -> uncrossed b -> Order.side o = SELL ->
  (forall bid, best_bid_price b = Some bid -> bid < Order.price o) ->
  uncrossed (snd (add_limit_order_to_side o b)).
Proof.
  intros Hinv Hu Hside Hno bid ask. unfold add_limit_order_to_side.
  rewrite Hside. cbn [snd buy_levels_ sell_levels_]. intros Hbid Hask.
  apply (map_update_keys Z.ltb) in Hask as [->|Hask]; [|auto].
  unfold best_bid_price in Hno.
  pose proof (inv_buys_sorted b Hinv) as Hsorted.
  destruct (buy_levels_ b) as [|[a lb] buys]; [inversion Hbid|].
  specialize (Hno a eq_refl).
  destruct (sorted_head_le Z.gt a lb buys bid Hsorted Hbid); lia.
Qed.

Lemma best_ask_after_buy b o :
  Order.side o = BUY ->
  best_ask_price (snd (add_limit_order_to_side o b)) = best_ask_price b.
Proof.
  intros Hside. unfold add_limit_order_to_side, best_ask_price.
  rewrite Hside. reflexivity.
Qed.

Lemma best_bid_after_sell b o :
  Order.side o = SELL ->
  best_bid_price (snd (add_limit_order_to_side o b)) = best_bid_price b.
Proof.
  intros Hside. unfold add_limit_order_to_side, best_bid_price.
  rewrite Hside. reflexivity.
Qed.

Lemma bids_below_best_ask b ask :
  uncrossed b -> best_ask_price b = Some ask ->
  forall p, ask <= p -> Forall (Z.gt p) (keys (buy_levels_ b)).
Proof.
  intros Hu Hask p Hp. apply Forall_forall. intros bid Hbid.
  assert (bid < ask); [|lia].
  apply Hu; [exact Hbid|]. unfold best_ask_price in Hask.
  destruct (sell_levels_ b) as [|[a ls] sells]; [discriminate|].
  inversion Hask; subst. unfold keys. simpl. apply elem_of_cons; auto.
Qed.

Lemma asks_above_best_bid b bid :
  uncrossed b -> best_bid_price b = Some bid ->
  forall p, p <= bid -> Forall (Z.lt p) (keys (sell_levels_ b)).
Proof.
  intros Hu Hbid p Hp. apply Forall_forall. intros ask Hask.
  assert (bid < ask); [|lia].
  apply Hu; [|exact Hask]. unfold best_bid_price in Hbid.
  destruct (buy_levels_ b) as [|[a lb] buys]; [discriminate|].
  inversion Hbid; subst. unfold keys. simpl. apply elem_of_cons; auto.
Qed.

Lemma process_limit_order_uncrossed ev e :
  book_inv (order_book_ e) -> uncrossed (order_book_ e) ->
  uncrossed (order_book_ (snd (process_limit_order ev e))).
Proof.
  intros Hinv Hu. unfold process_limit_order.
  remember (Order.mk (Event.order_id ev) (Event.side ev) (Event.price ev)
              (Event.quantity ev) (Event.timestamp ev)) as o eqn:Ho.
  assert (Hp : Event.price ev = Order.price o) by (subst o; reflexivity).
  assert (Hq : Event.quantity ev = Order.quantity o) by (subst o; reflexivity).
  assert (Hsd : Order.side o = Event.side ev) by (subst o; reflexivity).
  clear Ho. rewrite Hp, Hq. unfold add_limit_order.
  destruct (is_valid_price (Order.price o)); [|exact Hu].
  destruct (is_valid_quantity (Order.quantity o)) eqn:Hvq; [|exact Hu].
  apply Z.ltb_lt in Hvq. cbn [negb orb].
  change (add_limit_order_to_side o (order_book_ e))
    with (true, snd (add_limit_order_to_side o (order_book_ e))).
  cbv iota. destruct (Event.side ev).
  - rewrite (best_ask_after_buy _ _ Hsd).
    destruct (best_ask_price (order_book_ e)) as [ask|] eqn:Hask.
    2:{ apply rest_add_buy; auto. intros a Ha. congruence. }
    destruct (Z.geb_spec (Order.price o) ask) as [Hge|Hlt].
    + pose proof (cross_buy_restores (order_book_ e) o (Event.order_id ev)
        (Event.timestamp ev) Hsd Hvq
        (bids_below_best_ask _ _ Hu Hask _ Hge)) as [Hb Hs].
      destruct (add_market_order SELL _ _ _ _) as [T b2]. simpl in *.
      eapply uncrossed_same; eauto.
    + apply rest_add_buy; auto. intros a Ha. congruence.
  - rewrite (best_bid_after_sell _ _ Hsd).
    destruct (best_bid_price (order_book_ e)) as [bid|] eqn:Hbid.
    2:{ apply rest_add_sell; auto. intros a Ha. congruence. }
    destruct (Z.leb_spec (Order.price o) bid) as [Hle|Hgt].
    + pose proof (cross_sell_restores (order_book_ e) o (Event.order_id ev)
        (Event.timestamp ev) Hsd Hvq
        (asks_above_best_bid _ _ Hu Hbid _ Hle)) as [Hb Hs].
      destruct (add_market_order BUY _ _ _ _) as [T b2]. simpl in *.
      eapply uncrossed_same; eauto.
    + apply rest_add_sell; auto. intros a Ha. congruence.
Qed.

Lemma process_limit_order_inv ev e :
  book_inv (order_book_ e) ->
  book_inv (order_book_ (snd (process_limit_order ev e))).
Proof.
  intros Hinv. unfold process_limit_order.
  set (o := Order.mk _ _ _ _ _).
  pose proof (book_inv_add o _ Hinv) as H1.
  destruct (add_limit_order o (order_book_ e)) as [[|] b1]; simpl in *; [|exact H1].
  destruct (Event.side ev).
  - destruct (best_ask_price b1) as [ask|]; [|exact H1].
    destruct (Event.price ev >=? ask); [|exact H1].
    pose proof (book_inv_market SELL (Event.quantity ev) (Event.order_id ev)
                  (Event.timestamp ev) b1 H1) as H2.
    unfold add_market_order in H2.
    destruct (match_market_order_sell _ _ _ b1). exact H2.
  - destruct (best_bid_price b1) as [bid|]; [|exact H1].
    destruct (Event.price ev <=? bid); [|exact H1].
    pose proof (book_inv_market BUY (Event.quantity ev) (Event.order_id ev)
                  (Event.timestamp ev) b1 H1) as H2.
    unfold add_market_order in H2.
    destruct (match_market_order_buy _ _ _ b1). exact H2.
Qed.

Lemma process_event_inv ev e :
  book_inv (order_book_ e) /\ uncrossed (order_book_ e) ->
  book_inv (order_book_ (snd (process_event ev e)))
  /\ uncrossed (order_book_ (snd (process_event ev e))).
Proof.
  intros [Hinv Hu]. unfold process_event.
  destruct (Event.type ev); [| | |auto].
  - split; [apply process_limit_order_inv | apply process_limit_order_uncrossed]; auto.
  - unfold process_market_order.
    pose proof (book_inv_market (Event.side ev) (Event.quantity ev)
      (Event.order_id ev) (Event.timestamp ev) _ Hinv) as H1.
    pose proof (market_keys (Event.side ev) (Event.quantity ev)
      (Event.order_id ev) (Event.timestamp ev) (order_book_ e)) as [Hkb Hks].
    destruct (add_market_order _ _ _ _ (order_book_ e)) as [T b1]. simpl in *.
    split; [exact H1 | eapply uncrossed_sublist; eauto].
  - unfold process_cancel_order. simpl.
    pose proof (cancel_keys (Event.order_id ev) (order_book_ e)) as [Hkb Hks].
    split; [apply book_inv_cancel; exact Hinv | eapply uncrossed_sublist; eauto].
Qed.

Lemma process_events_inv events : forall e,
  book_inv (order_book_ e) /\ uncrossed (order_book_ e) ->
  book_inv (order_book_ (snd (process_events events e)))
  /\ uncrossed (order_book_ (snd (process_events events e))).
Proof.
  induction events as [|ev events IH]; simpl; intros e He; [exact He|].
  pose proof (process_event_inv ev e He) as H1.
  destruct (process_event ev e) as [T e1]. simpl in H1.
  specialize (IH e1 H1). destruct (process_events events e1) as [T' e2].
  exact IH.
Qed.

(** ** Accounting of the matching loops *)

Lemma last_price_cons d t T :
  last_price d (t :: T) = last_price (Trade.price t) T.
Proof.
  unfold last_price. rewrite last_cons. destruct (last T); reflexivity.
Qed.

Lemma last_price_app d T1 T2 :
  last_price d (T1 ++ T2) = last_price (last_price d T1) T2.
Proof.
  unfold last_price. rewrite last_app. destruct (last T2); reflexivity.
Qed.

Lemma sum_quantity_app T1 T2 :
  sum_quantity (T1 ++ T2) = sum_quantity T1 + sum_quantity T2.
Proof. induction T1 as [|t T1 IH]; simpl; lia. Qed.

Lemma int64_add_0 z : in_int64 z -> in_int64 z /\ z = int64_wrap (z + 0).
Proof.
  intros H. split; [exact H|]. rewrite Z.add_0_r, int64_wrap_small; auto.
Qed.

Lemma in_int64_wrap z : in_int64 (int64_wrap z).
Proof. apply int64_wrap_range. Qed.

Ltac loop_still :=
  exists [], 0; simpl; rewrite ?app_nil_r;
  split_and!; auto using Forall_nil, int64_add_0;
  try lia; try (intros ? ->; f_equal; lia);
  try (intros ?; split_and!; auto using Forall_nil; lia).

(** The loop over one level.  [V] is the quantity of the makers that were
    consumed in full, which is what [total_volume_] is raised by; the sum is
    formed in 64 bits. *)
Lemma match_level_account fuel p taker ts : forall lv st lv' st',
  match_level fuel p taker ts lv st = (lv', st') ->
  exists T V,
    trades st' = trades st ++ T
    /\ remaining_qty st' = remaining_qty st - sum_quantity T
    /\ queue_sum (orders_ lv') = queue_sum (orders_ lv) - sum_quantity T
    /\ Forall (fun t => Trade.taker_id t = taker /\ Trade.timestamp t = ts) T
    /\ (0 <= remaining_qty st -> 0 <= remaining_qty st')
    /\ (Forall (fun o => 0 < Order.quantity o) (orders_ lv) ->
        Forall (fun o => 0 < Order.quantity o) (orders_ lv')
        /\ Forall (fun t => 0 < Trade.quantity t) T
        /\ 0 <= V <= sum_quantity T)
    /\ (in_int64 (ms_total_volume st) ->
        in_int64 (ms_total_volume st')
        /\ ms_total_volume st' = int64_wrap (ms_total_volume st + V))
    /\ (orders_ lv' = [] -> V = sum_quantity T)
    /\ (forall n, ms_trade_count st = size_t_wrap n ->
                  ms_trade_count st' = size_t_wrap (n + Z.of_nat (length T)))
    /\ ms_last_trade_price st' = last_price (ms_last_trade_price st) T.
Proof.
  induction fuel as [|fuel IH]; intros [os tq] st lv' st' Hrun; simpl in *.
  - inversion Hrun; subst; clear Hrun. loop_still.
  - unfold level_empty, consume_order in Hrun; simpl in Hrun.
    destruct os as [|o os].
    { inversion Hrun; subst; clear Hrun. loop_still. }
    simpl in Hrun.
    destruct (Z.ltb_spec 0 (remaining_qty st)) as [Hpos|Hnpos].
    2:{ inversion Hrun; subst; clear Hrun. loop_still. }
    destruct (Z.leb_spec (Order.quantity o) (remaining_qty st)) as [Hle|Hgt].
    + apply IH in Hrun.
      destruct Hrun
        as (T & V & Htr & Hrem & Hsum & Hfld & Hnn & Hposq & Hvol & Hall & Hcnt & Hlast).
      simpl in *.
      exists (Trade.mk (Order.id o) taker p (Order.quantity o) ts :: T),
             (Order.quantity o + V).
      split_and!.
      * rewrite Htr, <- app_assoc. reflexivity.
      * simpl. lia.
      * simpl. lia.
      * constructor; auto.
      * intros _. apply Hnn. lia.
      * intros Hpo. apply Forall_cons in Hpo as [Ho Hpo].
        destruct (Hposq Hpo) as (H1 & H2 & H3).
        split; [exact H1 | split; [constructor; auto | simpl in *; lia]].
      * intros _. destruct (Hvol (in_int64_wrap _)) as [Hr Hv].
        split; [exact Hr|]. rewrite Hv, int64_wrap_add_l. f_equal. lia.
      * intros Hnil. rewrite (Hall Hnil). reflexivity.
      * intros n Hn. rewrite (Hcnt (n + 1)).
        -- f_equal. simpl length. lia.
        -- rewrite Hn. apply size_t_wrap_succ.
      * rewrite Hlast, last_price_cons. reflexivity.
    + assert (Hpart : (lv', st') =
        ({| orders_ := set_quantity o (Order.quantity o - remaining_qty st) :: os;
            total_quantity_ := int64_wrap (tq - remaining_qty st) |},
         on_partial_fill p taker ts (set_quantity o (remaining_qty st)) st)).
      { destruct fuel; simpl in Hrun; congruence. }
      inversion Hpart; subst; clear Hpart Hrun. simpl.
      exists [Trade.mk (Order.id o) taker p (remaining_qty st) ts], 0.
      split_and!; simpl; auto.
      * lia.
      * lia.
      * lia.
      * intros Hpo. apply Forall_cons in Hpo as [Ho Hpo].
        split; [constructor; [simpl; lia | exact Hpo] | split; [constructor; auto | lia]].
      * intros Hr. rewrite !Z.add_0_r.
        split; [exact Hr | symmetry; apply int64_wrap_small, Hr].
      * discriminate.
      * intros n ->. rewrite size_t_wrap_succ. f_equal; lia.
Qed.

Lemma queue_sum_nonneg os :
  Forall (fun o => 0 < Order.quantity o) os -> 0 <= queue_sum os.
Proof. induction 1 as [|o os Ho _ IH]; simpl; lia. Qed.

Lemma side_orders_pos m :
  Forall level_live m ->
  Forall (fun o => 0 < Order.quantity o) (side_orders m).
Proof.
  induction 1 as [|[k lv] m (_ & _ & Hq) _ IH]; simpl; [constructor|].
  apply Forall_app. auto.
Qed.

Ltac walk_still :=
  exists [], 0; simpl; rewrite ?app_nil_r;
  split_and!; auto using int64_add_0; try lia; try discriminate;
  try (intros ? ->; f_equal; lia);
  try (intros ?; split;
       [first [assumption | constructor] | split; [constructor | lia]]).

(** The walk over the levels, with the same reading of [V]. *)
Lemma match_levels_account taker ts : forall m st m' st',
  match_levels taker ts m st = (m', st') ->
  exists T V,
    trades st' = trades st ++ T
    /\ remaining_qty st' = remaining_qty st - sum_quantity T
    /\ queue_sum (side_orders m') = queue_sum (side_orders m) - sum_quantity T
    /\ Forall (fun t => Trade.taker_id t = taker /\ Trade.timestamp t = ts) T
    /\ (0 <= remaining_qty st -> 0 <= remaining_qty st')
    /\ (Forall level_live m ->
        Forall level_live m'
        /\ Forall (fun t => 0 < Trade.quantity t) T
        /\ 0 <= V <= sum_quantity T)
    /\ (in_int64 (ms_total_volume st) ->
        in_int64 (ms_total_volume st')
        /\ ms_total_volume st' = int64_wrap (ms_total_volume st + V))
    /\ (m' = [] -> V = sum_quantity T)
    /\ (forall n, ms_trade_count st = size_t_wrap n ->
                  ms_trade_count st' = size_t_wrap (n + Z.of_nat (length T)))
    /\ ms_last_trade_price st' = last_price (ms_last_trade_price st) T
    /\ (remaining_qty st' <= 0 \/ m' = []).
Proof.
  induction m as [|[k lv] rest IH]; intros st m' st' Hrun; simpl in Hrun.
  - inversion Hrun; subst; clear Hrun. walk_still.
  - destruct (Z.ltb_spec 0 (remaining_qty st)) as [Hpos|Hnpos].
    2:{ inversion Hrun; subst; clear Hrun. walk_still. }
    destruct (match_level _ k taker ts lv st) as [lv1 st1] eqn:Hin.
    pose proof (match_level_spec _ _ _ _ _ _ _ _ (Nat.le_refl _) Hin)
      as (_ & _ & _ & _ & _ & _ & _ & _ & _ & Hexit).
    apply match_level_account in Hin
      as (T1 & V1 & Htr1 & Hrem1 & Hsum1 & Hfld1 & Hnn1 & Hpos1 & Hvol1 & Hall1
          & Hcnt1 & Hlast1).
    destruct (match_levels taker ts rest st1) as [rest' st2] eqn:Hout.
    destruct (level_empty lv1) eqn:Hemp.
    + inversion Hrun; subst; clear Hrun.
      apply IH in Hout
        as (T2 & V2 & Htr2 & Hrem2 & Hsum2 & Hfld2 & Hnn2 & Hpos2 & Hvol2 & Hall2
            & Hcnt2 & Hlast2 & Hexit2).
      apply level_empty_true in Hemp.
      exists (T1 ++ T2), (V1 + V2). rewrite sum_quantity_app. split_and!.
      * rewrite Htr2, Htr1, <- app_assoc. reflexivity.
      * lia.
      * simpl. rewrite queue_sum_app. rewrite Hemp in Hsum1. simpl in Hsum1. lia.
      * apply Forall_app. auto.
      * intros H0. apply Hnn2. apply Hnn1. exact H0.
      * intros Hall. apply Forall_cons in Hall as [(_ & _ & Hq) Hall].
        destruct (Hpos1 Hq) as (_ & Ht1 & Hv1).
        destruct (Hpos2 Hall) as (Hl2 & Ht2 & Hv2).
        split; [exact Hl2 | split; [apply Forall_app; auto | lia]].
      * intros Hr. destruct (Hvol1 Hr) as [Hr1 Hv1].
        destruct (Hvol2 Hr1) as [Hr2 Hv2]. split; [exact Hr2|].
        rewrite Hv2, Hv1, int64_wrap_add_l. f_equal. lia.
      * intros Hnil. rewrite (Hall2 Hnil), (Hall1 Hemp). reflexivity.
      * intros n Hn. rewrite (Hcnt2 _ (Hcnt1 _ Hn)). f_equal.
        rewrite length_app. lia.
      * rewrite Hlast2, Hlast1, last_price_app. reflexivity.
      * exact Hexit2.
    + assert (Hr : remaining_qty st1 <= 0) by (destruct Hexit as [?|?]; [congruence | assumption]).
      rewrite match_levels_done in Hout by exact Hr.
      inversion Hout; subst; clear Hout. inversion Hrun; subst; clear Hrun.
      exists T1, V1. split_and!; auto.
      * simpl. rewrite !queue_sum_app. lia.
      * intros Hall. apply Forall_cons in Hall as [(Hk & _ & Hq) Hall]. simpl in *.
        destruct (Hpos1 Hq) as (Hq1 & Ht1 & Hv1).
        split; [|split; [exact Ht1 | exact Hv1]].
        constructor; [|exact Hall]. split_and!; simpl; auto.
        intros Hnil. apply level_empty_true in Hnil. congruence.
      * discriminate.
Qed.

(** *** Levels stay live *)

Lemma map_update_live before o m :
  0 < Order.price o -> 0 < Order.quantity o ->
  Forall level_live m ->
  Forall level_live (map_update before (Order.price o) (add_order o) m).
Proof.
  intros Hp Hq Hall. apply Forall_forall. intros [k lv'] Hin.
  rewrite Forall_forall in Hall.
  apply map_update_elem in Hin as [Hin|(-> & lv & -> & Hlv)]; [auto|].
  split_and!; simpl.
  - exact Hp.
  - intros Hnil. apply app_eq_nil in Hnil as [_ Hnil]. discriminate.
  - apply Forall_app. split; [|repeat constructor; exact Hq].
    destruct Hlv as [Hlv| ->]; [|constructor].
    destruct (Hall _ Hlv) as (_ & _ & Hpos). exact Hpos.
Qed.

Lemma remove_from_levels_live i p m m' :
  remove_from_levels i p m = Some m' ->
  Forall level_live m -> Forall level_live m'.
Proof.
  unfold remove_from_levels, remove_order.
  destruct (map_find p m) as [lv|] eqn:Hfind; [|discriminate].
  destruct (erase_first i (orders_ lv)) as [[r os']|] eqn:Her; [|discriminate].
  intros [= <-] Hall.
  apply erase_first_spec in Her as (l1 & l2 & Hos & -> & Hid).
  apply map_find_split in Hfind as (m1 & m2 & -> & Hst & Hers).
  apply Forall_app in Hall as [H1 H2].
  apply Forall_cons in H2 as [(Hk & _ & Hq) H2]. simpl in *.
  destruct (level_empty _) eqn:Hemp.
  - rewrite Hers. apply Forall_app. auto.
  - rewrite Hst. apply Forall_app. split; [exact H1|].
    constructor; [|exact H2]. split_and!; simpl.
    + exact Hk.
    + intros Hnil. unfold level_empty in Hemp. simpl in Hemp.
      rewrite Hnil in Hemp. discriminate.
    + rewrite Hos in Hq. apply Forall_app in Hq as [Hq1 Hq2].
      apply Forall_cons in Hq2 as [_ Hq2]. apply Forall_app. auto.
Qed.

Lemma book_live_empty : book_live empty_book.
Proof. split; constructor. Qed.

Lemma book_live_add o b : book_live b -> book_live (snd (add_limit_order o b)).
Proof.
  intros [Hb Hs]. unfold add_limit_order, is_valid_price, is_valid_quantity.
  destruct (Z.ltb_spec 0 (Order.price o)) as [Hp|]; [|split; assumption].
  destruct (Z.ltb_spec 0 (Order.quantity o)) as [Hq|]; [|split; assumption].
  simpl. unfold add_limit_order_to_side, book_live. simpl.
  destruct (Order.side o); split; auto using map_update_live.
Qed.

Lemma book_live_market side q taker ts b :
  book_live b -> book_live (snd (add_market_order side q taker ts b)).
Proof.
  intros [Hb Hs].
  unfold add_market_order, match_market_order_buy, match_market_order_sell.
  destruct side.
  - destruct (match_levels taker ts (sell_levels_ b) (enter_match q b))
      as [sells st] eqn:Hrun.
    apply match_levels_account in Hrun as (T & V & _ & _ & _ & _ & _ & Hlive & _).
    destruct (Hlive Hs) as [Hs' _]. split; simpl; assumption.
  - destruct (match_levels taker ts (buy_levels_ b) (enter_match q b))
      as [buys st] eqn:Hrun.
    apply match_levels_account in Hrun as (T & V & _ & _ & _ & _ & _ & Hlive & _).
    destruct (Hlive Hb) as [Hb' _]. split; simpl; assumption.
Qed.

Lemma book_live_cancel i b : book_live b -> book_live (snd (cancel_order i b)).
Proof.
  intros [Hb Hs]. unfold cancel_order.
  destruct (order_lookup_ b !! i) as [[p s]|]; [|split; assumption].
  simpl. unfold remove_order_from_side. destruct s.
  - destruct (remove_from_levels i p (buy_levels_ b)) as [buys|] eqn:Hrm;
      [|split; assumption].
    split; simpl; [eapply remove_from_levels_live; eauto | exact Hs].
  - destruct (remove_from_levels i p (sell_levels_ b)) as [sells|] eqn:Hrm;
      [|split; assumption].
    split; simpl; [exact Hb | eapply remove_from_levels_live; eauto].
Qed.

Lemma book_live_apply_op b op : book_live b -> book_live (apply_op b op).
Proof.
  destruct op; simpl;
    auto using book_live_add, book_live_market, book_live_cancel, book_live_empty.
Qed.

Lemma book_live_run_from ops : forall b, book_live b -> book_live (run_from b ops).
Proof.
  induction ops as [|op ops IH]; simpl; auto using book_live_apply_op.
Qed.

Lemma book_live_run ops : book_live (run ops).
Proof. apply book_live_run_from, book_live_empty. Qed.

Lemma levels_live b s : book_live b -> Forall level_live (levels_of s b).
Proof. intros [Hb Hs]. destruct s; assumption. Qed.

(** *** The volume counter stays a 64-bit value *)

Lemma add_market_order_volume_ranged side q taker ts b :
  in_int64 (total_volume b) ->
  in_int64 (total_volume (snd (add_market_order side q taker ts b))).
Proof.
  intros Hr.
  unfold add_market_order, match_market_order_buy, match_market_order_sell.
  destruct side.
  - destruct (match_levels taker ts (sell_levels_ b) (enter_match q b))
      as [sells st] eqn:Hrun.
    apply match_levels_account in Hrun as (T & V & _ & _ & _ & _ & _ & _ & Hvol & _).
    destruct (Hvol Hr) as [Hr' _]. exact Hr'.
  - destruct (match_levels taker ts (buy_levels_ b) (enter_match q b))
      as [buys st] eqn:Hrun.
    apply match_levels_account in Hrun as (T & V & _ & _ & _ & _ & _ & _ & Hvol & _).
    destruct (Hvol Hr) as [Hr' _]. exact Hr'.
Qed.

Lemma in_int64_0 : in_int64 0.
Proof. unfold in_int64, INT64_MIN, INT64_MAX. lia. Qed.

Lemma volume_ranged_apply_op b op :
  in_int64 (total_volume b) -> in_int64 (total_volume (apply_op b op)).
Proof.
  intros Hr. destruct op as [o|side q taker ts|i|]; simpl.
  - unfold add_limit_order.
    destruct (negb _ || negb _); simpl; exact Hr.
  - apply add_market_order_volume_ranged. exact Hr.
  - unfold cancel_order. destruct (order_lookup_ b !! i) as [[p s]|]; [|exact Hr].
    simpl. unfold remove_order_from_side.
    destruct s; destruct (remove_from_levels _ _ _); simpl; exact Hr.
  - exact in_int64_0.
Qed.

Lemma volume_ranged_run_from ops : forall b,
  in_int64 (total_volume b) -> in_int64 (total_volume (run_from b ops)).
Proof.
  induction ops as [|op ops IH]; simpl; auto using volume_ranged_apply_op.
Qed.

Lemma volume_ranged_run ops : in_int64 (total_volume (run ops)).
Proof. apply volume_ranged_run_from, in_int64_0. Qed.

(** *** Level sums on live levels *)

Lemma live_queue_sum_pos k lv : level_live (k, lv) -> 0 < queue_sum (orders_ lv).
Proof.
  intros (_ & Hne & Hq). simpl in *. destruct (orders_ lv) as [|o os]; [congruence|].
  apply Forall_cons in Hq as [Ho Hq]. simpl.
  pose proof (queue_sum_nonneg _ Hq). lia.
Qed.

(** On a live level the maintained sum is the sum of the residuals as soon
    as that sum is a value of [Qty]. *)
Lemma level_total_exact s k lv :
  level_ok s (k, lv) -> level_live (k, lv) ->
  queue_sum (orders_ lv) <= INT64_MAX ->
  total_quantity_ lv = queue_sum (orders_ lv).
Proof.
  intros [_ Hq] Hlive Hmax. simpl in Hq. rewrite Hq. apply int64_wrap_small.
  pose proof (live_queue_sum_pos k lv Hlive).
  unfold INT64_MIN, INT64_MAX in *. lia.
Qed.

(** ** The claims *)

Lemma market_trades_follow side q taker ts b :
  trades_follow (levels_of (opposite side) b)
    (fst (add_market_order side q taker ts b)).
Proof.
  unfold add_market_order, match_market_order_buy, match_market_order_sell.
  destruct side; simpl.
  - destruct (match_levels taker ts (sell_levels_ b) (enter_match q b))
      as [sells st] eqn:Hrun.
    apply match_levels_spec in Hrun as (C & T & _ & Htr & Hfol & _).
    simpl in *. rewrite Htr. exact Hfol.
  - destruct (match_levels taker ts (buy_levels_ b) (enter_match q b))
      as [buys st] eqn:Hrun.
    apply match_levels_spec in Hrun as (C & T & _ & Htr & Hfol & _).
    simpl in *. rewrite Htr. exact Hfol.
Qed.

Lemma levels_ok b s : book_inv b -> Forall (level_ok s) (levels_of s b).
Proof.
  intros Hinv. destruct s; simpl; [apply inv_buys_ok | apply inv_sells_ok]; auto.
Qed.

Lemma levels_NoDup b s : book_inv b -> NoDup (keys (levels_of s b)).
Proof.
  intros Hinv. destruct s; simpl.
  - eapply (sorted_NoDup Z.gt gt_irrefl), inv_buys_sorted; eauto.
  - eapply (sorted_NoDup Z.lt lt_irrefl), inv_sells_sorted; eauto.
Qed.

(** C1 (evaluation of the code on scenario S4).  From the post-state of S1,
    whose only resting order is Sell id=1 at 10002 with residual 20, the
    event Limit(id=10, Buy, 10005, 15, ts=1100) returns one trade whose maker
    is the incoming order itself, at its own limit price 10005; the resting
    ask is not touched and the best ask keeps quantity 20. *)
Theorem marketable_limit_matches_own_side :
  resting_orders (order_book_ S1_engine) = [Order.mk 1 SELL 10002 20 1000]
  /\ fst (process_event S4_event S1_engine) = [Trade.mk 10 10 10005 15 1100]
  /\ best_ask_price (order_book_ (snd (process_event S4_event S1_engine)))
     = Some 10002
  /\ best_ask_quantity (order_book_ (snd (process_event S4_event S1_engine)))
     = Some 20.
Proof. vm_compute. repeat split; reflexivity. Qed.

(** C2 (evaluation of the code on the calls of the test TradeStatistics).
    A market buy of 50 against a resting sell of 100 returns one trade of
    quantity 50, counts it in trade_count and last_trade_price, and leaves
    total_volume at 0: the partial-fill branch adds remaining_qty after
    setting it to zero. *)
Theorem partial_fill_skips_total_volume :
  emitted statistics_ops = [Trade.mk 1 2 10002 50 1001]
  /\ sum_quantity (emitted statistics_ops) = 50
  /\ total_volume (run statistics_ops) = 0
  /\ trade_count (run statistics_ops) = 1
  /\ last_trade_price (run statistics_ops) = 10002.
Proof. vm_compute. repeat split; reflexivity. Qed.

(** C3 as stated fails: the order [duplicate_order] has positive price and
    quantity and an id that is a key of the lookup index of the book, and
    add_limit_order does not return (false, unchanged book) for it: it
    returns true and the order rests. *)
Lemma add_limit_order_admits_duplicate_id :
  is_Some (order_lookup_ (run single_bid_ops) !! Order.id duplicate_order)
  /\ add_limit_order duplicate_order (run single_bid_ops)
     <> (false, run single_bid_ops)
  /\ fst (add_limit_order duplicate_order (run single_bid_ops)) = true
  /\ resting_orders (snd (add_limit_order duplicate_order (run single_bid_ops)))
     = [Order.mk 1 BUY 100 10 1; duplicate_order].
Proof.
  split_and!.
  - exists (100, BUY). vm_compute. reflexivity.
  - intros H. apply (f_equal fst) in H. vm_compute in H. discriminate.
  - vm_compute. reflexivity.
  - vm_compute. reflexivity.
Qed.

(** C3 (amended): for every book state and every order, add_limit_order
    returns false and leaves the whole book unchanged whenever
    order.price <= 0 or order.quantity <= 0. *)
Theorem add_limit_order_rejects_malformed b order :
  Order.price order <= 0 \/ Order.quantity order <= 0 ->
  add_limit_order order b = (false, b).
Proof.
  intros H. unfold add_limit_order, is_valid_price, is_valid_quantity.
  destruct (Z.ltb_spec 0 (Order.price order)); [|reflexivity].
  destruct (Z.ltb_spec 0 (Order.quantity order)); [lia | reflexivity].
Qed.

Lemma add_limit_order_rejects_malformed_witness :
  add_limit_order (Order.mk 7 SELL 0 10 3) (run two_bids_ops)
  = (false, run two_bids_ops).
Proof.
  apply (add_limit_order_rejects_malformed (run two_bids_ops) (Order.mk 7 SELL 0 10 3)).
  left. simpl. lia.
Defined.

(** Orders with positive price and quantity are always admitted. *)
Lemma add_limit_order_admits_valid b order :
  0 < Order.price order -> 0 < Order.quantity order ->
  fst (add_limit_order order b) = true.
Proof.
  intros Hp Hq. unfold add_limit_order, is_valid_price, is_valid_quantity.
  destruct (Z.ltb_spec 0 (Order.price order)); [|lia].
  destruct (Z.ltb_spec 0 (Order.quantity order)); [reflexivity | lia].
Qed.



(** The sum of two valid bids of INT64_MAX at one price is not a value of
    [Qty]: the level's total_quantity is -2 and not the sum of the
    residuals. *)
Lemma level_total_wraps :
  fst (add_limit_order (Order.mk 2 BUY 100 INT64_MAX 2)
         (run [OpAddLimit (Order.mk 1 BUY 100 INT64_MAX 1)])) = true
  /\ best_bid_quantity (run overflow_ops) = Some (-2)
  /\ resting_quantity BUY (run overflow_ops) = 2 * INT64_MAX.
Proof. vm_compute. auto. Qed.

(** What holds of the indices on every reachable book, reused ids or not:
    every key of by_id is the id of a resting order, size() is the number of
    resting orders, and the level sums are the 64-bit values of the sums of
    the residuals. *)
Lemma index_soundness ops :
  (forall i, i ∈ dom (order_lookup_ (run ops)) ->
             i ∈ Order.id <$> resting_orders (run ops))
  /\ size (run ops) = size_t_of_nat (length (resting_orders (run ops)))
  /\ forall s p lv, (p, lv) ∈ levels_of s (run ops) ->
       total_quantity_ lv = int64_wrap (queue_sum (orders_ lv)).
Proof.
  pose proof (book_inv_run ops) as Hinv. split_and!.
  - intros i Hi. apply elem_of_dom in Hi as [[p s] Hi].
    destruct (inv_lookup _ Hinv i p s Hi) as (o & Hin & Hid & _).
    apply list_elem_of_fmap. exists o. split; [auto|].
    unfold resting_orders. apply elem_of_app. destruct s; auto.
  - exact (inv_count _ Hinv).
  - intros s p lv Hin. pose proof (levels_ok _ s Hinv) as Hall.
    rewrite Forall_forall in Hall. destruct (Hall _ Hin) as [_ Hq]. exact Hq.
Qed.



(** C5: after the engine has processed any sequence of events from the empty
    book, the bid side is empty, or the ask side is empty, or
    best_bid_price < best_ask_price. *)
Theorem no_crossed_book events :
  not_crossed (order_book_ (snd (process_events events new_engine))).
Proof.
  apply uncrossed_not_crossed.
  apply (process_events_inv events new_engine). split.
  - exact book_inv_empty.
  - intros bid ask Hbid _. inversion Hbid.
Qed.

(** C6: every trade returned by add_market_order on a reachable book has the
    price at which its maker was admitted: the maker is an order resting on
    the opposite side, and the admitted order it stems from (same id, side,
    price and timestamp) carries the trade's price. *)
Theorem trade_price_is_maker_price ops side quantity taker_id timestamp t :
  t ∈ fst (add_market_order side quantity taker_id timestamp (run ops)) ->
  exists maker admitted_as,
    maker ∈ side_orders (levels_of (opposite side) (run ops))
    /\ Order.id maker = Trade.maker_id t
    /\ admitted_as ∈ admitted ops
    /\ tag admitted_as = tag maker
    /\ Trade.price t = Order.price admitted_as.
Proof.
  intros Hin.
  pose proof (book_inv_run ops) as Hinv.
  destruct (trades_follow_maker _ _ (market_trades_follow _ _ _ _ _) t Hin)
    as (lv & o & Hlv & Ho & Hid).
  pose proof (levels_ok _ (opposite side) Hinv) as Hall.
  rewrite Forall_forall in Hall. destruct (Hall _ Hlv) as [Hk _].
  rewrite Forall_forall in Hk. destruct (Hk o Ho) as [Hprice _]. simpl in Hprice.
  pose proof (history_inv_run ops (opposite side) _ lv Hlv) as Hsub.
  assert (Ht : tag o ∈ tag <$> admitted ops).
  { eapply elem_of_sublist; [|exact Hsub]. apply list_elem_of_fmap_2. exact Ho. }
  apply list_elem_of_fmap in Ht as (a & Ha & Hain).
  exists o, a. split_and!.
  - apply side_orders_elem. eauto.
  - exact Hid.
  - exact Hain.
  - symmetry. exact Ha.
  - change (Trade.price t = tag_price (tag a)). rewrite <- Ha.
    symmetry. exact Hprice.
Qed.

Lemma trade_price_is_maker_price_witness :
  exists maker admitted_as,
    maker ∈ side_orders (levels_of (opposite BUY) (run two_asks_ops))
    /\ Order.id maker = Trade.maker_id (Trade.mk 2 3 10003 30 5)
    /\ admitted_as ∈ admitted two_asks_ops
    /\ tag admitted_as = tag maker
    /\ Trade.price (Trade.mk 2 3 10003 30 5) = Order.price admitted_as.
Proof.
  apply (trade_price_is_maker_price two_asks_ops BUY 70 3 5).
  vm_compute. apply list_elem_of_further, list_elem_of_here.
Defined.

(** C7: in the trade list of one add_market_order call on a reachable book,
    an earlier trade is at a price no worse for the aggressor than a later
    one (ask prices do not decrease for a Buy, bid prices do not increase for
    a Sell); when two trades have the same price, their makers stand in the
    queue of that price level with the earlier trade's maker in front, and
    the earlier trade's maker was admitted, that is appended to the queue,
    before the later one's. *)
Theorem price_time_priority ops side quantity taker_id timestamp i j ti tj :
  fst (add_market_order side quantity taker_id timestamp (run ops)) !! i = Some ti ->
  fst (add_market_order side quantity taker_id timestamp (run ops)) !! j = Some tj ->
  (i < j)%nat ->
  match side with
  | BUY => Trade.price ti <= Trade.price tj
  | SELL => Trade.price tj <= Trade.price ti
  end
  /\ (Trade.price ti = Trade.price tj ->
      exists lv mi mj oi oj ai aj admitted_i admitted_j,
        map_find (Trade.price ti) (levels_of (opposite side) (run ops)) = Some lv
        /\ orders_ lv !! mi = Some oi /\ orders_ lv !! mj = Some oj
        /\ (mi < mj)%nat
        /\ Order.id oi = Trade.maker_id ti /\ Order.id oj = Trade.maker_id tj
        /\ admitted ops !! ai = Some admitted_i
        /\ admitted ops !! aj = Some admitted_j
        /\ (ai < aj)%nat
        /\ tag admitted_i = tag oi /\ tag admitted_j = tag oj).
Proof.
  intros Hi Hj Hij.
  pose proof (book_inv_run ops) as Hinv.
  pose proof (market_trades_follow side quantity taker_id timestamp (run ops)) as Hfol.
  assert (Hpair :
    (match side with
     | BUY => Trade.price ti < Trade.price tj
     | SELL => Trade.price ti > Trade.price tj
     end)
    \/ (Trade.price ti = Trade.price tj
        /\ exists lv mi mj oi oj,
             (Trade.price ti, lv) ∈ levels_of (opposite side) (run ops)
             /\ orders_ lv !! mi = Some oi /\ orders_ lv !! mj = Some oj
             /\ (mi < mj)%nat
             /\ Order.id oi = Trade.maker_id ti
             /\ Order.id oj = Trade.maker_id tj)).
  { destruct side; simpl in Hfol |- *.
    - apply (trades_follow_pair Z.lt _ _ lt_irrefl (inv_sells_sorted _ Hinv) Hfol
               i j ti tj Hij Hi Hj).
    - apply (trades_follow_pair Z.gt _ _ gt_irrefl (inv_buys_sorted _ Hinv) Hfol
               i j ti tj Hij Hi Hj). }
  split.
  - destruct Hpair as [Hlt|[Heq _]]; destruct side; lia.
  - intros Heq.
    destruct Hpair as [Hlt|(_ & lv & mi & mj & oi & oj & Hlv & Hoi & Hoj & Hm & Hidi & Hidj)];
      [destruct side; lia|].
    pose proof (history_inv_run ops (opposite side) _ lv Hlv) as Hsub.
    destruct (sublist_lookup_pair _ _ Hsub mi mj (tag oi) (tag oj) Hm)
      as (ai & aj & Ha & Hai & Haj).
    { rewrite list_lookup_fmap, Hoi. reflexivity. }
    { rewrite list_lookup_fmap, Hoj. reflexivity. }
    apply list_lookup_fmap_Some in Hai as (a_i & Hai & Hti).
    apply list_lookup_fmap_Some in Haj as (a_j & Haj & Htj).
    exists lv, mi, mj, oi, oj, ai, aj, a_i, a_j.
    split_and!; auto.
    apply elem_map_find; [apply levels_NoDup; exact Hinv | exact Hlv].
Qed.

Lemma price_time_priority_witness :
  Trade.price (Trade.mk 2 3 10000 20 9) <= Trade.price (Trade.mk 1 3 10000 50 9)
  /\ (Trade.price (Trade.mk 1 3 10000 50 9) = Trade.price (Trade.mk 2 3 10000 20 9) ->
      exists lv mi mj oi oj ai aj admitted_i admitted_j,
        map_find (Trade.price (Trade.mk 1 3 10000 50 9))
          (levels_of (opposite SELL) (run two_bids_ops)) = Some lv
        /\ orders_ lv !! mi = Some oi /\ orders_ lv !! mj = Some oj
        /\ (mi < mj)%nat
        /\ Order.id oi = Trade.maker_id (Trade.mk 1 3 10000 50 9)
        /\ Order.id oj = Trade.maker_id (Trade.mk 2 3 10000 20 9)
        /\ admitted two_bids_ops !! ai = Some admitted_i
        /\ admitted two_bids_ops !! aj = Some admitted_j
        /\ (ai < aj)%nat
        /\ tag admitted_i = tag oi /\ tag admitted_j = tag oj).
Proof.
  apply (price_time_priority two_bids_ops SELL 70 3 9 0 1
           (Trade.mk 1 3 10000 50 9) (Trade.mk 2 3 10000 20 9)).
  - vm_compute. reflexivity.
  - vm_compute. reflexivity.
  - lia.
Defined.

(** C8: on every reachable book, when cancel_order(id) returns true, a second
    cancel_order(id) returns false and leaves the book as the first call
    left it. *)
Theorem cancel_order_twice ops order_id :
  fst (cancel_order order_id (run ops)) = true ->
  cancel_order order_id (snd (cancel_order order_id (run ops)))
  = (false, snd (cancel_order order_id (run ops))).
Proof.
  intros Hfirst.
  pose proof (cancel_order_erases order_id (run ops) (book_inv_run ops) Hfirst) as Hgone.
  unfold cancel_order at 1. rewrite Hgone. reflexivity.
Qed.

Lemma cancel_order_twice_witness :
  cancel_order 1 (snd (cancel_order 1 (run two_bids_ops)))
  = (false, snd (cancel_order 1 (run two_bids_ops))).
Proof. apply (cancel_order_twice two_bids_ops 1). vm_compute. reflexivity. Defined.

(** C9: when the side opposite to the aggressor has no level,
    add_market_order returns no trade and leaves the book (both level maps,
    the lookup index, all counters) unchanged; this holds in every book
    state, reachable or not. *)
Theorem market_order_empty_opposite b side quantity taker_id timestamp :
  levels_of (opposite side) b = [] ->
  add_market_order side quantity taker_id timestamp b = ([], b).
Proof.
  intros Hempty. destruct b. simpl in Hempty.
  unfold add_market_order, match_market_order_buy, match_market_order_sell.
  destruct side; simpl in *; subst; reflexivity.
Qed.

Lemma market_order_empty_opposite_witness :
  add_market_order BUY 100 3 7 (run two_bids_ops) = ([], run two_bids_ops).
Proof.
  apply (market_order_empty_opposite (run two_bids_ops) BUY 100 3 7).
  vm_compute. reflexivity.
Defined.

(** C10: for every quantity <= 0, add_market_order returns no trade and
    leaves the book (both level maps, the lookup index, order count,
    last_trade_price, total_volume, trade_count) unchanged; this holds in
    every book state, reachable or not. *)
Theorem market_order_nonpositive_quantity b side quantity taker_id timestamp :
  quantity <= 0 ->
  add_market_order side quantity taker_id timestamp b = ([], b).
Proof.
  intros Hq. destruct b.
  unfold add_market_order, match_market_order_buy, match_market_order_sell.
  destruct side; rewrite match_levels_done by (simpl; lia); reflexivity.
Qed.

Lemma market_order_nonpositive_quantity_witness :
  add_market_order SELL 0 3 7 (run two_bids_ops) = ([], run two_bids_ops).
Proof.
  apply (market_order_nonpositive_quantity (run two_bids_ops) SELL 0 3 7). lia.
Defined.

(** * Further properties *)

(** ** Resting levels *)

(** X1: on every reachable book, every level of either side has a positive
    key and a non-empty queue, and every order in it has a positive residual
    quantity, the level's key as price and the level's side. *)
Theorem resting_levels_well_formed ops s :
  Forall (fun kl =>
            0 < kl.1 /\ orders_ kl.2 <> []
            /\ Forall (fun o => 0 < Order.quantity o
                                /\ Order.price o = kl.1 /\ Order.side o = s)
                 (orders_ kl.2))
    (levels_of s (run ops)).
Proof.
  pose proof (levels_live _ s (book_live_run ops)) as Hlive.
  pose proof (levels_ok _ s (book_inv_run ops)) as Hok.
  rewrite Forall_forall in Hlive, Hok |- *.
  intros kl Hin. destruct (Hlive kl Hin) as (Hk & Hne & Hq).
  destruct (Hok kl Hin) as [Hps _].
  split_and!; [exact Hk | exact Hne |].
  rewrite Forall_forall in Hq, Hps |- *. intros o Ho.
  destruct (Hps o Ho). auto.
Qed.

Lemma sorted_head_bound (R : relation Z) k (lv : OrderBookPriceLevel) m :
  StronglySorted R (keys ((k, lv) :: m)) -> Forall (R k) (keys m).
Proof. unfold keys. simpl. intros Hs. apply StronglySorted_inv in Hs. tauto. Qed.

(** X2: on every reachable book, best_bid_price is the highest bid key.  The
    residual quantities of the orders queued at that price have a positive
    sum, and best_bid_quantity is the 64-bit (two's-complement) value of that
    sum: the sum itself whenever it is at most INT64_MAX. *)
Theorem best_bid_is_highest ops p :
  best_bid_price (run ops) = Some p ->
  Forall (fun k => k <= p) (keys (buy_levels_ (run ops)))
  /\ exists lv,
       map_find p (buy_levels_ (run ops)) = Some lv
       /\ 0 < queue_sum (orders_ lv)
       /\ best_bid_quantity (run ops) = Some (int64_wrap (queue_sum (orders_ lv)))
       /\ (queue_sum (orders_ lv) <= INT64_MAX ->
           best_bid_quantity (run ops) = Some (queue_sum (orders_ lv))).
Proof.
  pose proof (inv_buys_sorted _ (book_inv_run ops)) as Hs.
  pose proof (inv_buys_ok _ (book_inv_run ops)) as Hok.
  destruct (book_live_run ops) as [Hlive _].
  unfold best_bid_price, best_bid_quantity.
  destruct (buy_levels_ (run ops)) as [|[k lv] rest]; [discriminate|].
  intros [= ->]. split.
  - pose proof (sorted_head_bound _ _ _ _ Hs) as Hall.
    unfold keys. simpl. constructor; [lia|].
    eapply Forall_impl; [exact Hall|]. simpl. intros; lia.
  - exists lv. simpl. rewrite Z.eqb_refl.
    apply Forall_cons in Hok as [Hlv _]. apply Forall_cons in Hlive as [Hl _].
    split_and!.
    + reflexivity.
    + eapply live_queue_sum_pos; eauto.
    + destruct Hlv as [_ Hq]. simpl in Hq. rewrite Hq. reflexivity.
    + intros Hmax. f_equal. eapply level_total_exact; eauto.
Qed.

Lemma best_bid_is_highest_witness :
  Forall (fun k => k <= 10000) (keys (buy_levels_ (run two_bids_ops)))
  /\ exists lv,
       map_find 10000 (buy_levels_ (run two_bids_ops)) = Some lv
       /\ 0 < queue_sum (orders_ lv)
       /\ best_bid_quantity (run two_bids_ops)
          = Some (int64_wrap (queue_sum (orders_ lv)))
       /\ (queue_sum (orders_ lv) <= INT64_MAX ->
           best_bid_quantity (run two_bids_ops) = Some (queue_sum (orders_ lv))).
Proof. apply (best_bid_is_highest two_bids_ops 10000). reflexivity. Defined.

(** X3: on every reachable book, best_ask_price is the lowest ask key.  The
    residual quantities of the orders queued at that price have a positive
    sum, and best_ask_quantity is the 64-bit (two's-complement) value of that
    sum: the sum itself whenever it is at most INT64_MAX. *)
Theorem best_ask_is_lowest ops p :
  best_ask_price (run ops) = Some p ->
  Forall (fun k => p <= k) (keys (sell_levels_ (run ops)))
  /\ exists lv,
       map_find p (sell_levels_ (run ops)) = Some lv
       /\ 0 < queue_sum (orders_ lv)
       /\ best_ask_quantity (run ops) = Some (int64_wrap (queue_sum (orders_ lv)))
       /\ (queue_sum (orders_ lv) <= INT64_MAX ->
           best_ask_quantity (run ops) = Some (queue_sum (orders_ lv))).
Proof.
  pose proof (inv_sells_sorted _ (book_inv_run ops)) as Hs.
  pose proof (inv_sells_ok _ (book_inv_run ops)) as Hok.
  destruct (book_live_run ops) as [_ Hlive].
  unfold best_ask_price, best_ask_quantity.
  destruct (sell_levels_ (run ops)) as [|[k lv] rest]; [discriminate|].
  intros [= ->]. split.
  - pose proof (sorted_head_bound _ _ _ _ Hs) as Hall.
    unfold keys. simpl. constructor; [lia|].
    eapply Forall_impl; [exact Hall|]. simpl. intros; lia.
  - exists lv. simpl. rewrite Z.eqb_refl.
    apply Forall_cons in Hok as [Hlv _]. apply Forall_cons in Hlive as [Hl _].
    split_and!.
    + reflexivity.
    + eapply live_queue_sum_pos; eauto.
    + destruct Hlv as [_ Hq]. simpl in Hq. rewrite Hq. reflexivity.
    + intros Hmax. f_equal. eapply level_total_exact; eauto.
Qed.

Lemma best_ask_is_lowest_witness :
  Forall (fun k => 10002 <= k) (keys (sell_levels_ (run two_asks_ops)))
  /\ exists lv,
       map_find 10002 (sell_levels_ (run two_asks_ops)) = Some lv
       /\ 0 < queue_sum (orders_ lv)
       /\ best_ask_quantity (run two_asks_ops)
          = Some (int64_wrap (queue_sum (orders_ lv)))
       /\ (queue_sum (orders_ lv) <= INT64_MAX ->
           best_ask_quantity (run two_asks_ops) = Some (queue_sum (orders_ lv))).
Proof. apply (best_ask_is_lowest two_asks_ops 10002). reflexivity. Defined.

(** ** Market orders *)

(** What one call of [add_market_order] does, in terms of the walk over the
    opposite side. *)
Lemma add_market_order_walk side q taker ts b :
  exists m' st',
    match_levels taker ts (levels_of (opposite side) b) (enter_match q b) = (m', st')
    /\ fst (add_market_order side q taker ts b) = trades st'
    /\ levels_of (opposite side) (snd (add_market_order side q taker ts b)) = m'
    /\ levels_of side (snd (add_market_order side q taker ts b)) = levels_of side b
    /\ total_volume (snd (add_market_order side q taker ts b)) = ms_total_volume st'
    /\ trade_count (snd (add_market_order side q taker ts b)) = ms_trade_count st'
    /\ last_trade_price (snd (add_market_order side q taker ts b))
       = ms_last_trade_price st'.
Proof.
  unfold add_market_order, match_market_order_buy, match_market_order_sell.
  destruct side; simpl.
  - destruct (match_levels taker ts (sell_levels_ b) (enter_match q b))
      as [m' st'].
    exists m', st'. split_and!; reflexivity.
  - destruct (match_levels taker ts (buy_levels_ b) (enter_match q b))
      as [m' st'].
    exists m', st'. split_and!; reflexivity.
Qed.

Lemma live_nonempty_sum_pos m :
  Forall level_live m -> m <> [] -> 0 < queue_sum (side_orders m).
Proof.
  intros Hall Hne. destruct m as [|[k lv] rest]; [congruence|].
  apply Forall_cons in Hall as [Hl Hall]. simpl. rewrite queue_sum_app.
  pose proof (live_queue_sum_pos _ _ Hl).
  pose proof (queue_sum_nonneg _ (side_orders_pos _ Hall)). lia.
Qed.

(** X4: on every reachable book, a market order for a positive quantity
    fills exactly the smaller of the requested quantity and the quantity
    resting on the opposite side; the opposite side loses exactly the filled
    quantity and the aggressor's own side is left as it was. *)
Theorem market_order_fills ops side quantity taker_id timestamp :
  0 < quantity ->
  sum_quantity (fst (add_market_order side quantity taker_id timestamp (run ops)))
  = Z.min quantity (resting_quantity (opposite side) (run ops))
  /\ resting_quantity (opposite side)
       (snd (add_market_order side quantity taker_id timestamp (run ops)))
     = resting_quantity (opposite side) (run ops)
       - sum_quantity (fst (add_market_order side quantity taker_id timestamp (run ops)))
  /\ levels_of side (snd (add_market_order side quantity taker_id timestamp (run ops)))
     = levels_of side (run ops).
Proof.
  intros Hq.
  destruct (add_market_order_walk side quantity taker_id timestamp (run ops))
    as (m' & st' & Hrun & HT & Hopp & Hown & _).
  pose proof (levels_live _ (opposite side) (book_live_run ops)) as Hlive.
  apply match_levels_account in Hrun
    as (T & V & Htr & Hrem & Hsum & _ & Hnn & Hpos & _ & _ & _ & _ & Hexit).
  simpl in Htr, Hrem, Hnn. destruct (Hpos Hlive) as (Hlive' & _ & _).
  unfold resting_quantity. rewrite Hopp, HT, Htr.
  pose proof (queue_sum_nonneg _ (side_orders_pos _ Hlive')) as Hge.
  specialize (Hnn ltac:(lia)).
  split_and!; [|lia|exact Hown].
  destruct Hexit as [Hdone| ->]; [lia|]. simpl in Hsum. lia.
Qed.

Lemma market_order_fills_witness :
  sum_quantity (fst (add_market_order BUY 70 3 9 (run two_asks_ops)))
  = Z.min 70 (resting_quantity (opposite BUY) (run two_asks_ops))
  /\ resting_quantity (opposite BUY)
       (snd (add_market_order BUY 70 3 9 (run two_asks_ops)))
     = resting_quantity (opposite BUY) (run two_asks_ops)
       - sum_quantity (fst (add_market_order BUY 70 3 9 (run two_asks_ops)))
  /\ levels_of BUY (snd (add_market_order BUY 70 3 9 (run two_asks_ops)))
     = levels_of BUY (run two_asks_ops).
Proof. apply (market_order_fills two_asks_ops BUY 70 3 9). lia. Defined.

(** X5: every trade returned by add_market_order on a reachable book carries
    the taker id and the timestamp of the call and has a positive
    quantity. *)
Theorem market_trades_well_formed ops side quantity taker_id timestamp :
  Forall (fun t => Trade.taker_id t = taker_id
                   /\ Trade.timestamp t = timestamp
                   /\ 0 < Trade.quantity t)
    (fst (add_market_order side quantity taker_id timestamp (run ops))).
Proof.
  destruct (add_market_order_walk side quantity taker_id timestamp (run ops))
    as (m' & st' & Hrun & HT & _).
  pose proof (levels_live _ (opposite side) (book_live_run ops)) as Hlive.
  apply match_levels_account in Hrun
    as (T & V & Htr & _ & _ & Hfld & _ & Hpos & _).
  destruct (Hpos Hlive) as (_ & Hqty & _).
  rewrite HT, Htr. simpl.
  rewrite Forall_forall in Hfld, Hqty |- *. intros t Ht.
  destruct (Hfld t Ht). auto.
Qed.

Lemma trade_count_in_range ops :
  exists n, trade_count (run ops) = size_t_wrap n.
Proof.
  unfold run. assert (H0 : exists n, trade_count empty_book = size_t_wrap n)
    by (exists 0; reflexivity).
  revert H0. generalize empty_book. induction ops as [|op ops IH]; intros b Hb;
    [exact Hb|].
  simpl. apply IH. destruct op; simpl.
  - unfold add_limit_order. destruct (negb _ || negb _); exact Hb.
  - destruct (add_market_order_walk side quantity taker_id timestamp b)
      as (m' & st' & Hrun & _ & _ & _ & _ & Htc & _).
    apply match_levels_account in Hrun
      as (T & V & _ & _ & _ & _ & _ & _ & _ & _ & Hcnt & _).
    destruct Hb as [n Hn]. rewrite Htc. eexists. apply Hcnt. exact Hn.
  - unfold cancel_order. destruct (order_lookup_ b !! order_id) as [[p s]|];
      [|exact Hb].
    simpl. unfold remove_order_from_side.
    destruct s; destruct (remove_from_levels _ _ _); exact Hb.
  - exists 0. reflexivity.
Qed.

(** X6: on every reachable book, add_market_order raises trade_count by the
    number of trades it returns (as a size_t) and sets last_trade_price to
    the price of the last returned trade (leaving it when there is none).
    total_volume becomes the 64-bit (two's-complement) value of
    total_volume + filled for some filled between 0 and the returned
    quantity; so it is not lowered, nor raised by more than the returned
    quantity, whenever total_volume plus the returned quantity is at most
    INT64_MAX. *)
Theorem market_order_counters ops side quantity taker_id timestamp :
  trade_count (snd (add_market_order side quantity taker_id timestamp (run ops)))
  = size_t_wrap
      (trade_count (run ops)
       + Z.of_nat (length (fst (add_market_order side quantity taker_id
                                  timestamp (run ops)))))
  /\ last_trade_price
       (snd (add_market_order side quantity taker_id timestamp (run ops)))
     = last_price (last_trade_price (run ops))
         (fst (add_market_order side quantity taker_id timestamp (run ops)))
  /\ (exists filled,
        0 <= filled
        <= sum_quantity (fst (add_market_order side quantity taker_id
                                timestamp (run ops)))
        /\ total_volume
             (snd (add_market_order side quantity taker_id timestamp (run ops)))
           = int64_wrap (total_volume (run ops) + filled))
  /\ (total_volume (run ops)
      + sum_quantity (fst (add_market_order side quantity taker_id
                             timestamp (run ops))) <= INT64_MAX ->
      total_volume (run ops)
      <= total_volume
           (snd (add_market_order side quantity taker_id timestamp (run ops)))
      <= total_volume (run ops)
         + sum_quantity
             (fst (add_market_order side quantity taker_id timestamp (run ops)))).
Proof.
  destruct (add_market_order_walk side quantity taker_id timestamp (run ops))
    as (m' & st' & Hrun & HT & _ & _ & Hvol & Htc & Hltp).
  pose proof (levels_live _ (opposite side) (book_live_run ops)) as Hlive.
  pose proof (volume_ranged_run ops) as Hrange.
  apply match_levels_account in Hrun
    as (T & V & Htr & _ & _ & _ & _ & Hpos & Hwrap & _ & Hcnt & Hlast & _).
  destruct (Hpos Hlive) as (_ & _ & Hbound).
  destruct (Hwrap Hrange) as [_ Hv].
  simpl in Htr, Hlast, Hcnt, Hbound, Hv.
  rewrite HT, Htr, Hvol, Htc, Hltp. simpl. split_and!.
  - destruct (trade_count_in_range ops) as [n Hn].
    unfold trade_count in *. rewrite (Hcnt n Hn), Hn.
    unfold size_t_wrap. rewrite Zplus_mod_idemp_l. reflexivity.
  - exact Hlast.
  - exists V. split; [exact Hbound | exact Hv].
  - intros Hmax. rewrite Hv. unfold total_volume in *.
    rewrite int64_wrap_small; [lia|].
    unfold in_int64, INT64_MIN, INT64_MAX in *. lia.
Qed.

(** X7: on every reachable book, a market order for at least the quantity
    resting on the opposite side empties that side and fills all of it;
    total_volume becomes the 64-bit (two's-complement) value of total_volume
    plus that quantity, which is their sum whenever the sum is at most
    INT64_MAX. *)
Theorem market_order_sweeps ops side quantity taker_id timestamp :
  0 < quantity ->
  resting_quantity (opposite side) (run ops) <= quantity ->
  levels_of (opposite side)
    (snd (add_market_order side quantity taker_id timestamp (run ops))) = []
  /\ sum_quantity (fst (add_market_order side quantity taker_id timestamp (run ops)))
     = resting_quantity (opposite side) (run ops)
  /\ total_volume
       (snd (add_market_order side quantity taker_id timestamp (run ops)))
     = int64_wrap
         (total_volume (run ops) + resting_quantity (opposite side) (run ops))
  /\ (total_volume (run ops) + resting_quantity (opposite side) (run ops)
      <= INT64_MAX ->
      total_volume
        (snd (add_market_order side quantity taker_id timestamp (run ops)))
      = total_volume (run ops) + resting_quantity (opposite side) (run ops)).
Proof.
  intros Hq Hle.
  destruct (add_market_order_walk side quantity taker_id timestamp (run ops))
    as (m' & st' & Hrun & HT & Hopp & _ & Hvol & _).
  pose proof (levels_live _ (opposite side) (book_live_run ops)) as Hlive.
  pose proof (volume_ranged_run ops) as Hrange.
  pose proof (queue_sum_nonneg _ (side_orders_pos _ Hlive)) as Hge.
  apply match_levels_account in Hrun
    as (T & V & Htr & Hrem & Hsum & _ & Hnn & Hpos & Hwrap & Hexact & _ & _ & Hexit).
  simpl in Htr, Hrem, Hnn, Hexact. destruct (Hpos Hlive) as (Hlive' & _ & _).
  destruct (Hwrap Hrange) as [_ Hv]. simpl in Hv.
  unfold resting_quantity in *. rewrite Hopp, HT, Htr, Hvol. simpl.
  assert (Hnil : m' = []).
  { destruct Hexit as [Hdone|Hnil]; [|exact Hnil].
    destruct m' as [|kl rest]; [reflexivity|].
    assert (0 < queue_sum (side_orders (kl :: rest)))
      by (apply live_nonempty_sum_pos; [exact Hlive' | discriminate]).
    lia. }
  rewrite Hnil in Hsum |- *. simpl in Hsum.
  assert (HV : V = queue_sum (side_orders (levels_of (opposite side) (run ops))))
    by (rewrite (Hexact Hnil); lia).
  rewrite Hv, HV. unfold total_volume in *.
  split_and!; [reflexivity | lia | reflexivity |].
  intros Hmax. apply int64_wrap_small.
  unfold in_int64, INT64_MIN, INT64_MAX in *. lia.
Qed.

Lemma market_order_sweeps_witness :
  levels_of (opposite SELL) (snd (add_market_order SELL 200 3 9 (run two_bids_ops))) = []
  /\ sum_quantity (fst (add_market_order SELL 200 3 9 (run two_bids_ops)))
     = resting_quantity (opposite SELL) (run two_bids_ops)
  /\ total_volume (snd (add_market_order SELL 200 3 9 (run two_bids_ops)))
     = int64_wrap (total_volume (run two_bids_ops)
                   + resting_quantity (opposite SELL) (run two_bids_ops))
  /\ (total_volume (run two_bids_ops)
      + resting_quantity (opposite SELL) (run two_bids_ops) <= INT64_MAX ->
      total_volume (snd (add_market_order SELL 200 3 9 (run two_bids_ops)))
      = total_volume (run two_bids_ops)
        + resting_quantity (opposite SELL) (run two_bids_ops)).
Proof.
  apply (market_order_sweeps two_bids_ops SELL 200 3 9).
  - lia.
  - vm_compute. discriminate.
Defined.


(** ** Lookup by id, admission and cancellation *)

Lemma find_order_spec i : forall os o,
  find_order i os = Some o -> o ∈ os /\ Order.id o = i.
Proof.
  induction os as [|x os IH]; simpl; intros o H; [discriminate|].
  destruct (N.eqb_spec (Order.id x) i) as [Heq|Hne].
  - inversion H; subst. split; [apply elem_of_cons; auto | reflexivity].
  - destruct (IH o H). split; [apply elem_of_cons; auto | assumption].
Qed.

Lemma find_order_found i o : forall os,
  o ∈ os -> Order.id o = i -> is_Some (find_order i os).
Proof.
  induction os as [|x os IH]; simpl; intros Hin Hid; [inversion Hin|].
  destruct (N.eqb_spec (Order.id x) i) as [Heq|Hne]; [eauto|].
  apply elem_of_cons in Hin as [->|Hin]; [congruence | auto].
Qed.

Lemma erase_first_find i : forall os r os',
  erase_first i os = Some (r, os') -> find_order i os = Some r.
Proof.
  induction os as [|x os IH]; simpl; intros r os' H; [discriminate|].
  destruct (N.eqb (Order.id x) i); [congruence|].
  destruct (erase_first i os) as [[r0 rest']|]; [|discriminate].
  inversion H; subst. eauto.
Qed.

Lemma find_order_snoc o : forall os,
  Order.id o ∉ Order.id <$> os -> find_order (Order.id o) (os ++ [o]) = Some o.
Proof.
  induction os as [|x os IH]; intros Hnot.
  - simpl. rewrite N.eqb_refl. reflexivity.
  - rewrite fmap_cons in Hnot. apply not_elem_of_cons in Hnot as [Hne Hnot].
    simpl. destruct (N.eqb_spec (Order.id x) (Order.id o)); [congruence | auto].
Qed.

Lemma erase_first_snoc o : forall os,
  Order.id o ∉ Order.id <$> os ->
  erase_first (Order.id o) (os ++ [o]) = Some (o, os).
Proof.
  induction os as [|x os IH]; intros Hnot.
  - simpl. rewrite N.eqb_refl. reflexivity.
  - rewrite fmap_cons in Hnot. apply not_elem_of_cons in Hnot as [Hne Hnot].
    simpl. destruct (N.eqb_spec (Order.id x) (Order.id o)); [congruence|].
    rewrite (IH Hnot). reflexivity.
Qed.

(** The level [m[price]] hands to [f]: an entry of [m] under that key, or a
    fresh level. *)
Lemma map_find_update before p f : forall m,
  exists lv0,
    map_find p (map_update before p f m) = Some (f lv0)
    /\ (lv0 = new_level \/ (p, lv0) ∈ m).
Proof.
  induction m as [|[k lv] rest IH]; simpl.
  - exists new_level. rewrite Z.eqb_refl. auto.
  - destruct (Z.eqb_spec p k) as [->|Hne].
    + exists lv. simpl. rewrite Z.eqb_refl. split; [reflexivity|].
      right. apply elem_of_cons; auto.
    + destruct (before p k); simpl.
      * exists new_level. rewrite Z.eqb_refl. auto.
      * destruct (Z.eqb_spec p k); [congruence|].
        destruct IH as (lv0 & Hf & Hlv0). exists lv0. split; [exact Hf|].
        destruct Hlv0; [auto | right; apply elem_of_cons; auto].
Qed.

Lemma remove_from_levels_cons_ne i p k lv m :
  p <> k ->
  remove_from_levels i p ((k, lv) :: m)
  = cons (k, lv) <$> remove_from_levels i p m.
Proof.
  intros Hne. unfold remove_from_levels. simpl.
  destruct (Z.eqb_spec p k); [congruence|].
  destruct (map_find p m) as [lv0|]; [|reflexivity].
  destruct (remove_order i lv0) as [[r lv']|]; [|reflexivity].
  simpl. destruct (level_empty lv'); reflexivity.
Qed.

Lemma levels_ranged b s :
  book_inv b -> Forall (fun kl => in_int64 (total_quantity_ kl.2)) (levels_of s b).
Proof.
  intros Hinv. eapply Forall_impl; [apply (levels_ok b s Hinv)|].
  intros kl [_ Hq]. rewrite Hq. apply in_int64_wrap.
Qed.

(** Taking out the order that [m[price].add_order(o)] has just appended
    gives the map back: the 64-bit sum returns to the value it had. *)
Lemma remove_after_update before o : forall m,
  Forall level_live m ->
  Forall (fun kl => in_int64 (total_quantity_ kl.2)) m ->
  (forall lv, (Order.price o, lv) ∈ m -> Order.id o ∉ Order.id <$> orders_ lv) ->
  remove_from_levels (Order.id o) (Order.price o)
    (map_update before (Order.price o) (add_order o) m) = Some m.
Proof.
  induction m as [|[k lv] rest IH]; intros Hlive Hrange Hnot; simpl.
  - unfold remove_from_levels, remove_order. simpl.
    rewrite ?Z.eqb_refl. simpl. rewrite ?N.eqb_refl. simpl.
    rewrite ?Z.eqb_refl. reflexivity.
  - apply Forall_cons in Hlive as [(Hk & Hne & Hq) Hlive]. simpl in Hne.
    apply Forall_cons in Hrange as [Hr Hrange]. simpl in Hr.
    destruct (Z.eqb_spec (Order.price o) k) as [Heq|Hneq].
    + unfold remove_from_levels, remove_order. simpl.
      rewrite Heq, Z.eqb_refl. simpl.
      rewrite erase_first_snoc
        by (apply Hnot; rewrite Heq; apply elem_of_cons; auto).
      unfold level_empty. simpl.
      destruct (orders_ lv) as [|x xs] eqn:Hos; [congruence|].
      rewrite ?Z.eqb_refl. do 3 f_equal.
      destruct lv as [os tq]. simpl in *. subst os. f_equal.
      rewrite int64_wrap_sub_l.
      replace (tq + Order.quantity o - Order.quantity o) with tq by lia.
      apply int64_wrap_small. exact Hr.
    + destruct (before (Order.price o) k).
      * unfold remove_from_levels, remove_order. simpl.
        rewrite ?Z.eqb_refl. simpl. rewrite ?N.eqb_refl. simpl.
        rewrite ?Z.eqb_refl. reflexivity.
      * rewrite remove_from_levels_cons_ne by exact Hneq.
        rewrite IH; [reflexivity | exact Hlive | exact Hrange |].
        intros lv0 Hin. apply Hnot. apply elem_of_cons; auto.
Qed.

Lemma level_orders_rest b s p lv o :
  (p, lv) ∈ levels_of s b -> o ∈ orders_ lv -> o ∈ resting_orders b.
Proof.
  intros Hlv Ho. unfold resting_orders. apply elem_of_app.
  destruct s; [left | right]; apply side_orders_elem; eauto.
Qed.

(** An id without an entry in the lookup index is the id of no resting
    order, when ids were never reused while resting. *)
Lemma fresh_id_not_resting ops i :
  ids_fresh ops = true -> order_lookup_ (run ops) !! i = None ->
  forall s p lv, (p, lv) ∈ levels_of s (run ops) -> i ∉ Order.id <$> orders_ lv.
Proof.
  intros Hfresh Hnone s p lv Hlv Hin.
  pose proof (unique_inv_run_from ops empty_book unique_inv_empty Hfresh) as Hu.
  fold (run ops) in Hu.
  apply list_elem_of_fmap in Hin as (o & -> & Ho).
  rewrite (uniq_lookup _ Hu o (level_orders_rest _ _ _ _ _ Hlv Ho)) in Hnone.
  discriminate.
Qed.

(** X8: on every reachable book, an order returned by get_order(id) has that
    id, rests in the book, and by_id records its price and side. *)
Theorem get_order_returns_resting ops order_id o :
  get_order order_id (run ops) = Some o ->
  Order.id o = order_id
  /\ o ∈ resting_orders (run ops)
  /\ order_lookup_ (run ops) !! order_id = Some (Order.price o, Order.side o).
Proof.
  unfold get_order. intros Hget.
  destruct (order_lookup_ (run ops) !! order_id) as [[p s]|] eqn:Hi; [|discriminate].
  assert (Hlv : exists lv, map_find p (levels_of s (run ops)) = Some lv
                           /\ find_order order_id (orders_ lv) = Some o).
  { destruct s; simpl;
      [destruct (map_find p (buy_levels_ (run ops))) as [lv|]
      |destruct (map_find p (sell_levels_ (run ops))) as [lv|]];
      try discriminate; eauto. }
  destruct Hlv as (lv & Hfind & Hfo).
  apply find_order_spec in Hfo as [Ho Hid]. apply map_find_elem in Hfind.
  pose proof (levels_ok _ s (book_inv_run ops)) as Hok.
  rewrite Forall_forall in Hok. destruct (Hok _ Hfind) as [Hps _].
  rewrite Forall_forall in Hps. destruct (Hps o Ho) as [Hp Hs]. simpl in Hp.
  split_and!; [exact Hid | eapply level_orders_rest; eauto | congruence].
Qed.

Lemma get_order_returns_resting_witness :
  Order.id (Order.mk 2 BUY 10000 60 2) = 2%N
  /\ Order.mk 2 BUY 10000 60 2 ∈ resting_orders (run two_bids_ops)
  /\ order_lookup_ (run two_bids_ops) !! 2%N
     = Some (Order.price (Order.mk 2 BUY 10000 60 2),
             Order.side (Order.mk 2 BUY 10000 60 2)).
Proof.
  apply (get_order_returns_resting two_bids_ops 2 (Order.mk 2 BUY 10000 60 2)).
  vm_compute. reflexivity.
Defined.

(** X9: on every reachable book, get_order(id) finds an order exactly when
    id is a key of by_id. *)
Theorem get_order_iff_indexed ops order_id :
  is_Some (get_order order_id (run ops))
  <-> is_Some (order_lookup_ (run ops) !! order_id).
Proof.
  unfold get_order. split.
  - destruct (order_lookup_ (run ops) !! order_id); [eauto|].
    intros [? ?]. discriminate.
  - intros [[p s] Hi]. rewrite Hi.
    destruct (lookup_finds_level _ _ _ _ (book_inv_run ops) Hi)
      as (lv & o & Hfind & Ho & Hid).
    destruct s; simpl in Hfind; rewrite Hfind; eapply find_order_found; eauto.
Qed.

(** X10: when ids are never reused while resting, an order with positive
    price and quantity and an id that is not in by_id is returned by
    get_order right after its admission, with its full quantity. *)
Theorem get_order_after_admission ops order :
  ids_fresh ops = true ->
  order_lookup_ (run ops) !! Order.id order = None ->
  0 < Order.price order -> 0 < Order.quantity order ->
  get_order (Order.id order) (snd (add_limit_order order (run ops))) = Some order.
Proof.
  intros Hfresh Hnone Hp Hq.
  pose proof (fresh_id_not_resting ops _ Hfresh Hnone) as Hnot.
  unfold add_limit_order, is_valid_price, is_valid_quantity.
  destruct (Z.ltb_spec 0 (Order.price order)); [|lia].
  destruct (Z.ltb_spec 0 (Order.quantity order)); [|lia].
  simpl. unfold get_order, add_limit_order_to_side. simpl.
  rewrite lookup_insert_eq.
  destruct (Order.side order) eqn:Hside.
  - destruct (map_find_update Z.gtb (Order.price order) (add_order order)
                (buy_levels_ (run ops))) as (lv0 & -> & Hlv0).
    simpl. apply find_order_snoc.
    destruct Hlv0 as [->|Hin]; [simpl; apply not_elem_of_nil|].
    apply (Hnot BUY _ _ Hin).
  - destruct (map_find_update Z.ltb (Order.price order) (add_order order)
                (sell_levels_ (run ops))) as (lv0 & -> & Hlv0).
    simpl. apply find_order_snoc.
    destruct Hlv0 as [->|Hin]; [simpl; apply not_elem_of_nil|].
    apply (Hnot SELL _ _ Hin).
Qed.

Lemma get_order_after_admission_witness :
  get_order (Order.id (Order.mk 3 BUY 10000 5 7))
    (snd (add_limit_order (Order.mk 3 BUY 10000 5 7) (run two_bids_ops)))
  = Some (Order.mk 3 BUY 10000 5 7).
Proof.
  apply (get_order_after_admission two_bids_ops (Order.mk 3 BUY 10000 5 7));
    [vm_compute; reflexivity | vm_compute; reflexivity | simpl; lia | simpl; lia].
Defined.

Lemma order_count_in_range ops :
  size_t_wrap (order_count_ (run ops)) = order_count_ (run ops).
Proof.
  rewrite (inv_count _ (book_inv_run ops)). unfold size_t_of_nat, size_t_wrap.
  apply Zmod_mod.
Qed.

(** X11: when ids are never reused while resting, admitting an order with
    positive price and quantity under an id that is not in by_id and then
    cancelling that id gives back the book as it was: level maps, lookup
    index and all counters. *)
Theorem admit_then_cancel_restores ops order :
  ids_fresh ops = true ->
  order_lookup_ (run ops) !! Order.id order = None ->
  0 < Order.price order -> 0 < Order.quantity order ->
  cancel_order (Order.id order) (snd (add_limit_order order (run ops)))
  = (true, run ops).
Proof.
  intros Hfresh Hnone Hp Hq.
  pose proof (fresh_id_not_resting ops _ Hfresh Hnone) as Hnot.
  destruct (book_live_run ops) as [Hlb Hls].
  pose proof (levels_ranged _ BUY (book_inv_run ops)) as Hrb.
  pose proof (levels_ranged _ SELL (book_inv_run ops)) as Hrs.
  pose proof (order_count_in_range ops) as Hcnt.
  unfold add_limit_order, is_valid_price, is_valid_quantity.
  destruct (Z.ltb_spec 0 (Order.price order)); [|lia].
  destruct (Z.ltb_spec 0 (Order.quantity order)); [|lia].
  simpl. unfold cancel_order, add_limit_order_to_side. simpl.
  rewrite lookup_insert_eq. f_equal.
  unfold remove_order_from_side. simpl.
  destruct (run ops) as [buys sells lk cnt ltp vol tc]. simpl in *.
  destruct (Order.side order).
  - rewrite (remove_after_update Z.gtb order buys Hlb Hrb (Hnot BUY _)).
    f_equal.
    + apply delete_insert_id. exact Hnone.
    + rewrite size_t_wrap_pred. replace (cnt + 1 - 1) with cnt by lia. exact Hcnt.
  - rewrite (remove_after_update Z.ltb order sells Hls Hrs (Hnot SELL _)).
    f_equal.
    + apply delete_insert_id. exact Hnone.
    + rewrite size_t_wrap_pred. replace (cnt + 1 - 1) with cnt by lia. exact Hcnt.
Qed.

Lemma admit_then_cancel_restores_witness :
  cancel_order (Order.id (Order.mk 3 SELL 10010 5 7))
    (snd (add_limit_order (Order.mk 3 SELL 10010 5 7) (run two_bids_ops)))
  = (true, run two_bids_ops).
Proof.
  apply (admit_then_cancel_restores two_bids_ops (Order.mk 3 SELL 10010 5 7));
    [vm_compute; reflexivity | vm_compute; reflexivity | simpl; lia | simpl; lia].
Defined.


Lemma remove_from_levels_get i p m m' :
  remove_from_levels i p m = Some m' ->
  exists lv r l1 l2,
    map_find p m = Some lv
    /\ find_order i (orders_ lv) = Some r
    /\ side_orders m = l1 ++ r :: l2
    /\ side_orders m' = l1 ++ l2.
Proof.
  unfold remove_from_levels, remove_order.
  destruct (map_find p m) as [lv|] eqn:Hfind; [|discriminate].
  destruct (erase_first i (orders_ lv)) as [[r os']|] eqn:Her; [|discriminate].
  intros [= <-]. pose proof (erase_first_find _ _ _ _ Her) as Hfo.
  apply erase_first_spec in Her as (l1 & l2 & Hos & -> & Hid).
  pose proof Hfind as Hsplit.
  apply map_find_split in Hsplit as (m1 & m2 & -> & Hst & Hers).
  exists lv, r, (side_orders m1 ++ l1), (l2 ++ side_orders m2).
  split_and!; [reflexivity | exact Hfo | |].
  - rewrite side_orders_app. simpl. rewrite Hos, <- !app_assoc. reflexivity.
  - destruct (level_empty _) eqn:Hemp.
    + apply level_empty_true in Hemp. simpl in Hemp.
      apply app_eq_nil in Hemp as [-> ->].
      rewrite Hers, side_orders_app, app_nil_r. reflexivity.
    + rewrite Hst, side_orders_app. simpl. rewrite <- !app_assoc. reflexivity.
Qed.

(** X12: on every reachable book, a cancel_order(id) that returns true takes
    out exactly the order get_order(id) reports, keeps every other resting
    order with its place and residual, erases id from by_id and leaves
    last_trade_price, total_volume and trade_count as they were. *)
Theorem cancel_order_removes_one ops order_id :
  fst (cancel_order order_id (run ops)) = true ->
  exists removed before after,
    get_order order_id (run ops) = Some removed
    /\ resting_orders (run ops) = before ++ removed :: after
    /\ resting_orders (snd (cancel_order order_id (run ops))) = before ++ after
    /\ order_lookup_ (snd (cancel_order order_id (run ops)))
       = delete order_id (order_lookup_ (run ops))
    /\ last_trade_price (snd (cancel_order order_id (run ops)))
       = last_trade_price (run ops)
    /\ total_volume (snd (cancel_order order_id (run ops))) = total_volume (run ops)
    /\ trade_count (snd (cancel_order order_id (run ops))) = trade_count (run ops).
Proof.
  unfold cancel_order, get_order.
  destruct (order_lookup_ (run ops) !! order_id) as [[p s]|] eqn:Hi; [|discriminate].
  intros _. simpl.
  destruct (lookup_finds_level _ _ _ _ (book_inv_run ops) Hi)
    as (lv & o & Hfind & Ho & Hid).
  destruct (remove_from_levels_found order_id p _ lv o Hfind Ho Hid) as [m' Hm'].
  destruct (remove_from_levels_get _ _ _ _ Hm')
    as (lv1 & r & l1 & l2 & Hfind1 & Hfo & Hold & Hnew).
  unfold remove_order_from_side, resting_orders.
  destruct s; simpl in Hm', Hfind1, Hold; rewrite Hm', Hfind1; simpl.
  - exists r, l1, (l2 ++ side_orders (sell_levels_ (run ops))).
    rewrite Hold, Hnew, <- !app_assoc. split_and!; reflexivity || exact Hfo.
  - exists r, (side_orders (buy_levels_ (run ops)) ++ l1), l2.
    rewrite Hold, Hnew, <- !app_assoc. split_and!; reflexivity || exact Hfo.
Qed.

Lemma cancel_order_removes_one_witness :
  exists removed before after,
    get_order 1 (run two_bids_ops) = Some removed
    /\ resting_orders (run two_bids_ops) = before ++ removed :: after
    /\ resting_orders (snd (cancel_order 1 (run two_bids_ops))) = before ++ after
    /\ order_lookup_ (snd (cancel_order 1 (run two_bids_ops)))
       = delete 1%N (order_lookup_ (run two_bids_ops))
    /\ last_trade_price (snd (cancel_order 1 (run two_bids_ops)))
       = last_trade_price (run two_bids_ops)
    /\ total_volume (snd (cancel_order 1 (run two_bids_ops)))
       = total_volume (run two_bids_ops)
    /\ trade_count (snd (cancel_order 1 (run two_bids_ops)))
       = trade_count (run two_bids_ops).
Proof. apply (cancel_order_removes_one two_bids_ops 1). vm_compute. reflexivity. Defined.

(** X13: in every book state, admitting an order with positive price and
    quantity adds exactly that order to the resting orders, at the back of
    the queue of its price on its side, leaves the other side as it was, and
    makes the best price of its side the better of the old best price and
    the order's price (the higher for a Buy, the lower for a Sell). *)
Theorem admission_effect b order :
  0 < Order.price order -> 0 < Order.quantity order ->
  resting_orders (snd (add_limit_order order b)) ≡ₚ order :: resting_orders b
  /\ (exists lv,
        map_find (Order.price order)
          (levels_of (Order.side order) (snd (add_limit_order order b))) = Some lv
        /\ last (orders_ lv) = Some order)
  /\ levels_of (opposite (Order.side order)) (snd (add_limit_order order b))
     = levels_of (opposite (Order.side order)) b
  /\ match Order.side order with
     | BUY =>
         best_bid_price (snd (add_limit_order order b))
         = Some (match best_bid_price b with
                 | Some best => Z.max best (Order.price order)
                 | None => Order.price order
                 end)
     | SELL =>
         best_ask_price (snd (add_limit_order order b))
         = Some (match best_ask_price b with
                 | Some best => Z.min best (Order.price order)
                 | None => Order.price order
                 end)
     end.
Proof.
  intros Hp Hq. unfold add_limit_order, is_valid_price, is_valid_quantity.
  destruct (Z.ltb_spec 0 (Order.price order)); [|lia].
  destruct (Z.ltb_spec 0 (Order.quantity order)); [|lia].
  simpl. unfold add_limit_order_to_side, resting_orders. simpl.
  destruct (Order.side order); simpl.
  - split_and!.
    + rewrite (map_update_orders Z.gtb). reflexivity.
    + destruct (map_find_update Z.gtb (Order.price order) (add_order order)
                  (buy_levels_ b)) as (lv0 & Hf & _).
      eexists. split; [exact Hf|]. simpl. apply last_snoc.
    + reflexivity.
    + unfold best_bid_price. simpl.
      destruct (buy_levels_ b) as [|[k lv] rest]; simpl; [reflexivity|].
      destruct (Z.eqb_spec (Order.price order) k); simpl; [f_equal; lia|].
      destruct (Z.gtb_spec (Order.price order) k); simpl; f_equal; lia.
  - split_and!.
    + rewrite (map_update_orders Z.ltb), <- Permutation_middle. reflexivity.
    + destruct (map_find_update Z.ltb (Order.price order) (add_order order)
                  (sell_levels_ b)) as (lv0 & Hf & _).
      eexists. split; [exact Hf|]. simpl. apply last_snoc.
    + reflexivity.
    + unfold best_ask_price. simpl.
      destruct (sell_levels_ b) as [|[k lv] rest]; simpl; [reflexivity|].
      destruct (Z.eqb_spec (Order.price order) k); simpl; [f_equal; lia|].
      destruct (Z.ltb_spec (Order.price order) k); simpl; f_equal; lia.
Qed.

Lemma admission_effect_witness :
  resting_orders (snd (add_limit_order (Order.mk 3 BUY 10001 5 7) (run two_bids_ops)))
    ≡ₚ Order.mk 3 BUY 10001 5 7 :: resting_orders (run two_bids_ops)
  /\ (exists lv,
        map_find (Order.price (Order.mk 3 BUY 10001 5 7))
          (levels_of (Order.side (Order.mk 3 BUY 10001 5 7))
             (snd (add_limit_order (Order.mk 3 BUY 10001 5 7) (run two_bids_ops))))
        = Some lv
        /\ last (orders_ lv) = Some (Order.mk 3 BUY 10001 5 7))
  /\ levels_of (opposite (Order.side (Order.mk 3 BUY 10001 5 7)))
       (snd (add_limit_order (Order.mk 3 BUY 10001 5 7) (run two_bids_ops)))
     = levels_of (opposite (Order.side (Order.mk 3 BUY 10001 5 7))) (run two_bids_ops)
  /\ match Order.side (Order.mk 3 BUY 10001 5 7) with
     | BUY =>
         best_bid_price (snd (add_limit_order (Order.mk 3 BUY 10001 5 7) (run two_bids_ops)))
         = Some (match best_bid_price (run two_bids_ops) with
                 | Some best => Z.max best (Order.price (Order.mk 3 BUY 10001 5 7))
                 | None => Order.price (Order.mk 3 BUY 10001 5 7)
                 end)
     | SELL =>
         best_ask_price (snd (add_limit_order (Order.mk 3 BUY 10001 5 7) (run two_bids_ops)))
         = Some (match best_ask_price (run two_bids_ops) with
                 | Some best => Z.min best (Order.price (Order.mk 3 BUY 10001 5 7))
                 | None => Order.price (Order.mk 3 BUY 10001 5 7)
                 end)
     end.
Proof.
  apply (admission_effect (run two_bids_ops) (Order.mk 3 BUY 10001 5 7));
    simpl; lia.
Defined.

(** ** OrderBookPriceLevel *)

Lemma erase_first_first i : forall os r os',
  erase_first i os = Some (r, os') ->
  exists l1 l2, os = l1 ++ r :: l2 /\ os' = l1 ++ l2 /\ Order.id r = i
                /\ i ∉ Order.id <$> l1.
Proof.
  induction os as [|o os IH]; simpl; intros r os' H; [discriminate|].
  destruct (N.eqb_spec (Order.id o) i) as [Heq|Hne].
  - inversion H; subst. exists [], os'. split_and!; auto. apply not_elem_of_nil.
  - destruct (erase_first i os) as [[r0 rest']|] eqn:He; [|discriminate].
    inversion H; subst. destruct (IH _ _ eq_refl) as (l1 & l2 & -> & -> & Hid & Hnot).
    exists (o :: l1), l2. split_and!; auto.
    rewrite fmap_cons. apply not_elem_of_cons. auto.
Qed.

Lemma erase_first_none i : forall os,
  erase_first i os = None -> i ∉ Order.id <$> os.
Proof.
  induction os as [|o os IH]; intros H; [apply not_elem_of_nil|].
  simpl in H.
  destruct (N.eqb_spec (Order.id o) i) as [Heq|Hne]; [discriminate|].
  destruct (erase_first i os) as [[r0 rest']|]; [discriminate|].
  rewrite fmap_cons. apply not_elem_of_cons. auto.
Qed.

(** X14: remove_order(id) on a price level fails exactly when no queued
    order has that id; otherwise it takes out the first order with that id,
    keeps the others in their order, and lowers total_quantity by the removed
    order's quantity (the difference is formed in 64 bits). *)
Theorem remove_order_first_match order_id lv :
  match remove_order order_id lv with
  | Some (removed, lv') =>
      exists before after,
        orders_ lv = before ++ removed :: after
        /\ orders_ lv' = before ++ after
        /\ Order.id removed = order_id
        /\ (order_id ∉ Order.id <$> before)
        /\ total_quantity_ lv'
           = int64_wrap (total_quantity_ lv - Order.quantity removed)
  | None => order_id ∉ (Order.id <$> orders_ lv)
  end.
Proof.
  unfold remove_order.
  destruct (erase_first order_id (orders_ lv)) as [[r os']|] eqn:He.
  - apply erase_first_first in He as (l1 & l2 & Hos & -> & Hid & Hnot).
    exists l1, l2. auto.
  - apply erase_first_none. exact He.
Qed.


(** ** Depth snapshot *)

Lemma depth_walk_take entry n : forall m,
  depth_walk entry n m = (fun kl => entry kl.1 (total_quantity_ kl.2)) <$> take n m.
Proof.
  induction n as [|n IH]; intros [|[k lv] rest]; simpl; try reflexivity.
  rewrite IH. reflexivity.
Qed.

Lemma take_keys n (m : LevelMap) : keys (take n m) `sublist_of` keys m.
Proof. unfold keys. rewrite fmap_take. apply sublist_take. Qed.

(** One side of the depth snapshot of a reachable book. *)
Lemma depth_side ops s n (entry : Z -> Z -> PriceLevel.t) :
  (forall k q, PriceLevel.price (entry k q) = k) ->
  let side_entries := depth_walk entry n (levels_of s (run ops)) in
  length side_entries = Nat.min n (length (levels_of s (run ops)))
  /\ PriceLevel.price <$> side_entries = keys (take n (levels_of s (run ops)))
  /\ Forall (fun e => exists lv,
               map_find (PriceLevel.price e) (levels_of s (run ops)) = Some lv
               /\ 0 < queue_sum (orders_ lv)
               /\ e = entry (PriceLevel.price e) (int64_wrap (queue_sum (orders_ lv)))
               /\ (queue_sum (orders_ lv) <= INT64_MAX ->
                   e = entry (PriceLevel.price e) (queue_sum (orders_ lv))))
       side_entries.
Proof.
  intros Hentry. simpl. rewrite depth_walk_take. split_and!.
  - rewrite length_fmap, length_take. reflexivity.
  - unfold keys. rewrite <- list_fmap_compose. apply list_fmap_ext.
    intros i [k lv] _. simpl. apply Hentry.
  - apply Forall_fmap, Forall_forall. intros [k lv] Hin. simpl.
    assert (Hin' : (k, lv) ∈ levels_of s (run ops)).
    { eapply elem_of_sublist; [exact Hin | apply sublist_take]. }
    pose proof (levels_ok _ s (book_inv_run ops)) as Hok.
    pose proof (levels_live _ s (book_live_run ops)) as Hlive.
    rewrite Forall_forall in Hok, Hlive.
    destruct (Hok _ Hin') as [_ Hq]. simpl in Hq.
    exists lv. rewrite Hentry. split_and!.
    + apply elem_map_find; [apply levels_NoDup, book_inv_run | exact Hin'].
    + eapply live_queue_sum_pos, Hlive. exact Hin'.
    + rewrite Hq. reflexivity.
    + intros Hmax. f_equal. eapply level_total_exact; eauto.
Qed.

(** X15: on every reachable book and for 0 <= levels < 2^30 (so that the
    int product levels * 2 is formed without overflow), get_depth(levels)
    returns min(levels, number of bid levels) bid entries in strictly
    decreasing price followed by min(levels, number of ask levels) ask
    entries in strictly increasing price.  Each entry carries, on its own
    side, the 64-bit (two's-complement) value of the positive sum of the
    residual quantities queued at its price, which is that sum whenever the
    sum is at most INT64_MAX, and 0 on the other side. *)
Theorem get_depth_shape ops levels :
  0 <= levels < 2 ^ 30 ->
  exists bids asks,
    get_depth levels (run ops) = Some (bids ++ asks)
    /\ length bids = Nat.min (Z.to_nat levels) (length (buy_levels_ (run ops)))
    /\ length asks = Nat.min (Z.to_nat levels) (length (sell_levels_ (run ops)))
    /\ StronglySorted Z.gt (PriceLevel.price <$> bids)
    /\ StronglySorted Z.lt (PriceLevel.price <$> asks)
    /\ Forall (fun e => exists lv,
                 map_find (PriceLevel.price e) (buy_levels_ (run ops)) = Some lv
                 /\ 0 < queue_sum (orders_ lv)
                 /\ e = PriceLevel.mk (PriceLevel.price e)
                          (int64_wrap (queue_sum (orders_ lv))) 0
                 /\ (queue_sum (orders_ lv) <= INT64_MAX ->
                     e = PriceLevel.mk (PriceLevel.price e)
                           (queue_sum (orders_ lv)) 0))
         bids
    /\ Forall (fun e => exists lv,
                 map_find (PriceLevel.price e) (sell_levels_ (run ops)) = Some lv
                 /\ 0 < queue_sum (orders_ lv)
                 /\ e = PriceLevel.mk (PriceLevel.price e) 0
                          (int64_wrap (queue_sum (orders_ lv)))
                 /\ (queue_sum (orders_ lv) <= INT64_MAX ->
                     e = PriceLevel.mk (PriceLevel.price e) 0
                           (queue_sum (orders_ lv))))
         asks.
Proof.
  intros Hlevels. unfold get_depth.
  assert (Hprod : int_wrap (levels * 2) = levels * 2).
  { unfold int_wrap. rewrite Z.mod_small; lia. }
  rewrite Hprod. destruct (Z.ltb_spec (levels * 2) 0); [lia|].
  destruct (depth_side ops BUY (Z.to_nat levels)
              (fun price qty => PriceLevel.mk price qty 0) (fun _ _ => eq_refl))
    as (Hlb & Hkb & Hfb).
  destruct (depth_side ops SELL (Z.to_nat levels)
              (fun price qty => PriceLevel.mk price 0 qty) (fun _ _ => eq_refl))
    as (Hls & Hks & Hfs).
  simpl in *. eexists _, _. split_and!; [reflexivity | exact Hlb | exact Hls | | | exact Hfb | exact Hfs].
  - rewrite Hkb. eapply StronglySorted_sublist; [apply take_keys|].
    apply inv_buys_sorted, book_inv_run.
  - rewrite Hks. eapply StronglySorted_sublist; [apply take_keys|].
    apply inv_sells_sorted, book_inv_run.
Qed.

Lemma get_depth_shape_witness :
  exists bids asks,
    get_depth 1 (run two_asks_ops) = Some (bids ++ asks)
    /\ length bids = Nat.min (Z.to_nat 1) (length (buy_levels_ (run two_asks_ops)))
    /\ length asks = Nat.min (Z.to_nat 1) (length (sell_levels_ (run two_asks_ops)))
    /\ StronglySorted Z.gt (PriceLevel.price <$> bids)
    /\ StronglySorted Z.lt (PriceLevel.price <$> asks)
    /\ Forall (fun e => exists lv,
                 map_find (PriceLevel.price e) (buy_levels_ (run two_asks_ops)) = Some lv
                 /\ 0 < queue_sum (orders_ lv)
                 /\ e = PriceLevel.mk (PriceLevel.price e)
                          (int64_wrap (queue_sum (orders_ lv))) 0
                 /\ (queue_sum (orders_ lv) <= INT64_MAX ->
                     e = PriceLevel.mk (PriceLevel.price e)
                           (queue_sum (orders_ lv)) 0))
         bids
    /\ Forall (fun e => exists lv,
                 map_find (PriceLevel.price e) (sell_levels_ (run two_asks_ops)) = Some lv
                 /\ 0 < queue_sum (orders_ lv)
                 /\ e = PriceLevel.mk (PriceLevel.price e) 0
                          (int64_wrap (queue_sum (orders_ lv)))
                 /\ (queue_sum (orders_ lv) <= INT64_MAX ->
                     e = PriceLevel.mk (PriceLevel.price e) 0
                           (queue_sum (orders_ lv))))
         asks.
Proof. apply (get_depth_shape two_asks_ops 1). lia. Defined.

(** ** The engine *)

Lemma process_events_split events1 : forall events2 e,
  process_events (events1 ++ events2) e
  = (fst (process_events events1 e)
       ++ fst (process_events events2 (snd (process_events events1 e))),
     snd (process_events events2 (snd (process_events events1 e)))).
Proof.
  induction events1 as [|ev events1 IH]; intros events2 e; simpl.
  - destruct (process_events events2 e). reflexivity.
  - destruct (process_event ev e) as [T e1]. rewrite IH.
    destruct (process_events events1 e1) as [T1 e2]. simpl.
    rewrite app_assoc. reflexivity.
Qed.

(** X16: process_events is the flat concatenation of per-event outputs:
    processing events1 followed by events2 returns the trades of events1 on
    the starting engine followed by the trades of events2 on the engine
    events1 leaves, and ends in the engine events2 leaves. *)
Theorem process_events_app events1 events2 e :
  process_events (events1 ++ events2) e
  = (fst (process_events events1 e)
       ++ fst (process_events events2 (snd (process_events events1 e))),
     snd (process_events events2 (snd (process_events events1 e)))).
Proof. apply process_events_split. Qed.

Lemma market_trades_attributed side q taker ts b :
  Forall (fun t => Trade.taker_id t = taker /\ Trade.timestamp t = ts)
    (fst (add_market_order side q taker ts b)).
Proof.
  destruct (add_market_order_walk side q taker ts b) as (m' & st' & Hrun & HT & _).
  apply match_levels_account in Hrun as (T & V & Htr & _ & _ & Hfld & _).
  rewrite HT, Htr. exact Hfld.
Qed.

(** X17: in every engine state, every trade process_event returns carries
    the event's order_id as taker_id and the event's timestamp. *)
Theorem process_event_attribution ev e :
  Forall (fun t => Trade.taker_id t = Event.order_id ev
                   /\ Trade.timestamp t = Event.timestamp ev)
    (fst (process_event ev e)).
Proof.
  unfold process_event, process_limit_order, process_market_order,
    process_cancel_order.
  destruct (Event.type ev); simpl; try constructor.
  - destruct (add_limit_order _ (order_book_ e)) as [[|] b1]; [|constructor].
    destruct (Event.side ev).
    + destruct (best_ask_price b1) as [ask|]; [|constructor].
      destruct (Event.price ev >=? ask); [|constructor].
      pose proof (market_trades_attributed SELL (Event.quantity ev)
        (Event.order_id ev) (Event.timestamp ev) b1) as H.
      unfold add_market_order in H.
      destruct (match_market_order_sell _ _ _ b1). exact H.
    + destruct (best_bid_price b1) as [bid|]; [|constructor].
      destruct (Event.price ev <=? bid); [|constructor].
      pose proof (market_trades_attributed BUY (Event.quantity ev)
        (Event.order_id ev) (Event.timestamp ev) b1) as H.
      unfold add_market_order in H.
      destruct (match_market_order_buy _ _ _ b1). exact H.
  - pose proof (market_trades_attributed (Event.side ev) (Event.quantity ev)
      (Event.order_id ev) (Event.timestamp ev) (order_book_ e)) as H.
    destruct (add_market_order _ _ _ _ (order_book_ e)). exact H.
Qed.

Lemma run_from_app ops1 : forall b ops2,
  run_from b (ops1 ++ ops2) = run_from (run_from b ops1) ops2.
Proof. induction ops1 as [|op ops1 IH]; simpl; auto. Qed.

(** The book after one engine event is the book after at most two public
    calls, none of them [clear]. *)
Lemma process_event_as_ops ev e :
  exists ops,
    order_book_ (snd (process_event ev e)) = run_from (order_book_ e) ops
    /\ Forall (fun op => op <> OpClear) ops.
Proof.
  unfold process_event, process_limit_order, process_market_order,
    process_cancel_order.
  set (o := Order.mk (Event.order_id ev) (Event.side ev) (Event.price ev)
              (Event.quantity ev) (Event.timestamp ev)).
  set (mk := fun s => OpAddMarket s (Event.quantity ev) (Event.order_id ev)
                        (Event.timestamp ev)).
  destruct (Event.type ev).
  - destruct (add_limit_order o (order_book_ e)) as [[|] b1] eqn:Hadd.
    2:{ exists [OpAddLimit o]. split; [|repeat constructor; discriminate].
        simpl. rewrite Hadd. reflexivity. }
    assert (Hrest : exists ops,
              order_book_ (snd (@pair (list Trade.t) _ [] (with_book e b1)))
              = run_from (order_book_ e) ops
              /\ Forall (fun op => op <> OpClear) ops).
    { exists [OpAddLimit o]. split; [|repeat constructor; discriminate].
      simpl. rewrite Hadd. reflexivity. }
    destruct (Event.side ev).
    + destruct (best_ask_price b1) as [ask|]; [|exact Hrest].
      destruct (Event.price ev >=? ask); [|exact Hrest].
      exists [OpAddLimit o; mk SELL]. split; [|repeat constructor; discriminate].
      change (run_from (order_book_ e) [OpAddLimit o; mk SELL])
        with (snd (add_market_order SELL (Event.quantity ev) (Event.order_id ev)
                     (Event.timestamp ev) (snd (add_limit_order o (order_book_ e))))).
      rewrite Hadd. cbn [snd].
      destruct (add_market_order SELL _ _ _ b1). reflexivity.
    + destruct (best_bid_price b1) as [bid|]; [|exact Hrest].
      destruct (Event.price ev <=? bid); [|exact Hrest].
      exists [OpAddLimit o; mk BUY]. split; [|repeat constructor; discriminate].
      change (run_from (order_book_ e) [OpAddLimit o; mk BUY])
        with (snd (add_market_order BUY (Event.quantity ev) (Event.order_id ev)
                     (Event.timestamp ev) (snd (add_limit_order o (order_book_ e))))).
      rewrite Hadd. cbn [snd].
      destruct (add_market_order BUY _ _ _ b1). reflexivity.
  - exists [mk (Event.side ev)]. split; [|repeat constructor; discriminate].
    simpl. destruct (add_market_order _ _ _ _ (order_book_ e)). reflexivity.
  - exists [OpCancel (Event.order_id ev)].
    split; [reflexivity | repeat constructor; discriminate].
  - exists []. split; [reflexivity | constructor].
Qed.

Lemma process_events_as_ops events : forall e,
  exists ops,
    order_book_ (snd (process_events events e)) = run_from (order_book_ e) ops
    /\ Forall (fun op => op <> OpClear) ops.
Proof.
  induction events as [|ev events IH]; intros e; simpl.
  - exists []. split; [reflexivity | constructor].
  - destruct (process_event_as_ops ev e) as (ops1 & H1 & Hc1).
    destruct (process_event ev e) as [T e1]. simpl in H1.
    destruct (IH e1) as (ops2 & H2 & Hc2).
    destruct (process_events events e1) as [T' e2]. simpl in *.
    exists (ops1 ++ ops2). split; [|apply Forall_app; auto].
    rewrite run_from_app, <- H1. exact H2.
Qed.



Lemma engine_book_facts events :
  book_inv (order_book_ (snd (process_events events new_engine)))
  /\ book_live (order_book_ (snd (process_events events new_engine)))
  /\ uncrossed (order_book_ (snd (process_events events new_engine))).
Proof.
  destruct (process_events_as_ops events new_engine) as (ops & Hops & _).
  simpl in Hops. fold (run ops) in Hops. rewrite Hops. split_and!.
  - apply book_inv_run.
  - apply book_live_run.
  - rewrite <- Hops. apply (process_events_inv events new_engine). split.
    + exact book_inv_empty.
    + intros bid ask Hbid _. inversion Hbid.
Qed.

Lemma mid_price_between bid ask :
  0 < bid -> bid < ask -> bid + ask <= INT64_MAX ->
  bid <= Z.quot (int64_wrap (bid + ask)) 2 < ask.
Proof.
  intros Hb Hlt Hmax.
  rewrite int64_wrap_small by (unfold INT64_MIN, INT64_MAX in *; lia).
  rewrite Z.quot_div_nonneg by lia.
  split.
  - apply Z.div_le_lower_bound; lia.
  - apply Z.div_lt_upper_bound; lia.
Qed.

(** Beyond that bound the 64-bit sum is negative: for the prices 2^62 and
    2^62 + 1 the mid price is below both. *)
Lemma mid_price_wraps :
  get_mid_price (2 ^ 62) (2 ^ 62 + 1) = - (2 ^ 62 - 1).
Proof. vm_compute. reflexivity. Qed.

(** X19: in every engine state reached from a fresh engine, the market
    snapshot reports 0 for the best price of a side exactly when that side
    is empty, and then 0 for its best quantity; for a non-empty side the
    best quantity is the 64-bit (two's-complement) value of the sum of the
    residual quantities at the best level, which is positive whenever that
    sum is at most INT64_MAX.  When both sides are non-empty,
    0 < best_bid < best_ask, get_spread is their positive difference, and
    get_mid_price lies from best_bid up to, but not including, best_ask
    whenever best_bid + best_ask is at most INT64_MAX; otherwise get_spread
    and get_mid_price are 0. *)
Theorem snapshot_top_of_book events timestamp :
  let e := snd (process_events events new_engine) in
  let s := get_market_snapshot timestamp e in
  (buy_levels_ (order_book_ e) = [] <-> MarketSnapshot.best_bid s = 0)
  /\ (sell_levels_ (order_book_ e) = [] <-> MarketSnapshot.best_ask s = 0)
  /\ match buy_levels_ (order_book_ e) with
     | [] => MarketSnapshot.best_bid_qty s = 0
     | (_, lv) :: _ =>
         MarketSnapshot.best_bid_qty s = int64_wrap (queue_sum (orders_ lv))
         /\ (queue_sum (orders_ lv) <= INT64_MAX ->
             0 < MarketSnapshot.best_bid_qty s)
     end
  /\ match sell_levels_ (order_book_ e) with
     | [] => MarketSnapshot.best_ask_qty s = 0
     | (_, lv) :: _ =>
         MarketSnapshot.best_ask_qty s = int64_wrap (queue_sum (orders_ lv))
         /\ (queue_sum (orders_ lv) <= INT64_MAX ->
             0 < MarketSnapshot.best_ask_qty s)
     end
  /\ match buy_levels_ (order_book_ e), sell_levels_ (order_book_ e) with
     | _ :: _, _ :: _ =>
         0 < MarketSnapshot.best_bid s < MarketSnapshot.best_ask s
         /\ get_spread (MarketSnapshot.best_bid s) (MarketSnapshot.best_ask s)
            = MarketSnapshot.best_ask s - MarketSnapshot.best_bid s
         /\ (MarketSnapshot.best_bid s + MarketSnapshot.best_ask s <= INT64_MAX ->
             MarketSnapshot.best_bid s
             <= get_mid_price (MarketSnapshot.best_bid s) (MarketSnapshot.best_ask s)
             < MarketSnapshot.best_ask s)
     | _, _ =>
         get_spread (MarketSnapshot.best_bid s) (MarketSnapshot.best_ask s) = 0
         /\ get_mid_price (MarketSnapshot.best_bid s) (MarketSnapshot.best_ask s) = 0
     end.
Proof.
  intros e s. subst s. unfold get_market_snapshot, top_of_book. simpl.
  destruct (engine_book_facts events) as (Hinv & [Hlb Hls] & Hu).
  fold e in Hinv, Hlb, Hls, Hu.
  pose proof (inv_buys_ok _ Hinv) as Hokb. pose proof (inv_sells_ok _ Hinv) as Hoks.
  assert (Hqty : forall sd k lv, level_ok sd (k, lv) -> level_live (k, lv) ->
            total_quantity_ lv = int64_wrap (queue_sum (orders_ lv))
            /\ (queue_sum (orders_ lv) <= INT64_MAX -> 0 < total_quantity_ lv)).
  { intros sd k lv Hok Hl. split; [apply Hok|].
    intros Hmax. rewrite (level_total_exact sd k lv Hok Hl Hmax).
    apply (live_queue_sum_pos k lv Hl). }
  unfold best_bid_price, best_bid_quantity, best_ask_price, best_ask_quantity,
    get_spread, get_mid_price, uncrossed in *.
  destruct (buy_levels_ (order_book_ e)) as [|[bid lb] buys];
    destruct (sell_levels_ (order_book_ e)) as [|[ask ls] sells]; simpl.
  - split_and!; tauto.
  - apply Forall_cons in Hls as [Hl _]. apply Forall_cons in Hoks as [Hok _].
    pose proof (Hqty SELL ask ls Hok Hl) as [Hq1 Hq2]. destruct Hl as (Hk & _).
    simpl in *. split_and!; try tauto; try (split; [discriminate | lia]).
  - apply Forall_cons in Hlb as [Hl _]. apply Forall_cons in Hokb as [Hok _].
    pose proof (Hqty BUY bid lb Hok Hl) as [Hq1 Hq2]. destruct Hl as (Hk & _).
    simpl in *.
    destruct (Z.ltb_spec 0 bid); [|lia]. simpl.
    split_and!; try tauto; try (split; [discriminate | lia]).
  - apply Forall_cons in Hlb as [Hl1 _]. apply Forall_cons in Hokb as [Hok1 _].
    apply Forall_cons in Hls as [Hl2 _]. apply Forall_cons in Hoks as [Hok2 _].
    pose proof (Hqty BUY bid lb Hok1 Hl1) as [Hq1 Hq1'].
    pose proof (Hqty SELL ask ls Hok2 Hl2) as [Hq2 Hq2'].
    destruct Hl1 as (Hk1 & _). destruct Hl2 as (Hk2 & _).
    simpl in *.
    assert (Hcross : bid < ask).
    { apply Hu; unfold keys; simpl; apply elem_of_cons; auto. }
    destruct (Z.ltb_spec 0 bid); [|lia]. destruct (Z.ltb_spec 0 ask); [|lia].
    simpl.
    split_and!; try (split; [discriminate | lia]); try lia; try tauto;
      try reflexivity.
    intros Hmax. apply (mid_price_between bid ask Hk1 Hcross Hmax).
Qed.

(** X20: in every engine state reached from a fresh engine, a Limit event
    never fills a resting order.  Either it returns no trade, and the book is
    unchanged (rejected order) or gains exactly the new order; or it returns
    the single trade of the incoming order with itself, at the event's price
    and for the event's quantity, and both level maps are as before. *)
Theorem limit_event_leaves_resting_orders events ev :
  Event.type ev = LIMIT ->
  let e := snd (process_events events new_engine) in
  let o := Order.mk (Event.order_id ev) (Event.side ev) (Event.price ev)
             (Event.quantity ev) (Event.timestamp ev) in
  (fst (process_event ev e) = []
   /\ (order_book_ (snd (process_event ev e)) = order_book_ e
       \/ resting_orders (order_book_ (snd (process_event ev e)))
          ≡ₚ o :: resting_orders (order_book_ e)))
  \/ (fst (process_event ev e)
      = [Trade.mk (Event.order_id ev) (Event.order_id ev) (Event.price ev)
           (Event.quantity ev) (Event.timestamp ev)]
      /\ buy_levels_ (order_book_ (snd (process_event ev e)))
         = buy_levels_ (order_book_ e)
      /\ sell_levels_ (order_book_ (snd (process_event ev e)))
         = sell_levels_ (order_book_ e)).
Proof.
  intros Htype e o0. unfold process_event. rewrite Htype.
  destruct (engine_book_facts events) as (Hinv & _ & Hu).
  fold e in Hinv, Hu. unfold process_limit_order. fold o0.
  remember o0 as o eqn:Ho.
  assert (Hp : Event.price ev = Order.price o) by (subst o; reflexivity).
  assert (Hq : Event.quantity ev = Order.quantity o) by (subst o; reflexivity).
  assert (Hi : Event.order_id ev = Order.id o) by (subst o; reflexivity).
  assert (Ht : Event.timestamp ev = Order.timestamp o) by (subst o; reflexivity).
  assert (Hsd : Order.side o = Event.side ev) by (subst o; reflexivity).
  clear Ho o0. rewrite Hp, Hq, Hi, Ht.
  assert (Hrests : resting_orders (snd (add_limit_order_to_side o (order_book_ e)))
                   ≡ₚ o :: resting_orders (order_book_ e)).
  { unfold add_limit_order_to_side, resting_orders. simpl.
    destruct (Order.side o).
    - rewrite (map_update_orders Z.gtb). reflexivity.
    - rewrite (map_update_orders Z.ltb), <- Permutation_middle. reflexivity. }
  unfold add_limit_order.
  destruct (is_valid_price (Order.price o)); [|left; split; [reflexivity | left; reflexivity]].
  destruct (is_valid_quantity (Order.quantity o)) eqn:Hvq;
    [|left; split; [reflexivity | left; reflexivity]].
  apply Z.ltb_lt in Hvq. cbn [negb orb].
  change (add_limit_order_to_side o (order_book_ e))
    with (true, snd (add_limit_order_to_side o (order_book_ e))).
  cbv iota. destruct (Event.side ev).
  - rewrite (best_ask_after_buy _ _ Hsd).
    destruct (best_ask_price (order_book_ e)) as [ask|] eqn:Hask;
      [|left; split; [reflexivity | right; exact Hrests]].
    destruct (Z.geb_spec (Order.price o) ask) as [Hge|Hlt];
      [|left; split; [reflexivity | right; exact Hrests]].
    right.
    pose proof (bids_below_best_ask _ _ Hu Hask _ Hge) as Hall.
    pose proof (cross_buy_trades (order_book_ e) o (Order.id o)
                  (Order.timestamp o) Hsd Hvq Hall) as HT.
    pose proof (cross_buy_restores (order_book_ e) o (Order.id o)
                  (Order.timestamp o) Hsd Hvq Hall) as [Hb Hs].
    destruct (add_market_order SELL _ _ _ _) as [T b2]. simpl in *.
    split_and!; assumption.
  - rewrite (best_bid_after_sell _ _ Hsd).
    destruct (best_bid_price (order_book_ e)) as [bid|] eqn:Hbid;
      [|left; split; [reflexivity | right; exact Hrests]].
    destruct (Z.leb_spec (Order.price o) bid) as [Hle|Hgt];
      [|left; split; [reflexivity | right; exact Hrests]].
    right.
    pose proof (asks_above_best_bid _ _ Hu Hbid _ Hle) as Hall.
    pose proof (cross_sell_trades (order_book_ e) o (Order.id o)
                  (Order.timestamp o) Hsd Hvq Hall) as HT.
    pose proof (cross_sell_restores (order_book_ e) o (Order.id o)
                  (Order.timestamp o) Hsd Hvq Hall) as [Hb Hs].
    destruct (add_market_order BUY _ _ _ _) as [T b2]. simpl in *.
    split_and!; assumption.
Qed.


Lemma limit_event_leaves_resting_orders_witness :
  (fst (process_event S4_event S1_engine) = []
   /\ (order_book_ (snd (process_event S4_event S1_engine)) = order_book_ S1_engine
       \/ resting_orders (order_book_ (snd (process_event S4_event S1_engine)))
          ≡ₚ Order.mk 10 BUY 10005 15 1100 :: resting_orders (order_book_ S1_engine)))
  \/ (fst (process_event S4_event S1_engine) = [Trade.mk 10 10 10005 15 1100]
      /\ buy_levels_ (order_book_ (snd (process_event S4_event S1_engine)))
         = buy_levels_ (order_book_ S1_engine)
      /\ sell_levels_ (order_book_ (snd (process_event S4_event S1_engine)))
         = sell_levels_ (order_book_ S1_engine)).
Proof.
  apply (limit_event_leaves_resting_orders S1_events S4_event). reflexivity.
Defined.

(** What a market order adds to the volume counter. *)
Lemma add_market_order_volume side q taker ts b :
  book_live b -> in_int64 (total_volume b) ->
  exists V,
    0 <= V <= sum_quantity (fst (add_market_order side q taker ts b))
    /\ total_volume (snd (add_market_order side q taker ts b))
       = int64_wrap (total_volume b + V).
Proof.
  intros Hlive Hr.
  destruct (add_market_order_walk side q taker ts b)
    as (m' & st' & Hrun & HT & _ & _ & Hvol & _).
  apply match_levels_account in Hrun
    as (T & V & Htr & _ & _ & _ & _ & Hpos & Hwrap & _).
  destruct (Hpos (levels_live _ _ Hlive)) as (_ & _ & Hbound).
  destruct (Hwrap Hr) as [_ Hv]. simpl in Htr, Hv.
  exists V. rewrite HT, Htr, Hvol. simpl. split; [exact Hbound | exact Hv].
Qed.

(** What one engine event adds to the volume counter. *)
Lemma process_event_volume ev e :
  book_live (order_book_ e) -> in_int64 (total_volume (order_book_ e)) ->
  exists V,
    0 <= V <= sum_quantity (fst (process_event ev e))
    /\ total_volume (order_book_ (snd (process_event ev e)))
       = int64_wrap (total_volume (order_book_ e) + V).
Proof.
  intros Hlive Hr.
  assert (Hidle : forall b, total_volume b = total_volume (order_book_ e) ->
            exists V, 0 <= V <= sum_quantity []
                      /\ total_volume b = int64_wrap (total_volume (order_book_ e) + V)).
  { intros b Hb. exists 0. simpl. split; [lia|].
    rewrite Hb, Z.add_0_r, int64_wrap_small; auto. }
  unfold process_event, process_limit_order, process_market_order,
    process_cancel_order.
  set (o := Order.mk (Event.order_id ev) (Event.side ev) (Event.price ev)
              (Event.quantity ev) (Event.timestamp ev)).
  destruct (Event.type ev).
  - pose proof (book_live_add o _ Hlive) as Hlive1.
    assert (Hv1 : total_volume (snd (add_limit_order o (order_book_ e)))
                  = total_volume (order_book_ e)).
    { unfold add_limit_order. destruct (negb _ || negb _); reflexivity. }
    destruct (add_limit_order o (order_book_ e)) as [[|] b1]; simpl in Hlive1, Hv1;
      [|apply Hidle; exact Hv1].
    rewrite <- Hv1 in Hr.
    destruct (Event.side ev).
    + destruct (best_ask_price b1) as [ask|]; [|apply Hidle; exact Hv1].
      destruct (Event.price ev >=? ask); [|apply Hidle; exact Hv1].
      pose proof (add_market_order_volume SELL (Event.quantity ev)
        (Event.order_id ev) (Event.timestamp ev) b1 Hlive1 Hr) as H.
      rewrite Hv1 in H.
      destruct (add_market_order SELL _ _ _ b1). exact H.
    + destruct (best_bid_price b1) as [bid|]; [|apply Hidle; exact Hv1].
      destruct (Event.price ev <=? bid); [|apply Hidle; exact Hv1].
      pose proof (add_market_order_volume BUY (Event.quantity ev)
        (Event.order_id ev) (Event.timestamp ev) b1 Hlive1 Hr) as H.
      rewrite Hv1 in H.
      destruct (add_market_order BUY _ _ _ b1). exact H.
  - pose proof (add_market_order_volume (Event.side ev) (Event.quantity ev)
      (Event.order_id ev) (Event.timestamp ev) (order_book_ e) Hlive Hr) as H.
    destruct (add_market_order _ _ _ _ (order_book_ e)). exact H.
  - apply Hidle. simpl. unfold cancel_order.
    destruct (order_lookup_ (order_book_ e) !! Event.order_id ev) as [[p s]|];
      [|reflexivity].
    simpl. unfold remove_order_from_side.
    destruct s; destruct (remove_from_levels _ _ _); reflexivity.
  - apply Hidle. reflexivity.
Qed.

Lemma engine_volume_ranged events :
  in_int64 (total_volume (order_book_ (snd (process_events events new_engine)))).
Proof.
  destruct (process_events_as_ops events new_engine) as (ops & Hops & _).
  simpl in Hops. fold (run ops) in Hops. rewrite Hops. apply volume_ranged_run.
Qed.

(** Beyond that bound the counter drops: after a fill of INT64_MAX, one more
    fill of 1 takes total_volume to INT64_MIN. *)
Lemma total_volume_wraps :
  let ops := [OpAddLimit (Order.mk 1 SELL 100 INT64_MAX 1);
              OpAddMarket BUY INT64_MAX 2 2;
              OpAddLimit (Order.mk 3 SELL 100 1 3)] in
  total_volume (run ops) = INT64_MAX
  /\ fst (add_market_order BUY 1 4 4 (run ops)) = [Trade.mk 3 4 100 1 4]
  /\ total_volume (snd (add_market_order BUY 1 4 4 (run ops))) = INT64_MIN.
Proof. vm_compute. auto. Qed.

(** X21: an event processed by the engine does not lower total_volume, nor
    raise it by more than the quantity of the trades it returns, whenever
    total_volume plus that quantity is at most INT64_MAX (the counter is a
    64-bit sum). *)
Theorem engine_total_volume_monotone events ev :
  total_volume (order_book_ (snd (process_events events new_engine)))
  + sum_quantity (fst (process_event ev (snd (process_events events new_engine))))
  <= INT64_MAX ->
  total_volume (order_book_ (snd (process_events events new_engine)))
  <= total_volume (order_book_ (snd (process_events (events ++ [ev]) new_engine)))
  <= total_volume (order_book_ (snd (process_events events new_engine)))
     + sum_quantity (fst (process_event ev (snd (process_events events new_engine)))).
Proof.
  intros Hmax. rewrite process_events_split. cbn [snd].
  destruct (engine_book_facts events) as (_ & Hlive & _).
  pose proof (engine_volume_ranged events) as Hr.
  destruct (process_event_volume ev _ Hlive Hr) as (V & HV & Hval).
  simpl. destruct (process_event ev (snd (process_events events new_engine)))
    as [T e1]. simpl in *.
  rewrite Hval, int64_wrap_small; [lia|].
  unfold in_int64, INT64_MIN, INT64_MAX in *. lia.
Qed.

Lemma engine_total_volume_monotone_witness :
  total_volume (order_book_ (snd (process_events S1_events new_engine)))
  <= total_volume
       (order_book_ (snd (process_events (S1_events ++ [S4_event]) new_engine)))
  <= total_volume (order_book_ (snd (process_events S1_events new_engine)))
     + sum_quantity (fst (process_event S4_event
                            (snd (process_events S1_events new_engine)))).
Proof.
  apply (engine_total_volume_monotone S1_events S4_event).
  vm_compute. discriminate.
Defined.

(** X22: on every reachable book, empty() holds exactly when no order rests,
    and then size() is 0. *)
Theorem empty_iff_nothing_rests ops :
  empty (run ops) = true
  <-> resting_orders (run ops) = [] /\ size (run ops) = 0.
Proof.
  pose proof (inv_count _ (book_inv_run ops)) as Hcnt.
  destruct (book_live_run ops) as [Hlb Hls].
  unfold empty, size, resting_orders in *.
  destruct (buy_levels_ (run ops)) as [|[k lv] buys].
  - destruct (sell_levels_ (run ops)) as [|[k lv] sells].
    + simpl in *. split; [intros _; split; [reflexivity | exact Hcnt] | reflexivity].
    + split; [discriminate|]. intros [Hnil _]. exfalso. simpl in Hnil.
      apply Forall_cons in Hls as [(_ & Hne & _) _]. simpl in Hne.
      apply app_eq_nil in Hnil as [Hnil _]. congruence.
  - split; [discriminate|]. intros [Hnil _]. exfalso. simpl in Hnil.
    apply Forall_cons in Hlb as [(_ & Hne & _) _]. simpl in Hne.
    apply app_eq_nil in Hnil as [Hnil _].
    apply app_eq_nil in Hnil as [Hnil _]. congruence.
Qed.

(** X23: when ids are never reused while resting, no two resting orders
    share an id, and by_id maps the id of every resting order to that order's
    price and side. *)
Theorem lookup_records_price_and_side ops :
  ids_fresh ops = true ->
  NoDup (Order.id <$> resting_orders (run ops))
  /\ Forall (fun o => order_lookup_ (run ops) !! Order.id o
                      = Some (Order.price o, Order.side o))
       (resting_orders (run ops)).
Proof.
  intros Hfresh.
  pose proof (unique_inv_run_from ops empty_book unique_inv_empty Hfresh) as Hu.
  fold (run ops) in Hu. split; [apply (uniq_ids _ Hu)|].
  apply Forall_forall. apply (uniq_lookup _ Hu).
Qed.

Lemma lookup_records_price_and_side_witness :
  NoDup (Order.id <$> resting_orders (run two_asks_ops))
  /\ Forall (fun o => order_lookup_ (run two_asks_ops) !! Order.id o
                      = Some (Order.price o, Order.side o))
       (resting_orders (run two_asks_ops)).
Proof. apply (lookup_records_price_and_side two_asks_ops). vm_compute. reflexivity. Defined.


Lemma match_levels_partial taker ts k lv rest o os st :
  orders_ lv = o :: os ->
  0 < remaining_qty st < Order.quantity o ->
  match_levels taker ts ((k, lv) :: rest) st
  = ((k, {| orders_ := set_quantity o (Order.quantity o - remaining_qty st) :: os;
            total_quantity_ := int64_wrap (total_quantity_ lv - remaining_qty st) |})
     :: rest,
     on_partial_fill k taker ts (set_quantity o (remaining_qty st)) st).
Proof.
  intros Hos [Hpos Hlt]. simpl. destruct lv as [os0 tq]. simpl in *. subst os0.
  destruct (Z.ltb_spec 0 (remaining_qty st)); [|lia].
  simpl. unfold level_empty, consume_order. simpl.
  destruct (Z.ltb_spec 0 (remaining_qty st)); [|lia].
  destruct (Z.leb_spec (Order.quantity o) (remaining_qty st)); [lia|].
  simpl.
  assert (Hstop : forall n lv1,
    match_level n k taker ts lv1
      (on_partial_fill k taker ts (set_quantity o (remaining_qty st)) st)
    = (lv1, on_partial_fill k taker ts (set_quantity o (remaining_qty st)) st)).
  { intros [|n] lv1; simpl; [reflexivity|]. rewrite andb_false_r. reflexivity. }
  rewrite Hstop. rewrite match_levels_done by (simpl; lia). reflexivity.
Qed.

(** X24: in every book state, a market order for a positive quantity smaller
    than the residual of the order at the front of the best opposite level
    returns exactly one trade, for the requested quantity at that level's
    price with that order as maker; the order keeps its place at the front
    with its residual lowered by the requested quantity, the level's
    total_quantity is lowered by the same amount (the difference is formed
    in 64 bits), and the rest of both level maps, the lookup index and size()
    are unchanged. *)
Theorem market_order_partial_fill b side quantity taker_id timestamp k lv rest o os :
  levels_of (opposite side) b = (k, lv) :: rest ->
  orders_ lv = o :: os ->
  0 < quantity < Order.quantity o ->
  fst (add_market_order side quantity taker_id timestamp b)
  = [Trade.mk (Order.id o) taker_id k quantity timestamp]
  /\ levels_of (opposite side) (snd (add_market_order side quantity taker_id timestamp b))
     = (k, {| orders_ := set_quantity o (Order.quantity o - quantity) :: os;
              total_quantity_ := int64_wrap (total_quantity_ lv - quantity) |})
       :: rest
  /\ levels_of side (snd (add_market_order side quantity taker_id timestamp b))
     = levels_of side b
  /\ order_lookup_ (snd (add_market_order side quantity taker_id timestamp b))
     = order_lookup_ b
  /\ size (snd (add_market_order side quantity taker_id timestamp b)) = size b.
Proof.
  intros Hm Hos Hq.
  unfold add_market_order, match_market_order_buy, match_market_order_sell.
  destruct side; simpl in Hm; rewrite Hm;
    rewrite (match_levels_partial _ _ _ _ _ o os) by (simpl; auto);
    simpl; split_and!; reflexivity.
Qed.

Lemma market_order_partial_fill_witness :
  fst (add_market_order BUY 30 3 9 (run two_asks_ops))
  = [Trade.mk (Order.id (Order.mk 1 SELL 10002 40 1)) 3 10002 30 9]
  /\ levels_of (opposite BUY) (snd (add_market_order BUY 30 3 9 (run two_asks_ops)))
     = (10002,
        {| orders_ := set_quantity (Order.mk 1 SELL 10002 40 1)
                        (Order.quantity (Order.mk 1 SELL 10002 40 1) - 30) :: [];
           total_quantity_ :=
             int64_wrap
               (total_quantity_ {| orders_ := [Order.mk 1 SELL 10002 40 1];
                                   total_quantity_ := 40 |} - 30) |})
       :: [(10003, {| orders_ := [Order.mk 2 SELL 10003 50 2];
                      total_quantity_ := 50 |})]
  /\ levels_of BUY (snd (add_market_order BUY 30 3 9 (run two_asks_ops)))
     = levels_of BUY (run two_asks_ops)
  /\ order_lookup_ (snd (add_market_order BUY 30 3 9 (run two_asks_ops)))
     = order_lookup_ (run two_asks_ops)
  /\ size (snd (add_market_order BUY 30 3 9 (run two_asks_ops)))
     = size (run two_asks_ops).
Proof.
  apply (market_order_partial_fill (run two_asks_ops) BUY 30 3 9 10002
           {| orders_ := [Order.mk 1 SELL 10002 40 1]; total_quantity_ := 40 |}
           [(10003, {| orders_ := [Order.mk 2 SELL 10003 50 2];
                       total_quantity_ := 50 |})]
           (Order.mk 1 SELL 10002 40 1) []).
  - vm_compute. reflexivity.
  - reflexivity.
  - simpl. lia.
Defined.
